(** * PokerStars hand-history parser: a shallow embedding of
      [poker/room/pokerstars.py] and the properties of its line-oriented
      state machine.

    The stream is a text read one line at a time; every section parser
    looks at the current line, and [__readline] replaces it by the next
    one.  Line shapes are the regular expressions of the source, written
    as syntax trees and run by a backtracking matcher with the greedy
    semantics of Python's [re]. *)

From Stdlib Require Import Bool Ascii String List ZArith QArith Lia.
Import ListNotations.
Open Scope string_scope.
Open Scope list_scope.
Close Scope Q_scope.

(** ** Strings *)

Definition nl : ascii := ascii_of_nat 10.
Definition NL : string := String nl EmptyString.

(** [s.startswith(p)] *)
Definition startswith (p s : string) : bool := String.prefix p s.

(** [needle in hay] *)
Fixpoint contains (needle hay : string) : bool :=
  String.prefix needle hay ||
  match hay with
  | EmptyString => false
  | String _ hay' => contains needle hay'
  end.

Fixpoint strip_prefix (p s : string) : option string :=
  match p, s with
  | EmptyString, _ => Some s
  | String a p', String b s' => if Ascii.eqb a b then strip_prefix p' s' else None
  | String _ _, EmptyString => None
  end.

(** What was read between the position where [s] was left and the one
    where [s'] is left. *)
Definition consumed (s s' : string) : string :=
  String.substring 0 (String.length s - String.length s') s.

Fixpoint mem_ascii (a : ascii) (set : string) : bool :=
  match set with
  | EmptyString => false
  | String b set' => Ascii.eqb a b || mem_ascii a set'
  end.

Definition is_digit (a : ascii) : bool := mem_ascii a "0123456789".

Definition digit_val (a : ascii) : N := (N_of_ascii a - 48)%N.

(** [int(s)] on a string of decimal digits. *)
Definition int_of_digits (s : string) : N :=
  fold_left (fun acc a => (10 * acc + digit_val a)%N) (list_ascii_of_string s) 0%N.

(** ** Regular expressions *)

Module Re.

Inductive cls : Type :=
| Dot                      (* [.]  : anything but a newline *)
| Digit                    (* [\d] *)
| Space                    (* [\s] *)
| OneOf (set : string).    (* [[...]] *)

Definition cls_mem (c : cls) (a : ascii) : bool :=
  match c with
  | Dot => negb (Ascii.eqb a nl)
  | Digit => is_digit a
  | Space => let n := nat_of_ascii a in (Nat.eqb n 32) || (Nat.leb 9 n && Nat.leb n 13)
  | OneOf set => mem_ascii a set
  end.

Inductive regex : Type :=
| Eps
| Lit (s : string)          (* literal text *)
| One (c : cls)             (* one character of a class *)
| Star (c : cls)            (* [c*], greedy *)
| Seq (r1 r2 : regex)
| Alt (r1 r2 : regex)       (* [r1|r2], left first *)
| Opt (r : regex)           (* [r?], greedy *)
| Grp (name : string) (r : regex)
| Eol                       (* [$] *)
| Eos                       (* [\Z] *)
| Ahead (r : regex).        (* [(?=r)] *)

(** Captured groups, the latest binding first.  A numbered group is
    kept under its number written in decimal. *)
Definition caps : Type := list (string * string).

Fixpoint group (m : caps) (name : string) : option string :=
  match m with
  | [] => None
  | (n, v) :: m' => if String.eqb n name then Some v else group m' name
  end.

(** A group that took part in the match; [EmptyString] stands for the
    [None] that the callers never meet on a mandatory group. *)
Definition group_str (m : caps) (name : string) : string :=
  match group m name with Some v => v | None => EmptyString end.

Fixpoint star_match {A : Type} (c : cls) (s : string) (k : string -> option A)
  : option A :=
  match s with
  | String a s' =>
      if cls_mem c a then
        match star_match c s' k with
        | Some r => Some r
        | None => k s
        end
      else k s
  | EmptyString => k s
  end.

Fixpoint rmatch (r : regex) (s : string) (cs : caps)
         (k : string -> caps -> option caps) : option caps :=
  match r with
  | Eps => k s cs
  | Lit l => match strip_prefix l s with Some s' => k s' cs | None => None end
  | One c =>
      match s with
      | String a s' => if cls_mem c a then k s' cs else None
      | EmptyString => None
      end
  | Star c => star_match c s (fun s' => k s' cs)
  | Seq a b => rmatch a s cs (fun s' cs' => rmatch b s' cs' k)
  | Alt a b =>
      match rmatch a s cs k with
      | Some x => Some x
      | None => rmatch b s cs k
      end
  | Opt a =>
      match rmatch a s cs k with
      | Some x => Some x
      | None => k s cs
      end
  | Grp n a => rmatch a s cs (fun s' cs' => k s' ((n, consumed s s') :: cs'))
  | Eol => if String.eqb s EmptyString || String.eqb s NL then k s cs else None
  | Eos => if String.eqb s EmptyString then k s cs else None
  | Ahead a =>
      match rmatch a s cs (fun _ cs' => Some cs') with
      | Some _ => k s cs
      | None => None
      end
  end.

(** [re.match]: anchored at the start, free at the end. *)
Definition match_ (r : regex) (s : string) : option caps :=
  rmatch r s [] (fun _ cs => Some cs).

Definition cat (rs : list regex) : regex := fold_right Seq Eps rs.
Definition plus (c : cls) : regex := Seq (One c) (Star c).
Fixpoint rep (n : nat) (c : cls) : regex :=
  match n with
  | O => Eps
  | S n' => Seq (One c) (rep n' c)
  end.
Fixpoint alts (ws : list string) : regex :=
  match ws with
  | [] => Alt Eps Eps
  | [w] => Lit w
  | w :: ws' => Alt (Lit w) (alts ws')
  end.

End Re.
Import Re.

(** ** The line shapes of [PokerStarsHandHistoryParser] *)

Definition _tournament_header_re : regex :=
  cat [ Lit "PokerStars ";
        Lit "Hand #"; Grp "ident" (Star Digit); Lit ": ";
        Grp "game_type" (Lit "Tournament"); Lit " ";
        Lit "#"; Grp "tournament_ident" (Star Digit); Lit ", ";
        Lit "$"; Grp "buyin" (cat [Star Digit; Lit "."; rep 2 Digit]); Lit "+";
        Lit "$"; Grp "rake" (cat [Star Digit; Lit "."; rep 2 Digit]); Lit " ";
        Grp "currency" (alts ["USD"; "EUR"]); Lit " ";
        Grp "game" (Star Dot); Lit " ";
        Grp "limit" (Lit "No Limit"); Lit " ";
        Lit "- Level "; Grp "tournament_level" (Star Dot); Lit " ";
        Lit "("; Grp "sb" (Star Dot); Lit "/"; Grp "bb" (Star Dot); Lit ") ";
        Lit "- "; Star Dot; Lit " ";
        Lit "["; Grp "date" (Star Dot); Lit "]"; Eol ].

Definition _cash_header_re : regex :=
  cat [ Lit "PokerStars Hand #"; Grp "ident" (Star Digit); Lit ":  ";
        Grp "game_type" (Lit "Hold'em No Limit"); Lit " ";
        Lit "($"; Grp "sb" (Star Dot); Lit "/$"; Grp "bb" (Star Dot); Lit " ";
        Grp "currency" (Star Dot); Lit ") - ";
        Grp "date" (Star Dot) ].

Definition _table_re : regex :=
  cat [ Lit "Table '"; Grp "name" (Star Dot); Lit "' ";
        Grp "seats" (One Digit); Lit "-max Seat #";
        Grp "button" (One Digit); Lit " is the button"; Eol ].

Definition _seat_re : regex :=
  cat [ Lit "Seat "; Grp "seat" (One Digit); Lit ": ";
        Grp "name" (Star Dot); Lit " ("; Opt (Lit "$");
        Grp "stack" (Star Dot); Lit " in chips)"; Star Dot ].

Definition _hero_re : regex :=
  cat [ Lit "Dealt to "; Grp "name" (Star Dot); Lit " [";
        Grp "card1" (rep 2 Dot); Lit " "; Grp "card2" (rep 2 Dot); Lit "]"; Eol ].

(** Declared by the class and used by none of its methods. *)
Definition _ante_re : regex :=
  cat [ Star Dot; Lit "posts the ante "; Grp "1" (Star Digit) ].

(** [blind_re] of [_parse_blinds] *)
Definition blind_re : regex :=
  cat [ Grp "1" (Star Dot); Lit ": posts ";
        Grp "2" (alts ["small"; "big"; "small & big"]); Lit " blind";
        Opt (One (OneOf "s")); Lit " "; Opt (Lit "$"); Grp "3" (Star Dot) ].

(** [action_re] of [_parse_street] *)
Definition action_re : regex :=
  cat [ Grp "name" (Star Dot); Lit ": ";
        Grp "action" (alts ["checks"; "folds"; "calls"; "bets"; "raises"]); Lit " ";
        Opt (Lit "$");
        Opt (Grp "value" (cat [ plus (OneOf "0123456789");
                                Grp "4" (cat [Lit "."; Star (OneOf "0123456789")]) ]));
        Star Dot ].

Definition rank_cls : cls := OneOf "23456789TJQKA".
Definition suit_cls : cls := OneOf "cdhs".
Definition card_re (g : string) : regex := Grp g (Seq (One rank_cls) (One suit_cls)).

(** [board_re] of [_parse_flop], [_parse_turn] and [_parse_river] *)
Definition flop_board_re : regex :=
  cat [ Lit "*** FLOP *** "; Lit "["; card_re "1"; Lit " "; card_re "2"; Lit " ";
        card_re "3"; Lit "]"; Star Dot ].

Definition turn_board_re : regex :=
  cat [ Lit "*** TURN *** "; Lit "["; rep 8 Dot; Lit "] [";
        Grp "1" (rep 2 Dot); Lit "]"; Star Dot ].

Definition river_board_re : regex :=
  cat [ Lit "*** RIVER *** "; Lit "["; rep 11 Dot; Lit "] [";
        Grp "1" (rep 2 Dot); Lit "]"; Star Dot ].

(** [showdown_re] of [_parse_showdown] *)
Definition showdown_re : regex :=
  cat [ Grp "1" (Star Dot); Lit ": shows ["; Grp "2" (rep 2 Dot); Lit " ";
        Grp "3" (rep 2 Dot); Lit "]"; Star Dot ].

(** ** Outcomes of a call *)

Inductive exn : Type :=
| ParseException (line : string)      (* [ParseException(line)] *)
| Exception_ (msg : string)           (* [Exception(msg)] *)
| AttributeError
| TypeError
| ValueError
| IndexError
| ZeroDivisionError
| AssertionError
| IOError
| SeatNotFound.                       (* the seat lookup found no such name *)

(** A call returns, raises, or never comes back. *)
Inductive outcome (A : Type) : Type :=
| Returns (a : A)
| Raises (e : exn)
| Diverges.
Arguments Returns {A} a.
Arguments Raises {A} e.
Arguments Diverges {A}.

Definition bind {A B : Type} (c : outcome A) (k : A -> outcome B) : outcome B :=
  match c with
  | Returns a => k a
  | Raises e => Raises e
  | Diverges => Diverges
  end.

Notation "x <- c ;; k" := (bind c (fun x => k))
  (at level 61, c at next level, right associativity).
Notation "' pat <- c ;; k" := (bind c (fun x => match x with pat => k end))
  (at level 61, pat pattern, c at next level, right associativity).

(** ** [fractions.Fraction] on a string *)

Definition _RATIONAL_FORMAT : regex :=
  cat [ Star Space;
        Grp "sign" (Opt (One (OneOf "-+")));
        Ahead (Alt (One Digit) (Seq (Lit ".") (One Digit)));
        Grp "num" (Star Digit);
        Alt (Opt (Seq (Lit "/") (Grp "denom" (plus Digit))))
            (Seq (Opt (Seq (Lit ".") (Grp "decimal" (Star Digit))))
                 (Opt (Seq (One (OneOf "eE"))
                           (Seq (Grp "expsign" (Opt (One (OneOf "-+"))))
                                (Grp "exp" (plus Digit))))));
        Star Space; Eos ].

Definition pow10 (n : N) : Z := Z.pow 10 (Z.of_N n).

(** The fraction [n/d] in lowest terms, [d] positive. *)
Definition mkFraction (n : Z) (d : Z) : Q := Qred (Qmake n (Z.to_pos d)).

Definition Fraction_of_string (s : string) : outcome Q :=
  match match_ _RATIONAL_FORMAT s with
  | None => Raises ValueError
  | Some m =>
      let num := Z.of_N (int_of_digits (group_str m "num")) in
      let sign := if String.eqb (group_str m "sign") "-" then (-1)%Z else 1%Z in
      match group m "denom" with
      | Some d =>
          let den := Z.of_N (int_of_digits d) in
          if Z.eqb den 0 then Raises ZeroDivisionError
          else Returns (mkFraction (sign * num) den)
      | None =>
          let dec := group_str m "decimal" in
          let scale := pow10 (N.of_nat (String.length dec)) in
          let num1 := (num * scale + Z.of_N (int_of_digits dec))%Z in
          let '(num2, den2) :=
            match group m "exp" with
            | None => (num1, scale)
            | Some e =>
                if String.eqb (group_str m "expsign") "-"
                then (num1, (scale * pow10 (int_of_digits e))%Z)
                else ((num1 * pow10 (int_of_digits e))%Z, scale)
            end in
          Returns (mkFraction (sign * num2) den2)
      end
  end.

(** [Fraction(v)] for the value of a group: [None] is neither a string
    nor a number. *)
Definition Fraction (v : option string) : outcome Q :=
  match v with
  | Some s => Fraction_of_string s
  | None => Raises TypeError
  end.

(** ** The hand record and its value types *)

(** Modelled from the spec: [Card] of [poker/card.py] is missing.  A card is
    a two-character token, a rank of 23456789TJQKA then a suit of cdhs; any
    other token is refused. *)
Record Card : Type := { rank : ascii; suit : ascii }.

Definition Card_of_string (s : string) : outcome Card :=
  match s with
  | String r (String u EmptyString) =>
      if mem_ascii r "23456789TJQKA" && mem_ascii u "cdhs"
      then Returns {| rank := r; suit := u |}
      else Raises ValueError
  | _ => Raises ValueError
  end.

(** Modelled from the spec: [HoleCards] and [Board] of
    [poker/handhistory.py] are missing.  Hole cards are exactly two cards in
    the order parsed; a board is a sequence of cards that [append] extends
    at the end. *)
Record HoleCards : Type := { first_card : Card; second_card : Card }.
Definition Board : Type := list Card.
Definition Board_append (b : Board) (c : Card) : Board := b ++ [c].

(** Modelled from the spec: the enumerations of [poker/constants.py] are
    missing.  [Action] is the closed set blind, ante, check, fold, call,
    bet, raise; it is built from the five verbs that the action pattern
    lets through.  [Currency], [Game] and [Limit] are closed sets of which
    the header patterns name USD, EUR and No Limit. *)
Inductive Action : Type := BLIND | ANTE | CHECK | FOLD | CALL | BET | RAISE.

Definition Action_of_string (s : string) : outcome Action :=
  if String.eqb s "checks" then Returns CHECK
  else if String.eqb s "folds" then Returns FOLD
  else if String.eqb s "calls" then Returns CALL
  else if String.eqb s "bets" then Returns BET
  else if String.eqb s "raises" then Returns RAISE
  else Raises ValueError.

Definition Action_eqb (a b : Action) : bool :=
  match a, b with
  | BLIND, BLIND | ANTE, ANTE | CHECK, CHECK | FOLD, FOLD
  | CALL, CALL | BET, BET | RAISE, RAISE => true
  | _, _ => false
  end.

Inductive Currency : Type := USD | EUR.
Definition Currency_of_string (s : string) : outcome Currency :=
  if String.eqb s "USD" then Returns USD
  else if String.eqb s "EUR" then Returns EUR
  else Raises ValueError.

Inductive Game : Type := HOLDEM | OMAHA.
Definition Game_of_string (s : string) : outcome Game :=
  if String.eqb s "Hold'em" then Returns HOLDEM
  else if String.eqb s "Omaha" then Returns OMAHA
  else Raises ValueError.

Inductive Limit : Type := NO_LIMIT.
Definition Limit_of_string (s : string) : outcome Limit :=
  if String.eqb s "No Limit" then Returns NO_LIMIT else Raises ValueError.

(** Modelled from the spec: [PlayerAction] of [poker/handhistory.py] is
    missing.  It holds a seat index, an action kind and an optional amount,
    absent when the constructor gets two arguments. *)
Record PlayerAction : Type :=
  { seat_index : nat; action_kind : Action; amount : option Q }.

Definition PlayerAction2 (i : nat) (a : Action) : PlayerAction :=
  {| seat_index := i; action_kind := a; amount := None |}.
Definition PlayerAction3 (i : nat) (a : Action) (v : Q) : PlayerAction :=
  {| seat_index := i; action_kind := a; amount := Some v |}.

Record Seat : Type :=
  { name : option string; stack : option Q; holecards : option HoleCards }.

Definition empty_seat : Seat := {| name := None; stack := None; holecards := None |}.

(** The dictionary that [_parse_header] fills; the six tournament keys are
    present for a tournament header only. *)
Record Properties : Type :=
  { ident : string; game_type : string; sb : Q; bb : Q; currency : Currency;
    table_name : string; max_players : nat; button : nat;
    buyin : option Q; rake : option Q;
    tournament_ident : option string; tournament_level : option string;
    game : option Game; limit : option Limit }.

(** Modelled from the spec: [HandHistory] of [poker/handhistory.py] is
    missing.  A fresh record has [max_players] empty seats, an empty board,
    no blinds, no showdown, and no action list for a street until the
    parser assigns one. *)
Record HandHistory : Type :=
  { properties : Properties;
    seats : list Seat;
    blinds : list PlayerAction;
    preflopactions : option (list PlayerAction);
    flopactions : option (list PlayerAction);
    turnactions : option (list PlayerAction);
    riveractions : option (list PlayerAction);
    board : Board;
    showdown : bool }.

Definition HandHistory_new (props : Properties) : HandHistory :=
  {| properties := props;
     seats := repeat empty_seat (max_players props);
     blinds := [];
     preflopactions := None; flopactions := None;
     turnactions := None; riveractions := None;
     board := [];
     showdown := false |}.

Definition set_seats (hh : HandHistory) (v : list Seat) : HandHistory :=
  {| properties := properties hh; seats := v; blinds := blinds hh;
     preflopactions := preflopactions hh; flopactions := flopactions hh;
     turnactions := turnactions hh; riveractions := riveractions hh;
     board := board hh; showdown := showdown hh |}.
Definition set_blinds (hh : HandHistory) (v : list PlayerAction) : HandHistory :=
  {| properties := properties hh; seats := seats hh; blinds := v;
     preflopactions := preflopactions hh; flopactions := flopactions hh;
     turnactions := turnactions hh; riveractions := riveractions hh;
     board := board hh; showdown := showdown hh |}.
Definition set_preflopactions (hh : HandHistory) (v : list PlayerAction) : HandHistory :=
  {| properties := properties hh; seats := seats hh; blinds := blinds hh;
     preflopactions := Some v; flopactions := flopactions hh;
     turnactions := turnactions hh; riveractions := riveractions hh;
     board := board hh; showdown := showdown hh |}.
Definition set_flopactions (hh : HandHistory) (v : list PlayerAction) : HandHistory :=
  {| properties := properties hh; seats := seats hh; blinds := blinds hh;
     preflopactions := preflopactions hh; flopactions := Some v;
     turnactions := turnactions hh; riveractions := riveractions hh;
     board := board hh; showdown := showdown hh |}.
Definition set_turnactions (hh : HandHistory) (v : list PlayerAction) : HandHistory :=
  {| properties := properties hh; seats := seats hh; blinds := blinds hh;
     preflopactions := preflopactions hh; flopactions := flopactions hh;
     turnactions := Some v; riveractions := riveractions hh;
     board := board hh; showdown := showdown hh |}.
Definition set_riveractions (hh : HandHistory) (v : list PlayerAction) : HandHistory :=
  {| properties := properties hh; seats := seats hh; blinds := blinds hh;
     preflopactions := preflopactions hh; flopactions := flopactions hh;
     turnactions := turnactions hh; riveractions := Some v;
     board := board hh; showdown := showdown hh |}.
Definition set_board (hh : HandHistory) (v : Board) : HandHistory :=
  {| properties := properties hh; seats := seats hh; blinds := blinds hh;
     preflopactions := preflopactions hh; flopactions := flopactions hh;
     turnactions := turnactions hh; riveractions := riveractions hh;
     board := v; showdown := showdown hh |}.
Definition set_showdown (hh : HandHistory) (v : bool) : HandHistory :=
  {| properties := properties hh; seats := seats hh; blinds := blinds hh;
     preflopactions := preflopactions hh; flopactions := flopactions hh;
     turnactions := turnactions hh; riveractions := riveractions hh;
     board := board hh; showdown := v |}.

(** [l[i]] of a Python list: a negative index counts from the end. *)
Definition py_index (i : Z) (len : nat) : outcome nat :=
  if (0 <=? i)%Z && (i <? Z.of_nat len)%Z then Returns (Z.to_nat i)
  else if (i <? 0)%Z && (- Z.of_nat len <=? i)%Z then Returns (Z.to_nat (Z.of_nat len + i))
  else Raises IndexError.

Fixpoint update_nth {A : Type} (i : nat) (f : A -> A) (l : list A) : list A :=
  match l, i with
  | [], _ => []
  | x :: l', O => f x :: l'
  | x :: l', S i' => x :: update_nth i' f l'
  end.

(** What is handed to the seat lookup: a player name, or by the slip of
    [_parse_hero] a [HoleCards] object. *)
Inductive seat_key : Type :=
| KName (s : string)
| KHoleCards (h : HoleCards).

Definition seat_named (k : seat_key) (s : Seat) : bool :=
  match k, name s with
  | KName n, Some n' => String.eqb n n'
  | _, _ => false
  end.

Fixpoint find_seat (k : seat_key) (i : nat) (l : list Seat) : option (nat * Seat) :=
  match l with
  | [] => None
  | s :: l' => if seat_named k s then Some (i, s) else find_seat k (S i) l'
  end.

(** Modelled from the spec: [HandHistory.seat] is missing.  The lookup by
    display name is an exact string match that gives the pair of the index
    and the seat, as its callers unpack it; a name found on no seat is an
    error. *)
Definition HandHistory_seat (hh : HandHistory) (k : seat_key) : outcome (nat * Seat) :=
  match find_seat k 0 (seats hh) with
  | Some r => Returns r
  | None => Raises SeatNotFound
  end.

(** ** The stream and the parser object *)

(** The lines of a text as [readline] gives them one after the other, each
    with its newline. *)
Fixpoint readlines (s : string) : list string :=
  match s with
  | EmptyString => []
  | String c s' =>
      if Ascii.eqb c nl then NL :: readlines s'
      else match readlines s' with
           | [] => [String c EmptyString]
           | l :: ls => String c l :: ls
           end
  end.

(** A seekable text stream: its content and the lines not read yet. *)
Record Stream : Type := { content : string; unread : list string }.

Definition StringIO (text : string) : Stream :=
  {| content := text; unread := readlines text |}.

Definition seek0 (st : Stream) : Stream :=
  {| content := content st; unread := readlines (content st) |}.

Record Parser : Type := { stream : Stream; curline : string }.

Definition mkParser (text : string) (rest : list string) (cur : string) : Parser :=
  {| stream := {| content := text; unread := rest |}; curline := cur |}.

(** [__readline]: the next line, or the empty string at the end. *)
Definition __readline (p : Parser) : Parser :=
  match unread (stream p) with
  | [] => mkParser (content (stream p)) [] EmptyString
  | l :: rest => mkParser (content (stream p)) rest l
  end.

Definition is_header (l : string) : bool := startswith "PokerStars" l.

Fixpoint seek_lines (text : string) (cur : string) (rest : list string) : Parser :=
  if is_header cur then mkParser text rest cur
  else match rest with
       | [] => mkParser text [] EmptyString
       | l :: rest' =>
           if String.eqb l EmptyString then mkParser text rest' l
           else seek_lines text l rest'
       end.

(** [__seek_next_header] *)
Definition __seek_next_header (p : Parser) : Parser :=
  seek_lines (content (stream p)) (curline p) (unread (stream p)).

(** What [open(filename, "r")] finds. *)
Definition filesystem : Type := string -> option string.

Inductive event : Type := Opened (filename : string).

(** The object as [__init__] leaves it: [self.stream], which is [None]
    when neither a stream nor a file name was given, and [self.curline]. *)
Record Instance : Type := { self_stream : option Stream; self_curline : string }.

(** [__init__]: the outcome and the files opened on the way. *)
Definition __init__ (fs : filesystem) (stream_ : option Stream)
           (filename : option string) (mode : string)
  : outcome Instance * list event :=
  if negb (String.eqb mode "full") then (Raises (Exception_ "Not implemented."), [])
  else
    match filename with
    | Some f =>
        match stream_ with
        | Some _ => (Raises AssertionError, [])
        | None =>
            match fs f with
            | Some text =>
                (Returns {| self_stream := Some (StringIO text);
                            self_curline := EmptyString |}, [Opened f])
            | None => (Raises IOError, [Opened f])
            end
        end
    | None => (Returns {| self_stream := stream_; self_curline := EmptyString |}, [])
    end.

(** The methods read [self.stream]; they are modelled on the instances
    that hold a stream. *)
Definition parser_of_instance (i : Instance) : option Parser :=
  match self_stream i with
  | Some st => Some {| stream := st; curline := self_curline i |}
  | None => None
  end.

(** ** Loops over lines

    Every loop of the section parsers has the shape
    [match = pat(curline); while match is not None: body; readline;
    match = pat(curline)].  At the end of the stream [readline] keeps giving
    the empty line: a pattern that accepted it would never let the loop
    go. *)

Section Loops.
Context {M A : Type}.
Variable pat : string -> option M.
Variable body : M -> A -> outcome A.

Fixpoint match_loop (text : string) (m : M) (a : A) (rest : list string)
  : outcome (A * Parser) :=
  match body m a with
  | Raises e => Raises e
  | Diverges => Diverges
  | Returns a' =>
      match rest with
      | l :: rest' =>
          match pat l with
          | Some m' => match_loop text m' a' rest'
          | None => Returns (a', mkParser text rest' l)
          end
      | [] =>
          match pat EmptyString with
          | Some _ => Diverges
          | None => Returns (a', mkParser text [] EmptyString)
          end
      end
  end.

Definition while_match (a : A) (p : Parser) : outcome (A * Parser) :=
  match pat (curline p) with
  | None => Returns (a, p)
  | Some m => match_loop (content (stream p)) m a (unread (stream p))
  end.
End Loops.

(** [while cond(curline): readline] *)
Definition skip_while (cond : string -> bool) (p : Parser) : outcome Parser :=
  '(_, p') <- while_match (fun l => if cond l then Some tt else None)
                          (fun _ (u : unit) => Returns u) tt p;;
  Returns p'.

(** ** Section parsers *)

Definition nat_of_group (m : caps) (g : string) : nat :=
  N.to_nat (int_of_digits (group_str m g)).

(** The rest of [_parse_header], once the header line has matched with
    groups [m]: the fields of both shapes, then the table line. *)
Definition header_properties (p : Parser) (m : caps)
           (tour : option (Q * Q * string * string * Game * Limit))
  : outcome (Properties * Parser) :=
  sb_ <- Fraction (group m "sb");;
  bb_ <- Fraction (group m "bb");;
  currency_ <- Currency_of_string (group_str m "currency");;
  (* the second line holds the table information *)
  let p1 := __readline p in
  match match_ _table_re (curline p1) with
  | None => Raises (ParseException (curline p1))
  | Some t =>
      Returns
        ({| ident := group_str m "ident";
            game_type := group_str m "game_type";
            sb := sb_; bb := bb_; currency := currency_;
            table_name := group_str t "name";
            max_players := nat_of_group t "seats";
            button := nat_of_group t "button";
            buyin := option_map (fun x => fst (fst (fst (fst (fst x))))) tour;
            rake := option_map (fun x => snd (fst (fst (fst (fst x))))) tour;
            tournament_ident := option_map (fun x => snd (fst (fst (fst x)))) tour;
            tournament_level := option_map (fun x => snd (fst (fst x))) tour;
            game := option_map (fun x => snd (fst x)) tour;
            limit := option_map (fun x => snd x) tour |},
         __readline p1)
  end.

Definition _parse_header (p : Parser) : outcome (Properties * Parser) :=
  let cur := curline p in
  '(mo, tour) <-
    (if contains "Tournament" cur then
       match match_ _tournament_header_re cur with
       | None => Raises AttributeError      (* [match.group] on [None] *)
       | Some m =>
           buyin <- Fraction (group m "buyin");;
           rake <- Fraction (group m "rake");;
           game <- Game_of_string (group_str m "game");;
           limit <- Limit_of_string (group_str m "limit");;
           Returns (Some m,
                    Some (buyin, rake, group_str m "tournament_ident",
                          group_str m "tournament_level", game, limit))
       end
     else Returns (match_ _cash_header_re cur, None));;
  match mo with
  | None => Raises (ParseException cur)
  | Some m => header_properties p m tour
  end.

(** One seat line: [hh.seats[index].stack] and [.name], [index] being the
    seat number less one. *)
Definition seat_body (m : caps) (hh : HandHistory) : outcome HandHistory :=
  let index := (Z.of_N (int_of_digits (group_str m "seat")) - 1)%Z in
  v <- Fraction (group m "stack");;
  i <- py_index index (length (seats hh));;
  Returns (set_seats hh
             (update_nth i
                (fun s => {| name := Some (group_str m "name"); stack := Some v;
                             holecards := holecards s |})
                (seats hh))).

Definition _parse_players (hh : HandHistory) (p : Parser)
  : outcome (HandHistory * Parser) :=
  match match_ _seat_re (curline p) with
  | None => Raises (ParseException (curline p))
  | Some _ =>
      '(hh', p1) <- while_match (match_ _seat_re) seat_body hh p;;
      p2 <- skip_while (contains "will be allowed to play") p1;;
      Returns (hh', p2)
  end.

Definition blind_body (m : caps) (hh : HandHistory) : outcome HandHistory :=
  value <- Fraction (group m "3");;
  '(i, _) <- HandHistory_seat hh (KName (group_str m "1"));;
  Returns (set_blinds hh (blinds hh ++ [PlayerAction3 i BLIND value])).

Definition _parse_blinds (hh : HandHistory) (p : Parser)
  : outcome (HandHistory * Parser) :=
  match match_ blind_re (curline p) with
  | None => Raises (ParseException (curline p))
  | Some _ =>
      '(hh', p1) <- while_match (match_ blind_re) blind_body (set_blinds hh []) p;;
      p2 <- skip_while (contains "sits out") p1;;
      Returns (hh', p2)
  end.

(** In [name = hh.seat(name).holecards = HoleCards(...)] the targets are
    assigned from the left: [name] is the new [HoleCards] when
    [hh.seat(name)] is called, and what the lookup gives is a pair, which
    takes no attribute. *)
Definition _parse_hero (hh : HandHistory) (p : Parser)
  : outcome (HandHistory * Parser) :=
  let p1 := if contains "*** HOLE CARDS ***" (curline p) then __readline p else p in
  match match_ _hero_re (curline p1) with
  | None => Returns (hh, p1)
  | Some m =>
      c1 <- Card_of_string (group_str m "card1");;
      c2 <- Card_of_string (group_str m "card2");;
      let name_ := {| first_card := c1; second_card := c2 |} in
      _ <- HandHistory_seat hh (KHoleCards name_);;
      Raises AttributeError
  end.

Definition action_body (hh : HandHistory) (m : caps) (actions : list PlayerAction)
  : outcome (list PlayerAction) :=
  '(i, _) <- HandHistory_seat hh (KName (group_str m "name"));;
  a <- Action_of_string (group_str m "action");;
  pa <- (if Action_eqb a RAISE || Action_eqb a BET
         then v <- Fraction (group m "value");; Returns (PlayerAction3 i a v)
         else Returns (PlayerAction2 i a));;
  Returns (actions ++ [pa]).

Definition _parse_street (hh : HandHistory) (p : Parser)
  : outcome (list PlayerAction * Parser) :=
  while_match (match_ action_re) (action_body hh) [] p.

Definition _parse_preflop (hh : HandHistory) (p : Parser)
  : outcome (HandHistory * Parser) :=
  '(acts, p') <- _parse_street hh p;;
  Returns (set_preflopactions hh acts, p').

Definition _parse_flop (hh : HandHistory) (p : Parser)
  : outcome (HandHistory * Parser) :=
  match match_ flop_board_re (curline p) with
  | None => Returns (hh, p)
  | Some m =>
      c1 <- Card_of_string (group_str m "1");;
      c2 <- Card_of_string (group_str m "2");;
      c3 <- Card_of_string (group_str m "3");;
      let hh1 := set_board hh [c1; c2; c3] in
      '(acts, p') <- _parse_street hh1 (__readline p);;
      Returns (set_flopactions hh1 acts, p')
  end.

Definition _parse_turn (hh : HandHistory) (p : Parser)
  : outcome (HandHistory * Parser) :=
  match match_ turn_board_re (curline p) with
  | None => Returns (hh, p)
  | Some m =>
      c <- Card_of_string (group_str m "1");;
      let hh1 := set_board hh (Board_append (board hh) c) in
      '(acts, p') <- _parse_street hh1 (__readline p);;
      Returns (set_turnactions hh1 acts, p')
  end.

Definition _parse_river (hh : HandHistory) (p : Parser)
  : outcome (HandHistory * Parser) :=
  match match_ river_board_re (curline p) with
  | None => Returns (hh, p)
  | Some m =>
      c <- Card_of_string (group_str m "1");;
      let hh1 := set_board hh (Board_append (board hh) c) in
      '(acts, p') <- _parse_street hh1 (__readline p);;
      Returns (set_riveractions hh1 acts, p')
  end.

Definition shows_body (m : caps) (hh : HandHistory) : outcome HandHistory :=
  '(i, _) <- HandHistory_seat hh (KName (group_str m "1"));;
  c1 <- Card_of_string (group_str m "2");;
  c2 <- Card_of_string (group_str m "3");;
  Returns (set_seats hh
             (update_nth i
                (fun s => {| name := name s; stack := stack s;
                             holecards := Some {| first_card := c1; second_card := c2 |} |})
                (seats hh))).

Definition showdown_rest (l : string) : bool :=
  contains "collected" l || contains "mucks" l
  || contains "doesn't show" l || contains ": shows" l.

Definition _parse_showdown (hh : HandHistory) (p : Parser)
  : outcome (HandHistory * Parser) :=
  if contains "*** SHOW DOWN ***" (curline p) then
    '(hh', p1) <- while_match (match_ showdown_re) shows_body
                              (set_showdown hh true) (__readline p);;
    p2 <- skip_while showdown_rest p1;;
    Returns (hh', p2)
  else Returns (hh, p).

(** ** The hand assembler *)

(** The eight sections that follow the header, in their fixed order. *)
Definition parse_sections (hh : HandHistory) (p : Parser)
  : outcome (HandHistory * Parser) :=
  '(hh, p) <- _parse_players hh p;;
  '(hh, p) <- _parse_blinds hh p;;
  '(hh, p) <- _parse_hero hh p;;
  '(hh, p) <- _parse_preflop hh p;;
  '(hh, p) <- _parse_flop hh p;;
  '(hh, p) <- _parse_turn hh p;;
  '(hh, p) <- _parse_river hh p;;
  _parse_showdown hh p.

Definition parse (p : Parser) : outcome (HandHistory * Parser) :=
  let p0 := __seek_next_header p in
  '(props, p1) <- _parse_header p0;;
  parse_sections (HandHistory_new props) p1.

(** How a pass over the generator [histories] ends: the stream is used up,
    an exception leaves the generator, or it never gets there. *)
Inductive ending : Type :=
| Exhausted (p : Parser)
| Failed (e : exn)
| Hung.

Fixpoint histories_loop (fuel : nat) (p : Parser) : list HandHistory * ending :=
  match fuel with
  | O => ([], Hung)
  | S fuel' =>
      if String.eqb (curline p) EmptyString then ([], Exhausted p)
      else
        match parse p with
        | Returns (hh, p') =>
            let '(hs, e) := histories_loop fuel' (__seek_next_header p') in
            (hh :: hs, e)
        | Raises e => ([], Failed e)
        | Diverges => ([], Hung)
        end
  end.

(** [histories], iterated to its end: the records yielded, in order, and
    the way the pass ended.  Every successful [parse] reads a line, so one
    round per unread line and one more for the final test are enough. *)
Definition histories (p : Parser) : list HandHistory * ending :=
  let p1 := __seek_next_header {| stream := seek0 (stream p); curline := curline p |} in
  histories_loop (S (length (unread (stream p1)))) p1.

(** The parser that [__init__] builds over a text stream. *)
Definition parser_of (text : string) : Parser :=
  {| stream := StringIO text; curline := EmptyString |}.

Definition unlines (ls : list string) : string :=
  fold_right (fun l acc => String.append l (String.append NL acc)) EmptyString ls.

(** ** Notions used to state the properties *)

(** [reads p p']: [p'] is [p] after some calls of [__readline]. *)
Inductive reads : Parser -> Parser -> Prop :=
| reads_refl : forall p, reads p p
| reads_step : forall p p', reads (__readline p) p' -> reads p p'.

(** The lines that the parser has still to look at: the current line,
    unless it is the empty line of the start and of the end of the
    stream, and the lines not read. *)
Definition pending (p : Parser) : list string :=
  if String.eqb (curline p) EmptyString then unread (stream p)
  else curline p :: unread (stream p).

Definition count_headers (ls : list string) : nat :=
  length (filter is_header ls).

(** A header line begins a well-formed hand when [parse], started on it,
    returns a record and has by then passed no other header line.
    [hands_ok text ls] checks it for every header line of [ls]. *)
Definition hand_ok (text : string) (l : string) (tl : list string) : bool :=
  match parse (mkParser text tl l) with
  | Returns (_, q) => Nat.eqb (count_headers (pending q)) (count_headers tl)
  | _ => false
  end.

Fixpoint hands_ok (text : string) (ls : list string) : bool :=
  match ls with
  | [] => true
  | l :: tl => (if is_header l then hand_ok text l tl else true) && hands_ok text tl
  end.

Definition well_formed (text : string) : bool := hands_ok text (readlines text).

(** The actions of a record, section after section. *)
Definition street_actions (o : option (list PlayerAction)) : list PlayerAction :=
  match o with Some l => l | None => [] end.

Definition all_actions (hh : HandHistory) : list PlayerAction :=
  blinds hh ++ street_actions (preflopactions hh) ++ street_actions (flopactions hh)
  ++ street_actions (turnactions hh) ++ street_actions (riveractions hh).

Definition takes_amount (a : Action) : bool :=
  match a with
  | BLIND | ANTE | BET | RAISE => true
  | CHECK | FOLD | CALL => false
  end.

Definition has_amount (pa : PlayerAction) : bool :=
  match amount pa with Some _ => true | None => false end.

Definition ran (o : option (list PlayerAction)) (n : nat) : nat :=
  match o with Some _ => n | None => 0 end.

Definition lines_ok (ls : list string) : Prop :=
  Forall (fun l => l <> EmptyString) ls.

(** The part of a record that the blinds and street sections write. *)
Definition summary (hh : HandHistory)
  : list PlayerAction * option (list PlayerAction) * option (list PlayerAction)
    * option (list PlayerAction) * option (list PlayerAction) * Board :=
  (blinds hh, preflopactions hh, flopactions hh, turnactions hh, riveractions hh,
   board hh).

(** An action carries an amount exactly when its kind takes one. *)
Definition amount_ok (pa : PlayerAction) : Prop :=
  has_amount pa = takes_amount (action_kind pa).

Definition is_blind (pa : PlayerAction) : Prop :=
  action_kind pa = BLIND /\ amount pa <> None.

(** ** Sample streams *)

Definition cash_header : string :=
  "PokerStars Hand #123:  Hold'em No Limit ($1/$2 USD) - 2011/01/01 10:00:00 ET".
Definition table_line : string := "Table 'Foo' 6-max Seat #1 is the button".

Definition hand_a : list string :=
  [ cash_header; table_line;
    "Seat 1: Alice ($100 in chips)";
    "Seat 2: Bob ($50.50 in chips)";
    "Alice: posts small blind $1";
    "Bob: posts big blind $2";
    "*** HOLE CARDS ***";
    "Alice: raises $4.00 to $6.00";
    "Bob: calls $4";
    "*** FLOP *** [Ah 7d 5d]";
    "Bob: checks ";
    "Alice: bets $5.50";
    "Bob: folds ";
    "Alice collected $12 from pot";
    "*** SUMMARY ***";
    "Total pot $12 | Rake $0" ].

Definition hand_b : list string :=
  [ "PokerStars Hand #124:  Hold'em No Limit ($1/$2 USD) - 2011/01/01 10:02:00 ET";
    table_line;
    "Seat 1: Alice ($108 in chips)";
    "Seat 2: Bob ($42.50 in chips)";
    "Bob: posts small blind $1";
    "Alice: posts big blind $2";
    "*** HOLE CARDS ***";
    "Bob: folds " ].

Definition two_hands : string :=
  unlines (["exported by the client"] ++ hand_a ++ [EmptyString; EmptyString] ++ hand_b).

(** The blinds of [hand_a], then a line of the given text where the first
    action before the flop would be. *)
Definition hand_upto_blinds : list string :=
  [ cash_header; table_line;
    "Seat 1: Alice ($100 in chips)";
    "Seat 2: Bob ($50.50 in chips)";
    "Alice: posts small blind $1";
    "Bob: posts big blind $2" ].

Definition turn_without_flop : string :=
  unlines (hand_upto_blinds ++ ["*** HOLE CARDS ***"; "*** TURN *** [Ah 7d 5d] [Qh]"]).

Definition hero_hand : string :=
  unlines (hand_upto_blinds
           ++ ["*** HOLE CARDS ***"; "Dealt to Alice [Ah Kd]"; "Alice: folds "]).

Definition hand_without_hero_line : string :=
  unlines (hand_upto_blinds ++ ["*** HOLE CARDS ***"; "Alice: folds "]).

Definition raise_line : string := "Alice: raises $20 to $30".

Definition raise_hand : string :=
  unlines (hand_upto_blinds ++ ["*** HOLE CARDS ***"; raise_line]).

Definition raise_hand_with_cents : string :=
  unlines (hand_upto_blinds ++ ["*** HOLE CARDS ***"; "Alice: raises $20.00 to $30.00"]).

Definition ante_line : string := "Alice: posts the ante 5".

Definition ante_hand : string :=
  unlines ([ cash_header; table_line;
             "Seat 1: Alice ($100 in chips)";
             "Seat 2: Bob ($50.50 in chips)";
             ante_line;
             "Bob: posts the ante 5";
             "Alice: posts small blind $1";
             "Bob: posts big blind $2";
             "*** HOLE CARDS ***" ]).

Definition ante_after_blinds_hand : string :=
  unlines (hand_upto_blinds ++ [ante_line; "*** HOLE CARDS ***"; "Alice: folds "]).

(** The record that [parse] returns on a text, if it returns one. *)
Definition record_of (text : string) : option HandHistory :=
  match parse (parser_of text) with
  | Returns (hh, _) => Some hh
  | _ => None
  end.

(** The one header shape that [_parse_header] tries on a line: the
    tournament shape when the line contains the word, the cash-game shape
    otherwise. *)
Definition chosen_shape (l : string) : option caps :=
  if contains "Tournament" l then match_ _tournament_header_re l
  else match_ _cash_header_re l.

Definition parse_failure (e : exn) : bool :=
  match e with ParseException _ => true | _ => false end.

Definition cash_line_with_keyword : string :=
  "PokerStars Hand #1:  Hold'em No Limit ($1/$2 USD) - Tournament of the day".

Definition broken_tournament_line : string := "PokerStars Hand #1: Tournament broken".

Definition header_only : string := unlines [cash_header].
Definition header_and_table : string := unlines [cash_header; table_line].
Definition header_table_seats : string :=
  unlines [cash_header; table_line; "Seat 1: Alice ($100 in chips)";
           "Seat 2: Bob ($50.50 in chips)"].

(** A hand cut in the middle of its flop line. *)
Definition cut_in_flop : string :=
  String.append
    (unlines (hand_upto_blinds ++ ["*** HOLE CARDS ***"; "Alice: raises $4.00 to $6.00";
                                   "Bob: calls $4"]))
    "*** FLOP *** [Ah 7d".

(** Two header lines, the second of which the first hand reads as a
    notice that a player sits out. *)
Definition swallowed_header : string :=
  unlines [ cash_header; table_line;
            "Seat 1: Alice ($100 in chips)";
            "Alice: posts small blind $1";
            "PokerStars Hand #124:  Hold'em No Limit ($1/$2 USD) - Bob sits out";
            table_line;
            "Seat 1: Alice ($100 in chips)";
            "Alice: posts small blind $1" ].

(** A stream whose only header line comes last and reads as a notice that
    a player sits out. *)
Definition notice_header : string :=
  "PokerStars Hand #125:  Hold'em No Limit ($1/$2 USD) - Bob sits out".

Definition header_last : string :=
  unlines [ table_line; "Seat 1: Alice ($100 in chips)";
            "Alice: posts small blind $1"; notice_header ].

(** The action that one matched action line stands for, as
    [_parse_street] builds it before appending it. *)
Definition line_action (hh : HandHistory) (m : caps) : outcome PlayerAction :=
  '(i, _) <- HandHistory_seat hh (KName (group_str m "name"));;
  a <- Action_of_string (group_str m "action");;
  if Action_eqb a RAISE || Action_eqb a BET
  then v <- Fraction (group m "value");; Returns (PlayerAction3 i a v)
  else Returns (PlayerAction2 i a).

(** The blind that one matched blind line stands for, as [_parse_blinds]
    builds it before appending it. *)
Definition line_blind (hh : HandHistory) (m : caps) : outcome PlayerAction :=
  value <- Fraction (group m "3");;
  '(i, _) <- HandHistory_seat hh (KName (group_str m "1"));;
  Returns (PlayerAction3 i BLIND value).

(** The seat that a seat line writes over the seat [s]. *)
Definition seat_written (m : caps) (v : Q) (s : Seat) : Seat :=
  {| name := Some (group_str m "name"); stack := Some v; holecards := holecards s |}.

(** What no section after the header changes: the header properties and
    the number of seats. *)
Definition same_table (hh hh' : HandHistory) : Prop :=
  properties hh' = properties hh /\ length (seats hh') = length (seats hh).

Definition sample_properties : Properties :=
  {| ident := "123"; game_type := "Hold'em No Limit";
     sb := Qmake 1 1; bb := Qmake 2 1; currency := USD; table_name := "Foo";
     max_players := 2; button := 1; buyin := None; rake := None;
     tournament_ident := None; tournament_level := None;
     game := None; limit := None |}.

(** A record with Alice on the first seat and Bob on the second. *)
Definition seated_pair : HandHistory :=
  set_seats (HandHistory_new sample_properties)
            [ {| name := Some "Alice"; stack := Some (Qmake 100 1); holecards := None |};
              {| name := Some "Bob"; stack := Some (Qmake 50 1); holecards := None |} ].

(** A seat that a seat line has written: it has a name and a stack. *)
Definition seated (s : Seat) : Prop := name s <> None /\ stack s <> None.

(** The cards that a flop marker line puts on the board: those of its
    three groups, in the order of the line. *)
Definition flop_cards (l : string) : option (list Card) :=
  match match_ flop_board_re l with
  | None => None
  | Some m =>
      match Card_of_string (group_str m "1"), Card_of_string (group_str m "2"),
            Card_of_string (group_str m "3") with
      | Returns c1, Returns c2, Returns c3 => Some [c1; c2; c3]
      | _, _, _ => None
      end
  end.

(** The card that a turn or river marker line appends: that of the second
    pair of brackets. *)
Definition marker_card (re : regex) (l : string) : option (list Card) :=
  match match_ re l with
  | None => None
  | Some m =>
      match Card_of_string (group_str m "1") with
      | Returns c => Some [c]
      | _ => None
      end
  end.

(** The four checks of [parse] that raise [ParseException], each with the
    line it raises it on: the cash-game shape on the header line, the
    table shape on the next line, the seat shape on the line after the
    header section, the blind shape on the line after the seat section. *)
Definition raised_by_check (p : Parser) (l : string) : Prop :=
  let q := __seek_next_header p in
  (l = curline q /\ contains "Tournament" l = false /\ match_ _cash_header_re l = None)
  \/ (l = curline (__readline q) /\ match_ _table_re l = None)
  \/ (exists props p1,
        _parse_header q = Returns (props, p1)
        /\ l = curline p1 /\ match_ _seat_re l = None)
  \/ (exists props p1 h1 p2,
        _parse_header q = Returns (props, p1)
        /\ _parse_players (HandHistory_new props) p1 = Returns (h1, p2)
        /\ l = curline p2 /\ match_ blind_re l = None).

(** The six sections that [parse] runs after the blinds. *)
Definition later_sections (hh : HandHistory) (p : Parser)
  : outcome (HandHistory * Parser) :=
  '(hh, p) <- _parse_hero hh p;;
  '(hh, p) <- _parse_preflop hh p;;
  '(hh, p) <- _parse_flop hh p;;
  '(hh, p) <- _parse_turn hh p;;
  '(hh, p) <- _parse_river hh p;;
  _parse_showdown hh p.

Definition hero_hand_then_hand_b : string :=
  unlines (hand_upto_blinds
           ++ ["*** HOLE CARDS ***"; "Dealt to Alice [Ah Kd]"; "Alice: folds "]
           ++ hand_b).

(** A hand played to the river. *)
Definition river_hand : string :=
  unlines (hand_upto_blinds
           ++ [ "*** HOLE CARDS ***";
                "Alice: calls $1";
                "Bob: checks ";
                "*** FLOP *** [Ah 7d 5d]";
                "Bob: checks ";
                "Alice: checks ";
                "*** TURN *** [Ah 7d 5d] [Qh]";
                "Bob: checks ";
                "Alice: checks ";
                "*** RIVER *** [Ah 7d 5d Qh] [2c]";
                "Bob: bets $2.00";
                "Alice: folds " ]).

(** * Properties *)

(** ** The cursor *)

Lemma parser_eta (p : Parser) :
  mkParser (content (stream p)) (unread (stream p)) (curline p) = p.
Proof. destruct p as [[c u] l]; reflexivity. Qed.

Lemma readline_mk (text : string) (rest : list string) (c : string) :
  __readline (mkParser text rest c) =
  match rest with
  | [] => mkParser text [] EmptyString
  | l :: rest' => mkParser text rest' l
  end.
Proof. destruct rest; reflexivity. Qed.

Lemma readline_content (p : Parser) :
  content (stream (__readline p)) = content (stream p).
Proof. unfold __readline; destruct (unread (stream p)); reflexivity. Qed.

Lemma readline_unread_le (p : Parser) :
  length (unread (stream (__readline p))) <= length (unread (stream p)).
Proof. unfold __readline; destruct (unread (stream p)); simpl; lia. Qed.

Lemma reads_trans (a b c : Parser) : reads a b -> reads b c -> reads a c.
Proof.
  induction 1 as [p | p p' _ IH]; intros Hbc.
  - exact Hbc.
  - apply reads_step, IH, Hbc.
Qed.

Lemma reads_one (p : Parser) : reads p (__readline p).
Proof. apply reads_step, reads_refl. Qed.

Lemma reads_content (p p' : Parser) :
  reads p p' -> content (stream p') = content (stream p).
Proof.
  induction 1 as [p | p p' _ IH]; [reflexivity|].
  rewrite IH; apply readline_content.
Qed.

Lemma reads_unread_le (p p' : Parser) :
  reads p p' -> length (unread (stream p')) <= length (unread (stream p)).
Proof.
  induction 1 as [p | p p' _ IH]; [lia|].
  pose proof (readline_unread_le p); lia.
Qed.

(** Whatever line is current after some reads was current before, is one
    of the lines that were unread, or is the empty line of the end. *)
Lemma reads_curline (L : list string) (p p' : Parser) :
  reads p p' ->
  (curline p = EmptyString \/ In (curline p) L) ->
  incl (unread (stream p)) L ->
  (curline p' = EmptyString \/ In (curline p') L) /\ incl (unread (stream p')) L.
Proof.
  induction 1 as [p | p p' _ IH]; intros Hc Hu; [split; assumption|].
  apply IH; unfold __readline; destruct (unread (stream p)) as [|l rest] eqn:E; simpl.
  - left; reflexivity.
  - right; apply Hu; left; reflexivity.
  - intros x [].
  - intros x Hx; apply Hu; right; exact Hx.
Qed.

Lemma reads_after_readline (p p' : Parser) :
  reads (__readline p) p' ->
  curline p' = EmptyString \/ In (curline p') (unread (stream p)).
Proof.
  intros H.
  apply (reads_curline (unread (stream p))) in H; [tauto| |].
  - unfold __readline; destruct (unread (stream p)); simpl; auto.
  - unfold __readline; destruct (unread (stream p)); simpl;
      [intros x []| intros x Hx; right; exact Hx].
Qed.

(** ** Lines of a text *)


Lemma readlines_nonempty (s : string) : lines_ok (readlines s).
Proof.
  unfold lines_ok; induction s as [|c s IH]; simpl; [constructor|].
  destruct (Ascii.eqb c nl).
  - constructor; [discriminate | exact IH].
  - destruct (readlines s) as [|l ls]; constructor.
    + discriminate.
    + constructor.
    + discriminate.
    + inversion IH; assumption.
Qed.

Lemma is_header_nonempty (l : string) : is_header l = true -> l <> EmptyString.
Proof. intros H E; subst l; discriminate H. Qed.

Lemma pending_readline (p : Parser) :
  lines_ok (unread (stream p)) ->
  pending (__readline p) = unread (stream p)
  /\ lines_ok (unread (stream (__readline p))).
Proof.
  intros Hok; unfold __readline, pending.
  destruct (unread (stream p)) as [|l rest] eqn:E; simpl; [split; [reflexivity|constructor]|].
  inversion Hok as [|? ? Hl Hrest]; subst.
  destruct (String.eqb_spec l EmptyString) as [->|_]; [contradiction|].
  split; [reflexivity | exact Hrest].
Qed.

Lemma pending_suffix_self (p : Parser) :
  exists pre, pre ++ unread (stream p) = pending p /\ length pre <= 1.
Proof.
  unfold pending; destruct (String.eqb (curline p) EmptyString).
  - exists []; split; [reflexivity | simpl; lia].
  - exists [curline p]; split; [reflexivity | simpl; lia].
Qed.

(** Reading only drops lines from the front of what is pending. *)
Lemma reads_pending (p p' : Parser) :
  reads p p' ->
  lines_ok (unread (stream p)) ->
  lines_ok (unread (stream p')) /\ exists pre, pending p = pre ++ pending p'.
Proof.
  induction 1 as [p | p p' _ IH]; intros Hok.
  - split; [exact Hok | exists []; reflexivity].
  - destruct (pending_readline p Hok) as [Hp Hok'].
    destruct (IH Hok') as [Hok'' [pre Hpre]].
    split; [exact Hok''|].
    destruct (pending_suffix_self p) as [pre0 [H0 _]].
    exists (pre0 ++ pre). rewrite <- H0, <- Hp, Hpre, app_assoc; reflexivity.
Qed.

Lemma count_headers_app (a b : list string) :
  count_headers (a ++ b) = count_headers a + count_headers b.
Proof. unfold count_headers; rewrite filter_app, length_app; reflexivity. Qed.

Lemma count_headers_cons (l : string) (ls : list string) :
  count_headers (l :: ls) = (if is_header l then 1 else 0) + count_headers ls.
Proof. unfold count_headers; simpl; destruct (is_header l); reflexivity. Qed.

(** ** [__seek_next_header] *)

Lemma seek_at_header (p : Parser) :
  is_header (curline p) = true -> __seek_next_header p = p.
Proof.
  intros H; unfold __seek_next_header.
  destruct (unread (stream p)) eqn:E; simpl; rewrite H; rewrite <- E; apply parser_eta.
Qed.

Lemma seek_lines_reads (text : string) (rest : list string) :
  forall cur, reads (mkParser text rest cur) (seek_lines text cur rest).
Proof.
  induction rest as [|l rest IH]; intros cur; simpl.
  - destruct (is_header cur); [apply reads_refl | apply reads_one].
  - destruct (is_header cur); [apply reads_refl|].
    destruct (String.eqb l EmptyString).
    + apply reads_one.
    + apply reads_step; rewrite readline_mk; apply IH.
Qed.

Lemma seek_reads (p : Parser) : reads p (__seek_next_header p).
Proof.
  unfold __seek_next_header.
  rewrite <- (parser_eta p) at 1. apply seek_lines_reads.
Qed.

(** The seek stops on a header line or at the end of the stream, and the
    lines it passes are no header lines. *)
Lemma seek_lines_spec (text : string) (rest : list string) :
  lines_ok rest ->
  forall cur,
    let q := seek_lines text cur rest in
    (is_header (curline q) = true
     \/ (curline q = EmptyString /\ unread (stream q) = []))
    /\ count_headers (pending q) = count_headers (pending (mkParser text rest cur)).
Proof.
  induction rest as [|l rest IH]; intros Hok cur; simpl.
  - destruct (is_header cur) eqn:Hh.
    + split; [left; exact Hh | reflexivity].
    + split; [right; split; reflexivity|].
      unfold pending; simpl.
      destruct (String.eqb cur EmptyString); [reflexivity|].
      rewrite count_headers_cons, Hh; reflexivity.
  - inversion Hok as [|? ? Hl Hrest]; subst.
    destruct (is_header cur) eqn:Hh.
    + split; [left; exact Hh | reflexivity].
    + destruct (String.eqb_spec l EmptyString) as [->|Hne]; [contradiction|].
      destruct (IH Hrest l) as [Hstop Hcount].
      split; [exact Hstop|].
      rewrite Hcount. unfold pending; simpl.
      destruct (String.eqb_spec l EmptyString) as [->|_]; [contradiction|].
      destruct (String.eqb cur EmptyString); [reflexivity|].
      rewrite (count_headers_cons cur), Hh; reflexivity.
Qed.

Lemma seek_spec (p : Parser) :
  lines_ok (unread (stream p)) ->
  let q := __seek_next_header p in
  (is_header (curline q) = true
   \/ (curline q = EmptyString /\ unread (stream q) = []))
  /\ count_headers (pending q) = count_headers (pending p).
Proof.
  intros Hok; unfold __seek_next_header.
  pose proof (seek_lines_spec (content (stream p)) (unread (stream p)) Hok (curline p)) as H.
  rewrite parser_eta in H. exact H.
Qed.

(** ** Loops *)

Section LoopFacts.
Context {M A : Type}.
Variable pat : string -> option M.
Variable body : M -> A -> outcome A.

Lemma match_loop_reads (text : string) (rest : list string) :
  forall m a a' p' c,
    match_loop pat body text m a rest = Returns (a', p') ->
    reads (__readline (mkParser text rest c)) p'.
Proof.
  induction rest as [|l rest IH]; intros m a a' p' c H; simpl in H;
    destruct (body m a) as [a1| |]; try discriminate.
  - destruct (pat EmptyString); [discriminate|].
    injection H as _ <-. rewrite readline_mk. apply reads_refl.
  - rewrite readline_mk. destruct (pat l) as [m'|].
    + apply reads_step. apply (IH _ _ _ _ l H).
    + injection H as _ <-. apply reads_refl.
Qed.

Lemma while_match_reads (a a' : A) (p p' : Parser) :
  while_match pat body a p = Returns (a', p') -> reads p p'.
Proof.
  unfold while_match; destruct (pat (curline p)) as [m|]; intros H.
  - apply reads_step. rewrite <- (parser_eta p).
    apply (match_loop_reads _ _ _ _ _ _ _ H).
  - injection H as _ <-. apply reads_refl.
Qed.

(** When the loop lets go, the pattern has just failed on the current
    line. *)
Lemma match_loop_stops (text : string) (rest : list string) :
  forall m a a' p',
    match_loop pat body text m a rest = Returns (a', p') ->
    pat (curline p') = None.
Proof.
  induction rest as [|l rest IH]; intros m a a' p' H; simpl in H;
    destruct (body m a) as [a1| |]; try discriminate.
  - destruct (pat EmptyString) eqn:E; [discriminate|].
    injection H as _ <-. exact E.
  - destruct (pat l) as [m'|] eqn:E.
    + apply (IH _ _ _ _ H).
    + injection H as _ <-. exact E.
Qed.

Lemma while_match_stops (a a' : A) (p p' : Parser) :
  while_match pat body a p = Returns (a', p') -> pat (curline p') = None.
Proof.
  unfold while_match; destruct (pat (curline p)) as [m|] eqn:E; intros H.
  - apply (match_loop_stops _ _ _ _ _ _ H).
  - injection H as _ <-. exact E.
Qed.

(** What every round keeps, the loop keeps. *)
Lemma match_loop_inv (I : A -> Prop) :
  (forall m a a', I a -> body m a = Returns a' -> I a') ->
  forall text rest m a a' p',
    I a -> match_loop pat body text m a rest = Returns (a', p') -> I a'.
Proof.
  intros Hbody text rest.
  induction rest as [|l rest IH]; intros m a a' p' Ha H; simpl in H;
    destruct (body m a) as [a1| |] eqn:Eb; try discriminate;
    pose proof (Hbody _ _ _ Ha Eb) as Ha1.
  - destruct (pat EmptyString); [discriminate|].
    injection H as <- _. exact Ha1.
  - destruct (pat l) as [m'|].
    + apply (IH _ _ _ _ Ha1 H).
    + injection H as <- _. exact Ha1.
Qed.

Lemma while_match_inv (I : A -> Prop) :
  (forall m a a', I a -> body m a = Returns a' -> I a') ->
  forall a a' p p',
    I a -> while_match pat body a p = Returns (a', p') -> I a'.
Proof.
  intros Hbody a a' p p' Ha; unfold while_match.
  destruct (pat (curline p)) as [m|]; intros H.
  - apply (match_loop_inv I Hbody _ _ _ _ _ _ Ha H).
  - injection H as <- _. exact Ha.
Qed.

(** A loop whose pattern refuses the empty line comes back. *)
Hypothesis pat_empty : pat EmptyString = None.
Hypothesis body_total : forall m a, body m a <> Diverges.

Lemma match_loop_total (text : string) (rest : list string) :
  forall m a, match_loop pat body text m a rest <> Diverges.
Proof.
  induction rest as [|l rest IH]; intros m a; simpl;
    destruct (body m a) as [a1| |] eqn:Eb; try discriminate;
    try (exfalso; apply (body_total _ _ Eb)).
  - rewrite pat_empty; discriminate.
  - destruct (pat l); [apply IH | discriminate].
Qed.

Lemma while_match_total (a : A) (p : Parser) :
  while_match pat body a p <> Diverges.
Proof.
  unfold while_match; destruct (pat (curline p));
    [apply match_loop_total | discriminate].
Qed.
End LoopFacts.

Lemma bind_returns {A B : Type} (c : outcome A) (k : A -> outcome B) (b : B) :
  bind c k = Returns b -> exists a, c = Returns a /\ k a = Returns b.
Proof. destruct c as [a| |]; simpl; intros H; try discriminate; eauto. Qed.

Lemma bind_total {A B : Type} (c : outcome A) (k : A -> outcome B) :
  c <> Diverges -> (forall a, k a <> Diverges) -> bind c k <> Diverges.
Proof.
  destruct c as [a| |]; simpl; intros Hc Hk;
    [apply Hk | discriminate | exfalso; apply Hc; reflexivity].
Qed.

Lemma skip_while_reads (cond : string -> bool) (p p' : Parser) :
  skip_while cond p = Returns p' -> reads p p'.
Proof.
  unfold skip_while; intros H.
  apply bind_returns in H as [[u q] [H1 H2]]. injection H2 as <-.
  apply (while_match_reads _ _ _ _ _ _ H1).
Qed.

Lemma skip_while_total (cond : string -> bool) (p : Parser) :
  cond EmptyString = false -> skip_while cond p <> Diverges.
Proof.
  intros Hc; unfold skip_while. apply bind_total.
  - apply while_match_total; [rewrite Hc; reflexivity | discriminate].
  - intros [u q]; discriminate.
Qed.

(** ** Conversions never hang *)

Lemma Fraction_total (v : option string) : Fraction v <> Diverges.
Proof.
  destruct v as [s|]; simpl; [|discriminate].
  unfold Fraction_of_string.
  destruct (match_ _RATIONAL_FORMAT s) as [m|]; [|discriminate].
  destruct (group m "denom").
  - destruct (Z.eqb _ 0); discriminate.
  - destruct (group m "exp"); [destruct (String.eqb _ _)|]; discriminate.
Qed.

Lemma Card_total (s : string) : Card_of_string s <> Diverges.
Proof.
  unfold Card_of_string.
  destruct s as [|r [|u [|? ?]]]; try discriminate.
  destruct (_ && _); discriminate.
Qed.

Lemma seat_lookup_total (hh : HandHistory) (k : seat_key) :
  HandHistory_seat hh k <> Diverges.
Proof. unfold HandHistory_seat; destruct (find_seat k 0 (seats hh)); discriminate. Qed.

Lemma Action_total (s : string) : Action_of_string s <> Diverges.
Proof.
  unfold Action_of_string.
  repeat (match goal with |- context [if ?b then _ else _] => destruct b end);
    discriminate.
Qed.

Lemma py_index_total (i : Z) (n : nat) : py_index i n <> Diverges.
Proof.
  unfold py_index.
  repeat (match goal with |- context [if ?b then _ else _] => destruct b end);
    discriminate.
Qed.

(** ** The section parsers only read forward, and come back *)

Ltac bind_inv H :=
  let x := fresh "x" in
  let Hx := fresh "Hx" in
  apply bind_returns in H as [x [Hx H]]; cbv beta iota in H.

Lemma header_returns (p : Parser) (props : Properties) (p' : Parser) :
  _parse_header p = Returns (props, p') ->
  p' = __readline (__readline p)
  /\ match_ _table_re (curline (__readline p)) <> None
  /\ (if contains "Tournament" (curline p)
      then match_ _tournament_header_re (curline p)
      else match_ _cash_header_re (curline p)) <> None.
Proof.
  unfold _parse_header; intros H.
  apply bind_returns in H as [[mo tour] [H1 H2]]; cbv beta iota in H2.
  destruct mo as [m|]; [|discriminate]. unfold header_properties in H2.
  bind_inv H2. bind_inv H2. bind_inv H2.
  destruct (match_ _table_re (curline (__readline p))) eqn:Et; [|discriminate].
  injection H2 as _ <-.
  split; [reflexivity|]. split; [discriminate|].
  destruct (contains "Tournament" (curline p)).
  - destruct (match_ _tournament_header_re (curline p)); [discriminate | discriminate H1].
  - injection H1 as -> _. discriminate.
Qed.

Lemma table_re_empty : match_ _table_re EmptyString = None.
Proof. reflexivity. Qed.
Lemma seat_re_empty : match_ _seat_re EmptyString = None.
Proof. reflexivity. Qed.
Lemma blind_re_empty : match_ blind_re EmptyString = None.
Proof. reflexivity. Qed.
Lemma action_re_empty : match_ action_re EmptyString = None.
Proof. reflexivity. Qed.
Lemma showdown_re_empty : match_ showdown_re EmptyString = None.
Proof. reflexivity. Qed.

Lemma header_reads_line (p : Parser) (props : Properties) (p' : Parser) :
  _parse_header p = Returns (props, p') ->
  unread (stream p) <> [] /\ reads (__readline p) p'.
Proof.
  intros H; apply header_returns in H as [-> [Ht _]]. split.
  - intros E; apply Ht. unfold __readline; rewrite E; simpl. apply table_re_empty.
  - apply reads_one.
Qed.

Lemma header_total (p : Parser) : _parse_header p <> Diverges.
Proof.
  unfold _parse_header. apply bind_total.
  - destruct (contains "Tournament" (curline p)); [|discriminate].
    destruct (match_ _tournament_header_re (curline p)); [|discriminate].
    repeat (apply bind_total; [first [apply Fraction_total | idtac] | intros ?]);
      try discriminate.
    + unfold Game_of_string;
        repeat (match goal with |- context [if ?b then _ else _] => destruct b end);
        discriminate.
    + unfold Limit_of_string; destruct (String.eqb _ _); discriminate.
  - intros [[m|] tour]; [|discriminate]. unfold header_properties.
    repeat (apply bind_total; [first [apply Fraction_total | idtac] | intros ?]).
    + unfold Currency_of_string;
        repeat (match goal with |- context [if ?b then _ else _] => destruct b end);
        discriminate.
    + destruct (match_ _table_re _); discriminate.
Qed.

Lemma seat_body_total (m : caps) (hh : HandHistory) : seat_body m hh <> Diverges.
Proof.
  unfold seat_body.
  apply bind_total; [apply Fraction_total | intros v].
  apply bind_total; [apply py_index_total | intros i]. discriminate.
Qed.

Lemma blind_body_total (m : caps) (hh : HandHistory) : blind_body m hh <> Diverges.
Proof.
  unfold blind_body.
  apply bind_total; [apply Fraction_total | intros v].
  apply bind_total; [apply seat_lookup_total | intros [i s]]. discriminate.
Qed.

Lemma action_body_total (hh : HandHistory) (m : caps) (acts : list PlayerAction) :
  action_body hh m acts <> Diverges.
Proof.
  unfold action_body.
  apply bind_total; [apply seat_lookup_total | intros [i s]].
  apply bind_total; [apply Action_total | intros a].
  apply bind_total; [|intros pa; discriminate].
  destruct (_ || _); [|discriminate].
  apply bind_total; [apply Fraction_total | intros v; discriminate].
Qed.

Lemma shows_body_total (m : caps) (hh : HandHistory) : shows_body m hh <> Diverges.
Proof.
  unfold shows_body.
  apply bind_total; [apply seat_lookup_total | intros [i s]].
  apply bind_total; [apply Card_total | intros c1].
  apply bind_total; [apply Card_total | intros c2]. discriminate.
Qed.

Lemma players_reads (hh hh' : HandHistory) (p p' : Parser) :
  _parse_players hh p = Returns (hh', p') -> reads p p'.
Proof.
  unfold _parse_players; destruct (match_ _seat_re (curline p)); [|discriminate].
  intros H. apply bind_returns in H as [[h q] [H1 H]]; cbv beta iota in H.
  bind_inv H. injection H as _ <-.
  eapply reads_trans; [eapply while_match_reads, H1 | eapply skip_while_reads, Hx].
Qed.

Lemma players_total (hh : HandHistory) (p : Parser) : _parse_players hh p <> Diverges.
Proof.
  unfold _parse_players; destruct (match_ _seat_re (curline p)); [|discriminate].
  apply bind_total.
  - apply while_match_total; [apply seat_re_empty | apply seat_body_total].
  - intros [h q]. apply bind_total; [apply skip_while_total; reflexivity|].
    intros; discriminate.
Qed.

Lemma blinds_reads (hh hh' : HandHistory) (p p' : Parser) :
  _parse_blinds hh p = Returns (hh', p') -> reads p p'.
Proof.
  unfold _parse_blinds; destruct (match_ blind_re (curline p)); [|discriminate].
  intros H. apply bind_returns in H as [[h q] [H1 H]]; cbv beta iota in H.
  bind_inv H. injection H as _ <-.
  eapply reads_trans; [eapply while_match_reads, H1 | eapply skip_while_reads, Hx].
Qed.

Lemma blinds_total (hh : HandHistory) (p : Parser) : _parse_blinds hh p <> Diverges.
Proof.
  unfold _parse_blinds; destruct (match_ blind_re (curline p)); [|discriminate].
  apply bind_total.
  - apply while_match_total; [apply blind_re_empty | apply blind_body_total].
  - intros [h q]. apply bind_total; [apply skip_while_total; reflexivity|].
    intros; discriminate.
Qed.

(** [_parse_hero] returns only when no hero line is there, and then leaves
    the record as it was. *)
Lemma hero_returns (hh hh' : HandHistory) (p p' : Parser) :
  _parse_hero hh p = Returns (hh', p') ->
  hh' = hh /\ reads p p' /\ match_ _hero_re (curline p') = None.
Proof.
  unfold _parse_hero.
  set (p1 := if contains "*** HOLE CARDS ***" (curline p) then __readline p else p).
  assert (Hr : reads p p1).
  { unfold p1; destruct (contains _ _); [apply reads_one | apply reads_refl]. }
  destruct (match_ _hero_re (curline p1)) eqn:E; intros H.
  - bind_inv H. bind_inv H. bind_inv H. discriminate.
  - injection H as <- <-. auto.
Qed.

Lemma hero_total (hh : HandHistory) (p : Parser) : _parse_hero hh p <> Diverges.
Proof.
  unfold _parse_hero.
  destruct (match_ _hero_re _); [|discriminate].
  apply bind_total; [apply Card_total | intros c1].
  apply bind_total; [apply Card_total | intros c2].
  apply bind_total; [apply seat_lookup_total | intros; discriminate].
Qed.

Lemma street_reads (hh : HandHistory) (acts : list PlayerAction) (p p' : Parser) :
  _parse_street hh p = Returns (acts, p') -> reads p p'.
Proof. apply while_match_reads. Qed.

Lemma street_total (hh : HandHistory) (p : Parser) : _parse_street hh p <> Diverges.
Proof. apply while_match_total; [apply action_re_empty | apply action_body_total]. Qed.

Lemma preflop_reads (hh hh' : HandHistory) (p p' : Parser) :
  _parse_preflop hh p = Returns (hh', p') -> reads p p'.
Proof.
  unfold _parse_preflop; intros H.
  apply bind_returns in H as [[a q] [H1 H]]; injection H as _ <-.
  eapply street_reads, H1.
Qed.

Lemma preflop_total (hh : HandHistory) (p : Parser) : _parse_preflop hh p <> Diverges.
Proof.
  unfold _parse_preflop. apply bind_total; [apply street_total | intros [acts q]; discriminate].
Qed.

Lemma flop_reads (hh hh' : HandHistory) (p p' : Parser) :
  _parse_flop hh p = Returns (hh', p') -> reads p p'.
Proof.
  unfold _parse_flop; destruct (match_ flop_board_re (curline p)); intros H.
  - bind_inv H. bind_inv H. bind_inv H.
    apply bind_returns in H as [[a q] [H1 H]]; injection H as _ <-.
    apply reads_step. eapply street_reads, H1.
  - injection H as _ <-. apply reads_refl.
Qed.

Lemma flop_total (hh : HandHistory) (p : Parser) : _parse_flop hh p <> Diverges.
Proof.
  unfold _parse_flop; destruct (match_ flop_board_re (curline p)); [|discriminate].
  repeat (apply bind_total; [apply Card_total | intros ?]).
  apply bind_total; [apply street_total | intros [acts q]; discriminate].
Qed.

Lemma turn_reads (hh hh' : HandHistory) (p p' : Parser) :
  _parse_turn hh p = Returns (hh', p') -> reads p p'.
Proof.
  unfold _parse_turn; destruct (match_ turn_board_re (curline p)); intros H.
  - bind_inv H.
    apply bind_returns in H as [[a q] [H1 H]]; injection H as _ <-.
    apply reads_step. eapply street_reads, H1.
  - injection H as _ <-. apply reads_refl.
Qed.

Lemma turn_total (hh : HandHistory) (p : Parser) : _parse_turn hh p <> Diverges.
Proof.
  unfold _parse_turn; destruct (match_ turn_board_re (curline p)); [|discriminate].
  apply bind_total; [apply Card_total | intros ?].
  apply bind_total; [apply street_total | intros [acts q]; discriminate].
Qed.

Lemma river_reads (hh hh' : HandHistory) (p p' : Parser) :
  _parse_river hh p = Returns (hh', p') -> reads p p'.
Proof.
  unfold _parse_river; destruct (match_ river_board_re (curline p)); intros H.
  - bind_inv H.
    apply bind_returns in H as [[a q] [H1 H]]; injection H as _ <-.
    apply reads_step. eapply street_reads, H1.
  - injection H as _ <-. apply reads_refl.
Qed.

Lemma river_total (hh : HandHistory) (p : Parser) : _parse_river hh p <> Diverges.
Proof.
  unfold _parse_river; destruct (match_ river_board_re (curline p)); [|discriminate].
  apply bind_total; [apply Card_total | intros ?].
  apply bind_total; [apply street_total | intros [acts q]; discriminate].
Qed.

Lemma showdown_reads (hh hh' : HandHistory) (p p' : Parser) :
  _parse_showdown hh p = Returns (hh', p') -> reads p p'.
Proof.
  unfold _parse_showdown; destruct (contains "*** SHOW DOWN ***" (curline p)); intros H.
  - apply bind_returns in H as [[h q] [H1 H]]; cbv beta iota in H.
    bind_inv H. injection H as _ <-.
    apply reads_step.
    eapply reads_trans; [eapply while_match_reads, H1 | eapply skip_while_reads, Hx].
  - injection H as _ <-. apply reads_refl.
Qed.

Lemma showdown_total (hh : HandHistory) (p : Parser) : _parse_showdown hh p <> Diverges.
Proof.
  unfold _parse_showdown; destruct (contains "*** SHOW DOWN ***" (curline p)); [|discriminate].
  apply bind_total.
  - apply while_match_total; [apply showdown_re_empty | apply shows_body_total].
  - intros [h q]. apply bind_total; [apply skip_while_total; reflexivity|].
    intros; discriminate.
Qed.

Lemma parse_sections_total (hh : HandHistory) (p : Parser) :
  parse_sections hh p <> Diverges.
Proof.
  unfold parse_sections.
  apply bind_total; [apply players_total | intros [h1 p1]].
  apply bind_total; [apply blinds_total | intros [h2 p2]].
  apply bind_total; [apply hero_total | intros [h3 p3]].
  apply bind_total; [apply preflop_total | intros [h4 p4]].
  apply bind_total; [apply flop_total | intros [h5 p5]].
  apply bind_total; [apply turn_total | intros [h6 p6]].
  apply bind_total; [apply river_total | intros [h7 p7]].
  apply showdown_total.
Qed.

(** [parse] is total: it returns a record or raises. *)
Lemma parse_total (p : Parser) : parse p <> Diverges.
Proof.
  unfold parse. apply bind_total; [apply header_total | intros [props p1]].
  apply parse_sections_total.
Qed.

Lemma parse_sections_reads (hh hh' : HandHistory) (p p' : Parser) :
  parse_sections hh p = Returns (hh', p') -> reads p p'.
Proof.
  unfold parse_sections; intros H.
  apply bind_returns in H as [[h1 p1] [H1 H]]; cbv beta iota in H.
  apply bind_returns in H as [[h2 p2] [H2 H]]; cbv beta iota in H.
  apply bind_returns in H as [[h3 p3] [H3 H]]; cbv beta iota in H.
  apply bind_returns in H as [[h4 p4] [H4 H]]; cbv beta iota in H.
  apply bind_returns in H as [[h5 p5] [H5 H]]; cbv beta iota in H.
  apply bind_returns in H as [[h6 p6] [H6 H]]; cbv beta iota in H.
  apply bind_returns in H as [[h7 p7] [H7 H]]; cbv beta iota in H.
  apply players_reads in H1. apply blinds_reads in H2.
  apply hero_returns in H3 as [_ [H3 _]]. apply preflop_reads in H4.
  apply flop_reads in H5. apply turn_reads in H6. apply river_reads in H7.
  apply showdown_reads in H.
  repeat (eapply reads_trans; [eassumption|]). apply reads_refl.
Qed.

(** A [parse] that returns has read at least one line past the header. *)
Lemma parse_reads (p : Parser) (hh : HandHistory) (p' : Parser) :
  parse p = Returns (hh, p') ->
  unread (stream (__seek_next_header p)) <> []
  /\ reads (__readline (__seek_next_header p)) p'.
Proof.
  unfold parse; intros H.
  apply bind_returns in H as [[props p1] [H1 H]]; cbv beta iota in H.
  apply header_reads_line in H1 as [Hne Hr]. split; [exact Hne|].
  eapply reads_trans; [exact Hr | eapply parse_sections_reads, H].
Qed.

(** ** One record per header *)

Lemma hands_ok_suffix (text : string) (pre ls : list string) :
  hands_ok text (pre ++ ls) = true -> hands_ok text ls = true.
Proof.
  induction pre as [|l pre IH]; simpl; intros H; [exact H|].
  apply andb_true_iff in H as [_ H]. apply IH, H.
Qed.

Lemma hands_ok_no_header (text : string) (ls : list string) :
  count_headers ls = 0 -> hands_ok text ls = true.
Proof.
  induction ls as [|l ls IH]; simpl; intros H; [reflexivity|].
  rewrite count_headers_cons in H.
  destruct (is_header l); [discriminate|]. apply IH, H.
Qed.

Lemma histories_loop_count (text : string) :
  forall fuel p,
    content (stream p) = text ->
    lines_ok (unread (stream p)) ->
    (is_header (curline p) = true
     \/ (curline p = EmptyString /\ unread (stream p) = [])) ->
    hands_ok text (pending p) = true ->
    length (unread (stream p)) < fuel ->
    exists hs q,
      histories_loop fuel p = (hs, Exhausted q)
      /\ length hs = count_headers (pending p).
Proof.
  induction fuel as [|fuel IH]; intros p Hc Hok Hstop Hwf Hfuel; [lia|].
  simpl. destruct Hstop as [Hh | [Hcur Hu]].
  - pose proof (is_header_nonempty _ Hh) as Hne.
    destruct (String.eqb_spec (curline p) EmptyString) as [E|_]; [contradiction|].
    assert (Hpend : pending p = curline p :: unread (stream p)).
    { unfold pending. destruct (String.eqb_spec (curline p) EmptyString); [contradiction|reflexivity]. }
    rewrite Hpend in Hwf |- *. simpl in Hwf. rewrite Hh in Hwf.
    apply andb_true_iff in Hwf as [Hhand Hrest].
    unfold hand_ok in Hhand. rewrite <- Hc, parser_eta in Hhand.
    destruct (parse p) as [[hh q]| |] eqn:Ep; try discriminate.
    apply Nat.eqb_eq in Hhand.
    apply parse_reads in Ep as [Hnonempty Hr]. rewrite (seek_at_header _ Hh) in Hnonempty, Hr.
    destruct (pending_readline p Hok) as [Hp1 Hok1].
    destruct (reads_pending _ _ Hr Hok1) as [Hokq [pre Hpre]].
    pose proof (seek_reads q) as Hrs.
    destruct (reads_pending _ _ Hrs Hokq) as [Hok2 [pre2 Hpre2]].
    destruct (seek_spec q Hokq) as [Hstop2 Hcount2].
    destruct (IH (__seek_next_header q)) as [hs [q' [Hloop Hlen]]].
    + rewrite (reads_content _ _ Hrs), (reads_content _ _ Hr), readline_content. exact Hc.
    + exact Hok2.
    + exact Hstop2.
    + apply (hands_ok_suffix text (pre ++ pre2)).
      rewrite <- app_assoc, <- Hpre2, <- Hpre, Hp1. exact Hrest.
    + pose proof (reads_unread_le _ _ Hrs). pose proof (reads_unread_le _ _ Hr).
      assert (length (unread (stream (__readline p))) < length (unread (stream p))).
      { unfold __readline. destruct (unread (stream p)); [contradiction|simpl; lia]. }
      lia.
    + rewrite Hloop. exists (hh :: hs), q'. split; [reflexivity|].
      simpl. rewrite Hlen, Hcount2, Hhand, count_headers_cons, Hh. reflexivity.
  - rewrite Hcur. simpl. exists [], p. split; [reflexivity|].
    unfold pending. rewrite Hcur, Hu. reflexivity.
Qed.

Lemma histories_count (text : string) :
  well_formed text = true ->
  exists hs q,
    histories (parser_of text) = (hs, Exhausted q)
    /\ length hs = count_headers (readlines text).
Proof.
  intros Hwf. unfold histories.
  set (p0 := {| stream := seek0 (stream (parser_of text)); curline := curline (parser_of text) |}).
  assert (Hok0 : lines_ok (unread (stream p0))) by apply readlines_nonempty.
  assert (Hp0 : pending p0 = readlines text) by reflexivity.
  pose proof (seek_reads p0) as Hr.
  destruct (reads_pending _ _ Hr Hok0) as [Hok1 [pre Hpre]].
  destruct (seek_spec p0 Hok0) as [Hstop Hcount].
  destruct (histories_loop_count text (S (length (unread (stream (__seek_next_header p0)))))
              (__seek_next_header p0)) as [hs [q [Hloop Hlen]]].
  - rewrite (reads_content _ _ Hr). reflexivity.
  - exact Hok1.
  - exact Hstop.
  - apply (hands_ok_suffix text pre). rewrite <- Hpre, Hp0. exact Hwf.
  - lia.
  - exists hs, q. split; [exact Hloop|]. rewrite Hlen, Hcount, Hp0. reflexivity.
Qed.

(** A stream without any header line is well formed: there is no hand to
    check. *)
Lemma no_header_well_formed (text : string) :
  count_headers (readlines text) = 0 -> well_formed text = true.
Proof. apply hands_ok_no_header. Qed.

(** A stream without any header line, the empty stream included, gives
    the empty sequence and no error. *)
Lemma histories_no_header (text : string) :
  count_headers (readlines text) = 0 ->
  exists q, histories (parser_of text) = ([], Exhausted q).
Proof.
  intros H0. destruct (histories_count text (no_header_well_formed text H0))
    as [hs [q [Hh Hlen]]].
  rewrite H0 in Hlen. destruct hs; [|discriminate]. exists q; exact Hh.
Qed.

Example histories_empty_stream :
  exists q, histories (parser_of EmptyString) = ([], Exhausted q).
Proof. apply histories_no_header. reflexivity. Qed.

(** Why a well-formed hand must pass no other header line: here each of
    the two header lines begins a hand that [parse] accepts, and the pass
    yields one record, the second header being read as a notice of the
    first hand. *)
Example header_read_inside_a_hand :
  count_headers (readlines swallowed_header) = 2
  /\ forallb (fun k => match parse (mkParser swallowed_header
                                      (skipn (S k) (readlines swallowed_header))
                                      (nth k (readlines swallowed_header) EmptyString)) with
                       | Returns _ => true
                       | _ => false
                       end) [0; 4] = true
  /\ length (fst (histories (parser_of swallowed_header))) = 1
  /\ well_formed swallowed_header = false.
Proof. vm_compute. repeat split. Qed.

(** Over a stream in which [parse] accepts the hand of every header line
    and passes no other header on the way, a full pass of [histories]
    yields exactly as many records as the stream has header lines and
    then ends with the stream used up; with no header line at all the
    sequence is empty. *)
Theorem histories_one_record_per_header (text : string) :
  well_formed text = true ->
  exists hs q,
    histories (parser_of text) = (hs, Exhausted q)
    /\ length hs = count_headers (readlines text)
    /\ (count_headers (readlines text) = 0 -> hs = []).
Proof.
  intros Hwf. destruct (histories_count text Hwf) as [hs [q [Hh Hlen]]].
  exists hs, q. split; [exact Hh|]. split; [exact Hlen|].
  intros H0. rewrite H0 in Hlen. destruct hs; [reflexivity | discriminate].
Qed.

Lemma histories_one_record_per_header_witness :
  well_formed two_hands = true
  /\ count_headers (readlines two_hands) = 2
  /\ exists hs q,
       histories (parser_of two_hands) = (hs, Exhausted q)
       /\ length hs = count_headers (readlines two_hands)
       /\ (count_headers (readlines two_hands) = 0 -> hs = []).
Proof.
  split; [vm_compute; reflexivity|]. split; [vm_compute; reflexivity|].
  apply (histories_one_record_per_header two_hands). vm_compute; reflexivity.
Defined.

(** ** A pass always ends, and a second pass repeats the first *)

Lemma seek_content (p : Parser) :
  content (stream (__seek_next_header p)) = content (stream p).
Proof. apply reads_content, seek_reads. Qed.

Lemma parse_content (p : Parser) (hh : HandHistory) (p' : Parser) :
  parse p = Returns (hh, p') -> content (stream p') = content (stream p).
Proof.
  intros H. apply parse_reads in H as [_ Hr].
  rewrite (reads_content _ _ Hr), readline_content. apply seek_content.
Qed.

Lemma parse_progress (p : Parser) (hh : HandHistory) (p' : Parser) :
  parse p = Returns (hh, p') ->
  length (unread (stream p')) < length (unread (stream p)).
Proof.
  intros H. apply parse_reads in H as [Hne Hr].
  pose proof (reads_unread_le _ _ Hr) as H1.
  pose proof (reads_unread_le _ _ (seek_reads p)) as H2.
  assert (length (unread (stream (__readline (__seek_next_header p))))
          < length (unread (stream (__seek_next_header p)))).
  { unfold __readline. destruct (unread (stream (__seek_next_header p)));
      [contradiction | simpl; lia]. }
  lia.
Qed.

(** The generator never hangs: with the fuel that [histories] gives it,
    the loop ends with the stream used up or with an exception. *)
Lemma histories_loop_total :
  forall fuel p,
    length (unread (stream p)) < fuel ->
    snd (histories_loop fuel p) <> Hung.
Proof.
  induction fuel as [|fuel IH]; intros p Hfuel; [lia|].
  simpl. destruct (String.eqb (curline p) EmptyString); [discriminate|].
  destruct (parse p) as [[hh q]| |] eqn:Ep; [| discriminate | exfalso; apply (parse_total _ Ep)].
  pose proof (parse_progress _ _ _ Ep) as Hlt.
  pose proof (reads_unread_le _ _ (seek_reads q)) as Hle.
  specialize (IH (__seek_next_header q) ltac:(lia)).
  destruct (histories_loop fuel (__seek_next_header q)) as [hs e]. exact IH.
Qed.

Lemma histories_total (p : Parser) : snd (histories p) <> Hung.
Proof. unfold histories. apply histories_loop_total. lia. Qed.

(** A pass that uses the stream up leaves the current line empty. *)
Lemma histories_loop_exhausted :
  forall fuel p hs q,
    histories_loop fuel p = (hs, Exhausted q) ->
    curline q = EmptyString /\ content (stream q) = content (stream p).
Proof.
  induction fuel as [|fuel IH]; intros p hs q H; simpl in H; [discriminate|].
  destruct (String.eqb_spec (curline p) EmptyString) as [E|_].
  - injection H as _ <-. split; [exact E | reflexivity].
  - destruct (parse p) as [[hh p']| |] eqn:Ep; try discriminate.
    destruct (histories_loop fuel (__seek_next_header p')) as [hs' e] eqn:El.
    injection H as _ ->.
    destruct (IH _ _ _ El) as [Hc Ht]. split; [exact Hc|].
    rewrite Ht, seek_content. apply (parse_content _ _ _ Ep).
Qed.

(** C9.  On a parser fresh from its constructor, a full pass of
    [histories] that uses the stream up is repeated record for record by
    the next full pass over the same stream: the pass rewinds the stream
    itself and has left the current line as the constructor set it. *)
Theorem histories_second_pass_identical (p : Parser) (hs : list HandHistory) (q : Parser) :
  curline p = EmptyString ->
  histories p = (hs, Exhausted q) ->
  histories q = (hs, Exhausted q).
Proof.
  intros Hcur H. unfold histories in H.
  destruct (histories_loop_exhausted _ _ _ _ H) as [Hq Hc].
  rewrite seek_content in Hc. simpl in Hc.
  unfold histories.
  replace {| stream := seek0 (stream q); curline := curline q |}
    with {| stream := seek0 (stream p); curline := curline p |}.
  - exact H.
  - rewrite Hq, Hcur. unfold seek0. rewrite Hc. reflexivity.
Qed.

(** Why the current line must be the empty one of the constructor: left on
    a header line by an earlier seek, it is taken for the header of the
    lines at the start of the stream, and the pass that follows differs. *)
Example stale_current_line_changes_the_pass :
  let stale := __seek_next_header (parser_of header_last) in
  curline stale = String.append notice_header NL
  /\ (exists hh q, histories stale = ([hh], Exhausted q)
                   /\ histories q = ([], Failed (ParseException EmptyString)))
  /\ histories (parser_of header_last) = ([], Failed (ParseException EmptyString)).
Proof.
  split; [vm_compute; reflexivity|]. split; [|vm_compute; reflexivity].
  eexists; eexists. split; [vm_compute; reflexivity|]. vm_compute; reflexivity.
Qed.

Lemma histories_second_pass_identical_witness :
  let hs := fst (histories (parser_of two_hands)) in
  let q := mkParser two_hands [] EmptyString in
  curline (parser_of two_hands) = EmptyString
  /\ histories (parser_of two_hands) = (hs, Exhausted q)
  /\ length hs = 2
  /\ histories q = (hs, Exhausted q).
Proof.
  split; [reflexivity|]. split; [vm_compute; reflexivity|].
  split; [vm_compute; reflexivity|].
  apply (histories_second_pass_identical (parser_of two_hands));
    [reflexivity | vm_compute; reflexivity].
Defined.

(** ** What each section changes in the record *)



Lemma summary_inj (a b : HandHistory) :
  summary a = summary b ->
  blinds a = blinds b /\ preflopactions a = preflopactions b
  /\ flopactions a = flopactions b /\ turnactions a = turnactions b
  /\ riveractions a = riveractions b /\ board a = board b.
Proof. unfold summary; intros H; injection H; auto 10. Qed.

Lemma seat_body_summary (m : caps) (hh hh' : HandHistory) :
  seat_body m hh = Returns hh' -> summary hh' = summary hh.
Proof.
  unfold seat_body; intros H. bind_inv H. bind_inv H.
  injection H as <-. reflexivity.
Qed.

Lemma shows_body_summary (m : caps) (hh hh' : HandHistory) :
  shows_body m hh = Returns hh' -> summary hh' = summary hh.
Proof.
  unfold shows_body; intros H.
  apply bind_returns in H as [[i s] [_ H]]; cbv beta iota in H.
  bind_inv H. bind_inv H. injection H as <-. reflexivity.
Qed.

Lemma players_summary (hh hh' : HandHistory) (p p' : Parser) :
  _parse_players hh p = Returns (hh', p') -> summary hh' = summary hh.
Proof.
  unfold _parse_players; destruct (match_ _seat_re (curline p)); [|discriminate].
  intros H. apply bind_returns in H as [[h q] [H1 H]]; cbv beta iota in H.
  bind_inv H. injection H as <- _.
  apply (while_match_inv _ _ (fun h => summary h = summary hh)) in H1; [exact H1| |reflexivity].
  intros m a a' Ha Hb. rewrite <- Ha. apply (seat_body_summary _ _ _ Hb).
Qed.

Lemma showdown_summary (hh hh' : HandHistory) (p p' : Parser) :
  _parse_showdown hh p = Returns (hh', p') -> summary hh' = summary hh.
Proof.
  unfold _parse_showdown; destruct (contains "*** SHOW DOWN ***" (curline p)); intros H.
  - apply bind_returns in H as [[h q] [H1 H]]; cbv beta iota in H.
    bind_inv H. injection H as <- _.
    apply (while_match_inv _ _ (fun h => summary h = summary hh)) in H1; [exact H1| |reflexivity].
    intros m a a' Ha Hb. rewrite <- Ha. apply (shows_body_summary _ _ _ Hb).
  - injection H as <- _. reflexivity.
Qed.


(** The blinds section writes the blinds, every one of them a [BLIND]
    with its amount, and nothing else of the summary. *)
Lemma blinds_summary (hh hh' : HandHistory) (p p' : Parser) :
  _parse_blinds hh p = Returns (hh', p') ->
  Forall is_blind (blinds hh')
  /\ preflopactions hh' = preflopactions hh /\ flopactions hh' = flopactions hh
  /\ turnactions hh' = turnactions hh /\ riveractions hh' = riveractions hh
  /\ board hh' = board hh.
Proof.
  unfold _parse_blinds; destruct (match_ blind_re (curline p)); [|discriminate].
  intros H. apply bind_returns in H as [[h q] [H1 H]]; cbv beta iota in H.
  bind_inv H. injection H as <- _.
  apply (while_match_inv _ _
           (fun h => Forall is_blind (blinds h)
                     /\ preflopactions h = preflopactions hh
                     /\ flopactions h = flopactions hh
                     /\ turnactions h = turnactions hh
                     /\ riveractions h = riveractions hh
                     /\ board h = board hh))
    in H1; [exact H1| |repeat split; constructor].
  intros m a a' [Ha1 Ha2] Hb. unfold blind_body in Hb.
  bind_inv Hb. apply bind_returns in Hb as [[i s] [_ Hb]]; cbv beta iota in Hb.
  injection Hb as <-. simpl. split; [|exact Ha2].
  apply Forall_app; split; [exact Ha1|].
  constructor; [split; [reflexivity | discriminate] | constructor].
Qed.

Lemma Action_of_string_range (s : string) (a : Action) :
  Action_of_string s = Returns a -> a <> BLIND /\ a <> ANTE.
Proof.
  unfold Action_of_string.
  repeat (match goal with |- context [if ?b then _ else _] => destruct b end);
    intros H; try discriminate; injection H as <-; split; discriminate.
Qed.

Lemma action_body_ok (hh : HandHistory) (m : caps) (acts acts' : list PlayerAction) :
  Forall amount_ok acts -> action_body hh m acts = Returns acts' ->
  Forall amount_ok acts'.
Proof.
  unfold action_body; intros Hok H.
  apply bind_returns in H as [[i s] [_ H]]; cbv beta iota in H.
  apply bind_returns in H as [a [Ha H]]; cbv beta iota in H.
  apply bind_returns in H as [pa [Hpa H]]. injection H as <-.
  apply Forall_app; split; [exact Hok|]. constructor; [|constructor].
  apply Action_of_string_range in Ha as [Hb Hn].
  destruct a; try contradiction; simpl in Hpa;
    try (injection Hpa as <-; reflexivity);
    bind_inv Hpa; injection Hpa as <-; reflexivity.
Qed.

Lemma street_ok (hh : HandHistory) (acts : list PlayerAction) (p p' : Parser) :
  _parse_street hh p = Returns (acts, p') -> Forall amount_ok acts.
Proof.
  intros H.
  apply (while_match_inv _ _ (Forall amount_ok)) in H; [exact H| |constructor].
  intros m a a' Ha Hb. apply (action_body_ok _ _ _ _ Ha Hb).
Qed.

Lemma preflop_returns (hh hh' : HandHistory) (p p' : Parser) :
  _parse_preflop hh p = Returns (hh', p') ->
  exists acts, hh' = set_preflopactions hh acts /\ Forall amount_ok acts.
Proof.
  unfold _parse_preflop; intros H.
  apply bind_returns in H as [[acts q] [H1 H]]; injection H as <- _.
  exists acts. split; [reflexivity | apply (street_ok _ _ _ _ H1)].
Qed.

(** The flop marker, when accepted, puts three cards on the board; the
    turn and the river markers each append one. *)
Lemma flop_returns (hh hh' : HandHistory) (p p' : Parser) :
  _parse_flop hh p = Returns (hh', p') ->
  hh' = hh
  \/ exists c1 c2 c3 acts,
       hh' = set_flopactions (set_board hh [c1; c2; c3]) acts /\ Forall amount_ok acts.
Proof.
  unfold _parse_flop; destruct (match_ flop_board_re (curline p)); intros H.
  - apply bind_returns in H as [c1 [_ H]]; cbv beta iota in H.
    apply bind_returns in H as [c2 [_ H]]; cbv beta iota in H.
    apply bind_returns in H as [c3 [_ H]]; cbv beta iota in H.
    apply bind_returns in H as [[acts q] [H1 H]]; injection H as <- _.
    right. exists c1, c2, c3, acts. split; [reflexivity | apply (street_ok _ _ _ _ H1)].
  - injection H as <- _. left; reflexivity.
Qed.

Lemma turn_returns (hh hh' : HandHistory) (p p' : Parser) :
  _parse_turn hh p = Returns (hh', p') ->
  hh' = hh
  \/ exists c acts,
       hh' = set_turnactions (set_board hh (board hh ++ [c])) acts /\ Forall amount_ok acts.
Proof.
  unfold _parse_turn; destruct (match_ turn_board_re (curline p)); intros H.
  - apply bind_returns in H as [card [_ H]]; cbv beta iota in H.
    apply bind_returns in H as [[acts q] [H1 H]]; injection H as <- _.
    right. exists card, acts. split; [reflexivity | apply (street_ok _ _ _ _ H1)].
  - injection H as <- _. left; reflexivity.
Qed.

Lemma river_returns (hh hh' : HandHistory) (p p' : Parser) :
  _parse_river hh p = Returns (hh', p') ->
  hh' = hh
  \/ exists c acts,
       hh' = set_riveractions (set_board hh (board hh ++ [c])) acts /\ Forall amount_ok acts.
Proof.
  unfold _parse_river; destruct (match_ river_board_re (curline p)); intros H.
  - apply bind_returns in H as [card [_ H]]; cbv beta iota in H.
    apply bind_returns in H as [[acts q] [H1 H]]; injection H as <- _.
    right. exists card, acts. split; [reflexivity | apply (street_ok _ _ _ _ H1)].
  - injection H as <- _. left; reflexivity.
Qed.

(** The summary of a record that [parse] returns: blinds that are all
    [BLIND] with an amount, preflop actions, and for each of the flop, the
    turn and the river either nothing or its cards and its actions. *)
Lemma parse_summary (p : Parser) (hh : HandHistory) (p' : Parser) :
  parse p = Returns (hh, p') ->
  exists pre f t r,
    Forall is_blind (blinds hh)
    /\ preflopactions hh = Some pre /\ Forall amount_ok pre
    /\ board hh = f ++ t ++ r
    /\ length f = ran (flopactions hh) 3
    /\ length t = ran (turnactions hh) 1
    /\ length r = ran (riveractions hh) 1
    /\ Forall amount_ok (street_actions (flopactions hh))
    /\ Forall amount_ok (street_actions (turnactions hh))
    /\ Forall amount_ok (street_actions (riveractions hh)).
Proof.
  unfold parse; intros H.
  apply bind_returns in H as [[props p1] [_ H]]; cbv beta iota in H.
  unfold parse_sections in H.
  apply bind_returns in H as [[h1 q1] [H1 H]]; cbv beta iota in H.
  apply bind_returns in H as [[h2 q2] [H2 H]]; cbv beta iota in H.
  apply bind_returns in H as [[h3 q3] [H3 H]]; cbv beta iota in H.
  apply bind_returns in H as [[h4 q4] [H4 H]]; cbv beta iota in H.
  apply bind_returns in H as [[h5 q5] [H5 H]]; cbv beta iota in H.
  apply bind_returns in H as [[h6 q6] [H6 H]]; cbv beta iota in H.
  apply bind_returns in H as [[h7 q7] [H7 H]]; cbv beta iota in H.
  apply players_summary, summary_inj in H1 as [_ [_ [F3 [F4 [F5 F6]]]]].
  apply blinds_summary in H2 as [Hb [_ [E3 [E4 [E5 E6]]]]].
  apply hero_returns in H3 as [-> _].
  apply preflop_returns in H4 as [pre [-> Hpre]].
  apply showdown_summary, summary_inj in H as [I1 [I2 [I3 [I4 [I5 I6]]]]].
  simpl in F3, F4, F5, F6.
  assert (G : flopactions h2 = None /\ turnactions h2 = None
              /\ riveractions h2 = None /\ board h2 = []).
  { rewrite E3, E4, E5, E6, F3, F4, F5, F6. auto. }
  destruct G as [G1 [G2 [G3 G4]]].
  exists pre.
  destruct (flop_returns _ _ _ _ H5) as [-> | [c1 [c2 [c3 [fa [-> Hfa]]]]]];
    destruct (turn_returns _ _ _ _ H6) as [-> | [ct [ta [-> Hta]]]];
    destruct (river_returns _ _ _ _ H7) as [-> | [cr [ra [-> Hra]]]];
    simpl in I1, I2, I3, I4, I5, I6;
    rewrite I1, I2, I3, I4, I5, I6; rewrite ?G1, ?G2, ?G3, ?G4; simpl.
  - exists [], [], []. repeat split; auto.
  - exists [], [], [cr]. repeat split; auto.
  - exists [], [ct], []. repeat split; auto.
  - exists [], [ct], [cr]. repeat split; auto.
  - exists [c1; c2; c3], [], []. repeat split; auto.
  - exists [c1; c2; c3], [], [cr]. repeat split; auto.
  - exists [c1; c2; c3], [ct], []. repeat split; auto.
  - exists [c1; c2; c3], [ct], [cr]. repeat split; auto.
Qed.

(** ** The board *)

Lemma board_of_summary (hh : HandHistory) (f t r : list Card) :
  board hh = f ++ t ++ r ->
  length f = ran (flopactions hh) 3 ->
  length t = ran (turnactions hh) 1 ->
  length r = ran (riveractions hh) 1 ->
  length (board hh) <= 5
  /\ (flopactions hh <> None -> In (length (board hh)) [3; 4; 5])
  /\ (flopactions hh = None -> length (board hh) <= 2).
Proof.
  intros Hb Hf Ht Hr. rewrite Hb, !length_app, Hf, Ht, Hr.
  destruct (flopactions hh), (turnactions hh), (riveractions hh); simpl;
    (split; [lia|]); (split; [intros H; try (exfalso; apply H; reflexivity); auto 6
                             | intros H; try discriminate; lia]).
Qed.

(** A turn marker that follows the blinds with no flop marker in between
    is accepted: the hand completes with a board of one card. *)
Lemma board_length_counterexample :
  match record_of turn_without_flop with
  | Some hh => length (board hh) = 1 /\ ~ In (length (board hh)) [0; 3; 4; 5]
  | None => False
  end.
Proof.
  vm_compute. split; [reflexivity|].
  intros [H | [H | [H | [H | []]]]]; discriminate H.
Qed.

(** ** Amounts *)

Lemma is_blind_amount_ok (pa : PlayerAction) : is_blind pa -> amount_ok pa.
Proof.
  intros [Hk Ha]. unfold amount_ok, has_amount. rewrite Hk.
  destruct (amount pa); [reflexivity | contradiction].
Qed.

(** C8.  Every action of a record that [parse] returns carries an amount
    exactly when its kind is blind, ante, bet or raise; a check, a fold or
    a call carries none. *)
Theorem amount_present_by_kind (p : Parser) (hh : HandHistory) (p' : Parser) :
  parse p = Returns (hh, p') ->
  Forall (fun pa => has_amount pa = takes_amount (action_kind pa)) (all_actions hh).
Proof.
  intros H. apply parse_summary in H
    as [pre [f [t [r [Hb [Hp [Hpre [_ [_ [_ [_ [Hfa [Hta Hra]]]]]]]]]]]]].
  unfold all_actions. rewrite Hp. simpl.
  repeat (apply Forall_app; split); try assumption.
  eapply Forall_impl; [|exact Hb]. apply is_blind_amount_ok.
Qed.

(** The call of [hand_a] names four dollars; the record keeps none. *)
Lemma amount_present_by_kind_witness :
  exists hh p',
    parse (parser_of (unlines hand_a)) = Returns (hh, p')
    /\ In (PlayerAction2 1 CALL) (all_actions hh)
    /\ Forall (fun pa => has_amount pa = takes_amount (action_kind pa)) (all_actions hh).
Proof.
  eexists; eexists. split; [vm_compute; reflexivity|].
  split; [vm_compute; tauto|].
  eapply (amount_present_by_kind (parser_of (unlines hand_a))). vm_compute; reflexivity.
Defined.

(** ** The constructor *)

(** C10.  With a mode other than full the constructor raises at once: no
    parser is built, so no stream is assigned, and no file is opened. *)
Theorem init_requires_full_mode (fs : filesystem) (stream_ : option Stream)
        (filename : option string) (mode : string) :
  mode <> "full" ->
  __init__ fs stream_ filename mode = (Raises (Exception_ "Not implemented."), []).
Proof.
  intros H. unfold __init__.
  destruct (String.eqb_spec mode "full") as [E|_]; [contradiction | reflexivity].
Qed.

Lemma init_requires_full_mode_witness :
  "header" <> "full" /\ "text" <> "full"
  /\ __init__ (fun _ => Some two_hands) None (Some "hands.txt") "header"
     = (Raises (Exception_ "Not implemented."), [])
  /\ __init__ (fun _ => None) (Some (StringIO two_hands)) None "text"
     = (Raises (Exception_ "Not implemented."), []).
Proof.
  split; [discriminate|]. split; [discriminate|]. split.
  - apply (init_requires_full_mode (fun _ => Some two_hands) None (Some "hands.txt") "header").
    discriminate.
  - apply (init_requires_full_mode (fun _ => None) (Some (StringIO two_hands)) None "text").
    discriminate.
Defined.

Example init_full_mode :
  exists i,
    __init__ (fun _ => None) (Some (StringIO two_hands)) None "full" = (Returns i, [])
    /\ parser_of_instance i = Some (parser_of two_hands).
Proof. eexists. split; reflexivity. Qed.

(** ** Hole cards, raises and antes on concrete hands *)

(** [_parse_hero] never writes to the record: when it returns, the record
    is the one it was given. *)
Lemma hero_never_sets_holecards (hh hh' : HandHistory) (p p' : Parser) :
  _parse_hero hh p = Returns (hh', p') -> hh' = hh.
Proof. intros H. apply hero_returns in H as [E _]. exact E. Qed.

(** C4, on a hand with a hero line: the hole-cards parser hands the new
    [HoleCards] to the seat lookup in place of the name and raises; the
    same hand without the line is parsed. *)
Theorem hero_line_raises :
  parse (parser_of hero_hand) = Raises SeatNotFound
  /\ match_ _hero_re (String.append "Dealt to Alice [Ah Kd]" NL) <> None
  /\ record_of hand_without_hero_line <> None.
Proof. vm_compute. repeat split; discriminate. Qed.

(** C5, on the line of the claim: the amount group asks for a decimal
    point, 20 has none, the group stays unset and [Fraction(None)] raises.
    With cents the raise is recorded with the exact amount 20. *)
Theorem raise_without_decimal_point_raises :
  group_str (match match_ action_re (String.append raise_line NL) with
             | Some m => m | None => [] end) "action" = "raises"
  /\ group (match match_ action_re (String.append raise_line NL) with
            | Some m => m | None => [] end) "value" = None
  /\ parse (parser_of raise_hand) = Raises TypeError
  /\ option_map preflopactions (record_of raise_hand_with_cents)
     = Some (Some [PlayerAction3 0 RAISE (Qmake 20 1)]).
Proof. vm_compute. repeat split. Qed.

(** C6, on a hand whose forced bets begin with antes: the blind pattern
    refuses the ante line, which [_ante_re] would accept, and the blinds
    parser raises; an ante line after the blinds ends the section and is
    recorded nowhere. *)
Theorem ante_line_not_consumed :
  match_ blind_re (String.append ante_line NL) = None
  /\ match_ _ante_re (String.append ante_line NL) <> None
  /\ parse (parser_of ante_hand) = Raises (ParseException (String.append ante_line NL))
  /\ option_map (fun hh => map action_kind (all_actions hh))
                (record_of ante_after_blinds_hand)
     = Some [BLIND; BLIND].
Proof. vm_compute. repeat split; discriminate. Qed.

(** ** The header *)

Lemma bind_raises {A B : Type} (c : outcome A) (k : A -> outcome B) (e : exn) :
  bind c k = Raises e ->
  c = Raises e \/ exists a, c = Returns a /\ k a = Raises e.
Proof.
  destruct c as [a|e'|]; simpl; intros H.
  - right. exists a. split; [reflexivity | exact H].
  - left. injection H as ->. reflexivity.
  - discriminate H.
Qed.

Lemma Fraction_raises (v : option string) (e : exn) :
  Fraction v = Raises e -> parse_failure e = false.
Proof.
  destruct v as [s|]; simpl; [|intros H; injection H as <-; reflexivity].
  unfold Fraction_of_string.
  destruct (match_ _RATIONAL_FORMAT s) as [m|];
    [|intros H; injection H as <-; reflexivity].
  destruct (group m "denom").
  - destruct (Z.eqb _ 0); intros H; [injection H as <-; reflexivity | discriminate].
  - destruct (group m "exp"); [destruct (String.eqb _ _)|]; discriminate.
Qed.

Lemma Currency_raises (s : string) (e : exn) :
  Currency_of_string s = Raises e -> parse_failure e = false.
Proof.
  unfold Currency_of_string.
  repeat (match goal with |- context [if ?b then _ else _] => destruct b end);
    intros H; try discriminate; injection H as <-; reflexivity.
Qed.

Lemma Game_raises (s : string) (e : exn) :
  Game_of_string s = Raises e -> parse_failure e = false.
Proof.
  unfold Game_of_string.
  repeat (match goal with |- context [if ?b then _ else _] => destruct b end);
    intros H; try discriminate; injection H as <-; reflexivity.
Qed.

Lemma Limit_raises (s : string) (e : exn) :
  Limit_of_string s = Raises e -> parse_failure e = false.
Proof.
  unfold Limit_of_string. destruct (String.eqb _ _); intros H;
    try discriminate; injection H as <-; reflexivity.
Qed.

Ltac not_parse_failure H :=
  first [ apply Fraction_raises in H | apply Currency_raises in H
        | apply Game_raises in H | apply Limit_raises in H ];
  discriminate H.

(** Once the header line has its shape, the only [ParseException] left is
    the one for the table line. *)
Lemma header_properties_failure (p : Parser) (m : caps)
      (tour : option (Q * Q * string * string * Game * Limit)) (l : string) :
  header_properties p m tour = Raises (ParseException l) ->
  l = curline (__readline p).
Proof.
  unfold header_properties; intros H.
  apply bind_raises in H as [H | [x1 [_ H]]]; [not_parse_failure H|].
  apply bind_raises in H as [H | [x2 [_ H]]]; [not_parse_failure H|].
  apply bind_raises in H as [H | [x3 [_ H]]]; [not_parse_failure H|].
  cbv zeta in H. destruct (match_ _table_re (curline (__readline p))); [discriminate|].
  injection H as <-. reflexivity.
Qed.

(** C2, as the code has it.  Header parsing tries one shape only, chosen
    by whether the line contains the word Tournament.  When the chosen
    shape fails no properties are returned, and for a line without the
    word the error is a [ParseException] that carries the raw line.  When
    the chosen shape matches, no parse error is raised for the header
    line: a [ParseException] then carries the table line that follows. *)
Theorem header_shape_by_keyword (p : Parser) :
  (chosen_shape (curline p) = None ->
   (forall r, _parse_header p <> Returns r)
   /\ (contains "Tournament" (curline p) = false ->
       _parse_header p = Raises (ParseException (curline p))))
  /\ (chosen_shape (curline p) <> None ->
      forall l, _parse_header p = Raises (ParseException l) ->
                l = curline (__readline p)).
Proof.
  unfold chosen_shape. split.
  - intros Hnone. split.
    + intros [props p'] H. apply header_returns in H as [_ [_ H]]. apply H, Hnone.
    + intros Hk. rewrite Hk in Hnone. unfold _parse_header.
      rewrite Hk, Hnone. reflexivity.
  - intros Hsome l H. unfold _parse_header in H.
    destruct (contains "Tournament" (curline p)).
    + destruct (match_ _tournament_header_re (curline p)) as [m|]; [|contradiction].
      apply bind_raises in H as [H | [[mo tour] [H1 H]]].
      * apply bind_raises in H as [H | [x1 [_ H]]]; [not_parse_failure H|].
        apply bind_raises in H as [H | [x2 [_ H]]]; [not_parse_failure H|].
        apply bind_raises in H as [H | [x3 [_ H]]]; [not_parse_failure H|].
        apply bind_raises in H as [H | [x4 [_ H]]]; [not_parse_failure H|].
        discriminate.
      * bind_inv H1. bind_inv H1. bind_inv H1. bind_inv H1.
        injection H1 as <- <-. cbv beta iota in H.
        apply (header_properties_failure p m _ l H).
    + destruct (match_ _cash_header_re (curline p)) as [m|]; [|contradiction].
      simpl in H. apply (header_properties_failure p m None l H).
Qed.

Lemma header_shape_by_keyword_witness :
  let p1 := mkParser EmptyString [] (String.append "PokerStars junk" NL) in
  let p2 := mkParser EmptyString [String.append "Seat 1: Alice ($100 in chips)" NL]
                     (String.append cash_header NL) in
  (chosen_shape (curline p1) = None
   /\ contains "Tournament" (curline p1) = false
   /\ _parse_header p1 = Raises (ParseException (curline p1)))
  /\ (chosen_shape (curline p2) <> None
      /\ _parse_header p2
         = Raises (ParseException (String.append "Seat 1: Alice ($100 in chips)" NL))
      /\ String.append "Seat 1: Alice ($100 in chips)" NL = curline (__readline p2)).
Proof.
  intros p1 p2. split.
  - split; [vm_compute; reflexivity|]. split; [vm_compute; reflexivity|].
    apply (proj1 (header_shape_by_keyword p1)); vm_compute; reflexivity.
  - split; [vm_compute; discriminate|]. split; [vm_compute; reflexivity|].
    apply (proj2 (header_shape_by_keyword p2)); [vm_compute; discriminate|].
    vm_compute; reflexivity.
Defined.

(** A line that has the cash-game shape and contains the word: the
    cash-game shape is not tried and header parsing raises.  A line with
    the word and neither shape: the error does not carry the line. *)
Lemma header_shapes_counterexample :
  let p1 := mkParser EmptyString [String.append table_line NL]
                     (String.append cash_line_with_keyword NL) in
  let p2 := mkParser EmptyString [String.append table_line NL]
                     (String.append broken_tournament_line NL) in
  (match_ _cash_header_re (curline p1) <> None
   /\ match_ _tournament_header_re (curline p1) = None
   /\ _parse_header p1 = Raises AttributeError)
  /\ (match_ _cash_header_re (curline p2) = None
      /\ match_ _tournament_header_re (curline p2) = None
      /\ _parse_header p2 = Raises AttributeError).
Proof. vm_compute. repeat split; discriminate. Qed.

(** ** A stream that ends in the middle of a hand *)

Lemma reads_unread_incl (p p' : Parser) :
  reads p p' -> incl (unread (stream p')) (unread (stream p)).
Proof.
  induction 1 as [p | p p' _ IH]; [apply incl_refl|].
  intros x Hx. apply IH in Hx. unfold __readline in Hx.
  destruct (unread (stream p)); simpl in Hx; [contradiction | right; exact Hx].
Qed.

Lemma bind_raises_or_returns {A B : Type} (c : outcome A) (k : A -> outcome B) :
  c <> Diverges ->
  (forall a, c = Returns a -> exists e, k a = Raises e) ->
  exists e, bind c k = Raises e.
Proof.
  destruct c as [a|e|]; simpl; intros Hc Hk;
    [apply Hk; reflexivity | exists e; reflexivity | exfalso; apply Hc; reflexivity].
Qed.

(** Cut after the header, after the table line and after the seats, the
    stream gives the same exception, which names no section; cut in the
    flop line, it gives a record. *)
Lemma truncation_counterexample :
  parse (parser_of header_only) = Raises (ParseException EmptyString)
  /\ parse (parser_of header_and_table) = Raises (ParseException EmptyString)
  /\ parse (parser_of header_table_seats) = Raises (ParseException EmptyString)
  /\ record_of cut_in_flop <> None.
Proof. vm_compute. repeat split; discriminate. Qed.

(** * More of the cursor and of the assembler *)

(** ** Seeking *)

Lemma seek_lines_skipped (text : string) (rest : list string) :
  lines_ok rest ->
  forall cur,
    exists skipped,
      pending (mkParser text rest cur) = skipped ++ pending (seek_lines text cur rest)
      /\ Forall (fun l => is_header l = false) skipped.
Proof.
  induction rest as [|l rest IH]; intros Hok cur; simpl.
  - destruct (is_header cur) eqn:Hh.
    + exists []. split; [reflexivity | constructor].
    + unfold pending; simpl.
      destruct (String.eqb cur EmptyString).
      * exists []. split; [reflexivity | constructor].
      * exists [cur]. split; [reflexivity | constructor; [exact Hh | constructor]].
  - inversion Hok as [|? ? Hl Hrest]; subst.
    destruct (is_header cur) eqn:Hh.
    + exists []. split; [reflexivity | constructor].
    + destruct (String.eqb_spec l EmptyString) as [->|Hne]; [contradiction|].
      destruct (IH Hrest l) as [skipped [Hs Hf]].
      assert (Hp : pending (mkParser text rest l) = l :: rest).
      { unfold pending; simpl.
        destruct (String.eqb_spec l EmptyString); [contradiction | reflexivity]. }
      rewrite Hp in Hs. unfold pending at 1; simpl.
      destruct (String.eqb cur EmptyString).
      * exists skipped. split; [exact Hs | exact Hf].
      * exists (cur :: skipped). split; [simpl; rewrite Hs; reflexivity|].
        constructor; [exact Hh | exact Hf].
Qed.

(** X1.  On a stream of proper lines [__seek_next_header] stops on a line
    that begins with PokerStars or at the end of the stream with the
    empty line; it passes only lines that are no header lines, and a
    second seek stays where the first one stopped. *)
Theorem seek_next_header_stops_on_header (p : Parser) :
  lines_ok (unread (stream p)) ->
  let q := __seek_next_header p in
  (is_header (curline q) = true
   \/ (curline q = EmptyString /\ unread (stream q) = []))
  /\ (exists skipped,
        pending p = skipped ++ pending q
        /\ Forall (fun l => is_header l = false) skipped)
  /\ __seek_next_header q = q.
Proof.
  intros Hok q. destruct (seek_spec p Hok) as [Hstop _]. fold q in Hstop.
  split; [exact Hstop|]. split.
  - pose proof (seek_lines_skipped (content (stream p)) (unread (stream p)) Hok (curline p))
      as H. rewrite parser_eta in H. exact H.
  - destruct Hstop as [Hh | [Hc Hu]]; [apply seek_at_header, Hh|].
    pose proof (parser_eta q) as E. rewrite Hc, Hu in E.
    unfold __seek_next_header. rewrite Hc, Hu. simpl. exact E.
Qed.

Lemma seek_next_header_stops_on_header_witness :
  let p := parser_of two_hands in
  let q := __seek_next_header p in
  lines_ok (unread (stream p))
  /\ (is_header (curline q) = true
      \/ (curline q = EmptyString /\ unread (stream q) = []))
  /\ (exists skipped,
        pending p = skipped ++ pending q
        /\ Forall (fun l => is_header l = false) skipped)
  /\ __seek_next_header q = q.
Proof.
  intros p q. split; [apply readlines_nonempty|].
  apply (seek_next_header_stops_on_header p). apply readlines_nonempty.
Defined.

(** ** [parse] at the end of the input *)

Lemma no_header_pending (ls : list string) :
  count_headers ls = 0 -> Forall (fun l => is_header l = false) ls.
Proof.
  induction ls as [|l ls IH]; intros H; [constructor|].
  rewrite count_headers_cons in H. destruct (is_header l) eqn:E; [discriminate|].
  constructor; [exact E | apply IH, H].
Qed.

(** X2.  When no header line is left, the current line included, [parse]
    reads the stream to its end and raises [ParseException] with the
    empty line: the end of the input is not told apart from a bad
    header. *)
Theorem parse_without_header_ahead (p : Parser) :
  lines_ok (unread (stream p)) ->
  count_headers (pending p) = 0 ->
  parse p = Raises (ParseException EmptyString).
Proof.
  intros Hok H0. destruct (seek_spec p Hok) as [Hstop Hcount].
  rewrite H0 in Hcount.
  assert (Hc : curline (__seek_next_header p) = EmptyString).
  { destruct Hstop as [Hh | [Hc _]]; [|exact Hc]. exfalso.
    unfold pending in Hcount.
    destruct (String.eqb_spec (curline (__seek_next_header p)) EmptyString) as [E|_].
    - rewrite E in Hh. discriminate Hh.
    - rewrite count_headers_cons, Hh in Hcount. discriminate Hcount. }
  unfold parse, _parse_header. rewrite Hc. reflexivity.
Qed.

Lemma parse_without_header_ahead_witness :
  let p := parser_of (unlines ["exported by the client"; table_line]) in
  lines_ok (unread (stream p))
  /\ count_headers (pending p) = 0
  /\ parse p = Raises (ParseException EmptyString).
Proof.
  intros p. split; [apply readlines_nonempty|]. split; [reflexivity|].
  apply (parse_without_header_ahead p); [apply readlines_nonempty | reflexivity].
Defined.

(** ** How far [parse] reads *)

Lemma reads_suffix (p p' : Parser) :
  reads p p' -> exists pre, unread (stream p) = pre ++ unread (stream p').
Proof.
  induction 1 as [p | p p' _ [pre IH]]; [exists []; reflexivity|].
  unfold __readline in IH. destruct (unread (stream p)) as [|l rest]; simpl in IH.
  - exists pre. exact IH.
  - exists (l :: pre). simpl. rewrite IH. reflexivity.
Qed.

Lemma readline_pops (p : Parser) :
  curline (__readline p) <> EmptyString ->
  S (length (unread (stream (__readline p)))) = length (unread (stream p)).
Proof.
  unfold __readline. destruct (unread (stream p)); simpl; intros H;
    [contradiction H; reflexivity | reflexivity].
Qed.

Lemma reads_strict (p p' : Parser) :
  reads (__readline p) p' -> curline p' <> EmptyString ->
  length (unread (stream p')) < length (unread (stream p)).
Proof.
  remember (__readline p) as r eqn:Er. intros H. revert p Er.
  induction H as [r | r p' _ IH]; intros p Er Hc; subst r.
  - pose proof (readline_pops p Hc). lia.
  - specialize (IH (__readline p) eq_refl Hc).
    pose proof (readline_unread_le p). lia.
Qed.

Lemma pattern_nonempty (re : regex) (l : string) :
  match_ re EmptyString = None -> match_ re l <> None -> l <> EmptyString.
Proof. intros He Hl E. subst l. contradiction. Qed.

Lemma players_returns_match (hh hh' : HandHistory) (p p' : Parser) :
  _parse_players hh p = Returns (hh', p') ->
  match_ _seat_re (curline p) <> None /\ reads (__readline p) p'.
Proof.
  unfold _parse_players, while_match.
  destruct (match_ _seat_re (curline p)) as [m|]; [|discriminate].
  intros H. apply bind_returns in H as [[h q] [H1 H]]; cbv beta iota in H.
  bind_inv H. injection H as _ <-. split; [discriminate|].
  eapply reads_trans; [|eapply skip_while_reads, Hx].
  rewrite <- (parser_eta p). apply (match_loop_reads _ _ _ _ _ _ _ _ _ H1).
Qed.

Lemma blinds_returns_match (hh hh' : HandHistory) (p p' : Parser) :
  _parse_blinds hh p = Returns (hh', p') ->
  match_ blind_re (curline p) <> None /\ reads (__readline p) p'.
Proof.
  unfold _parse_blinds, while_match.
  destruct (match_ blind_re (curline p)) as [m|]; [|discriminate].
  intros H. apply bind_returns in H as [[h q] [H1 H]]; cbv beta iota in H.
  bind_inv H. injection H as _ <-. split; [discriminate|].
  eapply reads_trans; [|eapply skip_while_reads, Hx].
  rewrite <- (parser_eta p). apply (match_loop_reads _ _ _ _ _ _ _ _ _ H1).
Qed.

Lemma sections_after_blinds_reads (hh hh' : HandHistory) (p p' : Parser) :
  ('(hh, p) <- _parse_hero hh p;;
   '(hh, p) <- _parse_preflop hh p;;
   '(hh, p) <- _parse_flop hh p;;
   '(hh, p) <- _parse_turn hh p;;
   '(hh, p) <- _parse_river hh p;;
   _parse_showdown hh p) = Returns (hh', p') ->
  reads p p'.
Proof.
  intros H.
  apply bind_returns in H as [[h3 p3] [H3 H]]; cbv beta iota in H.
  apply bind_returns in H as [[h4 p4] [H4 H]]; cbv beta iota in H.
  apply bind_returns in H as [[h5 p5] [H5 H]]; cbv beta iota in H.
  apply bind_returns in H as [[h6 p6] [H6 H]]; cbv beta iota in H.
  apply bind_returns in H as [[h7 p7] [H7 H]]; cbv beta iota in H.
  apply hero_returns in H3 as [_ [H3 _]]. apply preflop_reads in H4.
  apply flop_reads in H5. apply turn_reads in H6. apply river_reads in H7.
  apply showdown_reads in H.
  repeat (eapply reads_trans; [eassumption|]). apply reads_refl.
Qed.

(** X3.  [parse] only reads forward: when it returns, the lines left
    unread are a tail of those that were unread before, the text of the
    stream is the same, and at least three lines have been read past the
    header line: a table line, a seat line and a blind line. *)
Theorem parse_reads_forward (p : Parser) (hh : HandHistory) (p' : Parser) :
  parse p = Returns (hh, p') ->
  content (stream p') = content (stream p)
  /\ exists read,
       unread (stream p) = read ++ unread (stream p') /\ 3 <= length read.
Proof.
  intros H. split; [apply (parse_content _ _ _ H)|].
  pose proof (parse_reads _ _ _ H) as [_ Hr].
  assert (Hall : reads p p').
  { eapply reads_trans; [apply seek_reads|]. apply reads_step. exact Hr. }
  destruct (reads_suffix _ _ Hall) as [read Hread].
  exists read. split; [exact Hread|].
  assert (Hlen : length (unread (stream p')) + 3 <= length (unread (stream p))).
  { clear Hread Hall Hr. unfold parse in H.
    set (q := __seek_next_header p) in *.
    apply bind_returns in H as [[props p1] [Hh H]]; cbv beta iota in H.
    apply header_returns in Hh as [-> [Ht _]].
    unfold parse_sections in H.
    apply bind_returns in H as [[h1 p2] [H1 H]]; cbv beta iota in H.
    apply bind_returns in H as [[h2 p3] [H2 H]]; cbv beta iota in H.
    apply players_returns_match in H1 as [Hs Hr1].
    apply blinds_returns_match in H2 as [Hb Hr2].
    apply sections_after_blinds_reads in H.
    pose proof (readline_pops q (pattern_nonempty _ _ table_re_empty Ht)) as L1.
    pose proof (readline_pops (__readline q) (pattern_nonempty _ _ seat_re_empty Hs)) as L2.
    pose proof (reads_strict _ _ Hr1 (pattern_nonempty _ _ blind_re_empty Hb)) as L3.
    pose proof (reads_unread_le _ _ (reads_trans _ _ _ (reads_one p2) Hr2)) as L4.
    pose proof (reads_unread_le _ _ H) as L5.
    pose proof (reads_unread_le _ _ (seek_reads p)) as L6. fold q in L6. lia. }
  apply (f_equal (@length string)) in Hread. rewrite length_app in Hread. lia.
Qed.

Lemma parse_reads_forward_witness :
  exists hh p',
    parse (parser_of two_hands) = Returns (hh, p')
    /\ content (stream p') = content (stream (parser_of two_hands))
    /\ exists read,
         unread (stream (parser_of two_hands)) = read ++ unread (stream p')
         /\ 3 <= length read.
Proof.
  eexists; eexists. split; [vm_compute; reflexivity|].
  eapply (parse_reads_forward (parser_of two_hands)). vm_compute; reflexivity.
Defined.

(** ** Bounds on a pass *)

Lemma histories_loop_bound :
  forall fuel p,
    lines_ok (unread (stream p)) ->
    (is_header (curline p) = true
     \/ (curline p = EmptyString /\ unread (stream p) = [])) ->
    length (fst (histories_loop fuel p)) <= count_headers (pending p).
Proof.
  induction fuel as [|fuel IH]; intros p Hok Hstop; simpl; [lia|].
  destruct Hstop as [Hh | [Hcur Hu]].
  - pose proof (is_header_nonempty _ Hh) as Hne.
    destruct (String.eqb_spec (curline p) EmptyString) as [E|_]; [contradiction|].
    assert (Hpend : pending p = curline p :: unread (stream p)).
    { unfold pending.
      destruct (String.eqb_spec (curline p) EmptyString); [contradiction|reflexivity]. }
    rewrite Hpend, count_headers_cons, Hh.
    destruct (parse p) as [[hh q]| |] eqn:Ep; simpl; try lia.
    apply parse_reads in Ep as [_ Hr]. rewrite (seek_at_header _ Hh) in Hr.
    destruct (pending_readline p Hok) as [Hp1 Hok1].
    destruct (reads_pending _ _ Hr Hok1) as [Hokq [pre Hpre]].
    destruct (reads_pending _ _ (seek_reads q) Hokq) as [Hok2 _].
    destruct (seek_spec q Hokq) as [Hstop2 Hcount2].
    specialize (IH (__seek_next_header q) Hok2 Hstop2).
    destruct (histories_loop fuel (__seek_next_header q)) as [hs e]. simpl in *.
    rewrite Hcount2 in IH. rewrite <- Hp1, Hpre, count_headers_app. lia.
  - rewrite Hcur. simpl. lia.
Qed.

(** X4.  Whatever the stream holds and however the pass ends, a pass of
    [histories] on a parser fresh from its constructor yields at most as
    many records as the stream has lines that begin with PokerStars. *)
Theorem histories_at_most_one_record_per_header (p : Parser) :
  curline p = EmptyString ->
  length (fst (histories p))
  <= count_headers (readlines (content (stream p))).
Proof.
  intros Hcur. unfold histories.
  set (p0 := {| stream := seek0 (stream p); curline := curline p |}).
  assert (Hok0 : lines_ok (unread (stream p0))) by apply readlines_nonempty.
  assert (Hp0 : pending p0 = readlines (content (stream p))).
  { unfold pending, p0. simpl. rewrite Hcur. reflexivity. }
  destruct (reads_pending _ _ (seek_reads p0) Hok0) as [Hok1 _].
  destruct (seek_spec p0 Hok0) as [Hstop Hcount].
  pose proof (histories_loop_bound
                (S (length (unread (stream (__seek_next_header p0)))))
                (__seek_next_header p0) Hok1 Hstop) as H.
  rewrite Hcount, Hp0 in H. exact H.
Qed.

Lemma histories_at_most_one_record_per_header_witness :
  curline (parser_of swallowed_header) = EmptyString
  /\ length (fst (histories (parser_of swallowed_header))) = 1
  /\ count_headers (readlines (content (stream (parser_of swallowed_header)))) = 2
  /\ length (fst (histories (parser_of swallowed_header)))
     <= count_headers (readlines (content (stream (parser_of swallowed_header)))).
Proof.
  split; [reflexivity|]. split; [vm_compute; reflexivity|].
  split; [vm_compute; reflexivity|].
  apply (histories_at_most_one_record_per_header (parser_of swallowed_header)).
  reflexivity.
Defined.

(** X5.  [parse] and [histories] agree on the first hand: the record that
    [parse] returns on a fresh parser over a text is the first record
    that a pass of [histories] over the same text yields. *)
Theorem histories_begins_with_parse (text : string) (hh : HandHistory) (p' : Parser) :
  parse (parser_of text) = Returns (hh, p') ->
  exists hs e, histories (parser_of text) = (hh :: hs, e).
Proof.
  intros H. unfold histories.
  replace {| stream := seek0 (stream (parser_of text)); curline := curline (parser_of text) |}
    with (parser_of text) by reflexivity.
  set (q := __seek_next_header (parser_of text)).
  assert (Hok : lines_ok (unread (stream (parser_of text)))) by apply readlines_nonempty.
  assert (Hh : is_header (curline q) = true).
  { destruct (seek_spec (parser_of text) Hok) as [[Hh | [Hc _]] _]; [exact Hh|].
    exfalso. unfold parse in H.
    apply bind_returns in H as [[props p1] [Hp _]].
    apply header_returns in Hp as [_ [_ Hshape]]. fold q in Hc, Hshape.
    rewrite Hc in Hshape. apply Hshape. reflexivity. }
  assert (Hq : parse q = Returns (hh, p')).
  { unfold parse. rewrite (seek_at_header q Hh). exact H. }
  simpl. destruct (String.eqb_spec (curline q) EmptyString) as [E|_].
  - rewrite E in Hh. discriminate Hh.
  - rewrite Hq.
    destruct (histories_loop (length (unread (stream q))) (__seek_next_header p'))
      as [hs e].
    exists hs, e. reflexivity.
Qed.

Lemma histories_begins_with_parse_witness :
  exists hh p' hs e,
    parse (parser_of two_hands) = Returns (hh, p')
    /\ histories (parser_of two_hands) = (hh :: hs, e).
Proof.
  destruct (parse (parser_of two_hands)) as [[hh p']| |] eqn:E;
    [|vm_compute in E; discriminate E|vm_compute in E; discriminate E].
  destruct (histories_begins_with_parse two_hands hh p' E) as [hs [e H]].
  exists hh, p', hs, e. split; [reflexivity | exact H].
Defined.

(** X6.  [parse] and a full pass of [histories] always come to an end:
    every loop reads a line each round, and no pattern that keeps a loop
    going accepts the empty line that is read at the end of the stream. *)
Theorem parse_and_histories_terminate (p : Parser) :
  parse p <> Diverges /\ snd (histories p) <> Hung.
Proof.
  split.
  - unfold parse. apply bind_total; [apply header_total | intros [props p1]].
    apply parse_sections_total.
  - unfold histories. apply histories_loop_total. lia.
Qed.

(** ** What a loop consumes *)

Section RunFacts.
Context {M A : Type}.
Variable pat : string -> option M.
Variable body : M -> A -> outcome A.
Variable R : list M -> A -> Prop.
Hypothesis R_step :
  forall ms m a a', R ms a -> body m a = Returns a' -> R (ms ++ [m]) a'.
Hypothesis pat_empty : pat EmptyString = None.

Lemma match_loop_run (text : string) (rest : list string) :
  lines_ok rest ->
  forall cur m a a' p' ms0,
    pat cur = Some m -> R ms0 a ->
    match_loop pat body text m a rest = Returns (a', p') ->
    exists ls ms,
      cur :: rest = ls ++ pending p'
      /\ Forall2 (fun l m => pat l = Some m) ls ms
      /\ ls <> []
      /\ R (ms0 ++ ms) a'
      /\ pat (curline p') = None
      /\ lines_ok (unread (stream p')).
Proof.
  induction rest as [|l rest IH]; intros Hok cur m a a' p' ms0 Hcur HR H; simpl in H;
    destruct (body m a) as [a1| |] eqn:Eb; try discriminate;
    pose proof (R_step _ _ _ _ HR Eb) as HR1.
  - rewrite pat_empty in H. injection H as <- <-.
    exists [cur], [m]. repeat split; try assumption.
    + constructor; [exact Hcur | constructor].
    + discriminate.
  - inversion Hok as [|? ? Hl Hrest]; subst.
    destruct (pat l) as [m'|] eqn:El.
    + destruct (IH Hrest l m' a1 a' p' (ms0 ++ [m]) El HR1 H)
        as [ls [ms [Hs [Hf [_ [HR' [Hstop Hok']]]]]]].
      exists (cur :: ls), (m :: ms). repeat split; try assumption.
      * simpl. rewrite Hs. reflexivity.
      * constructor; assumption.
      * discriminate.
      * rewrite <- app_assoc in HR'. exact HR'.
    + injection H as <- <-.
      exists [cur], [m]. repeat split; try assumption.
      * unfold pending; simpl.
        destruct (String.eqb_spec l EmptyString); [contradiction | reflexivity].
      * constructor; [exact Hcur | constructor].
      * discriminate.
Qed.

Lemma while_match_run (a a' : A) (p p' : Parser) (ms0 : list M) :
  lines_ok (unread (stream p)) -> R ms0 a ->
  while_match pat body a p = Returns (a', p') ->
  exists ls ms,
    pending p = ls ++ pending p'
    /\ Forall2 (fun l m => pat l = Some m) ls ms
    /\ (pat (curline p) <> None -> ls <> [])
    /\ R (ms0 ++ ms) a'
    /\ pat (curline p') = None
    /\ lines_ok (unread (stream p')).
Proof.
  intros Hok HR. unfold while_match.
  destruct (pat (curline p)) as [m|] eqn:E; intros H.
  - assert (Hne : curline p <> EmptyString).
    { intros Hc. rewrite Hc, pat_empty in E. discriminate. }
    destruct (match_loop_run _ _ Hok (curline p) m a a' p' ms0 E HR H)
      as [ls [ms [Hs [Hf [Hn [HR' [Hstop Hok']]]]]]].
    exists ls, ms. repeat split; try assumption.
    + unfold pending at 1.
      destruct (String.eqb_spec (curline p) EmptyString); [contradiction | exact Hs].
    + intros _. exact Hn.
  - injection H as <- <-. exists [], []. repeat split; try assumption.
    + constructor.
    + intros Hc. contradiction Hc. reflexivity.
    + rewrite app_nil_r. exact HR.
Qed.
End RunFacts.

Lemma skip_while_run (cond : string -> bool) (p p' : Parser) :
  cond EmptyString = false ->
  lines_ok (unread (stream p)) ->
  skip_while cond p = Returns p' ->
  exists ls,
    pending p = ls ++ pending p'
    /\ Forall (fun l => cond l = true) ls
    /\ cond (curline p') = false
    /\ lines_ok (unread (stream p')).
Proof.
  intros Hc Hok H. unfold skip_while in H.
  apply bind_returns in H as [[u q] [H1 H]]. injection H as <-.
  assert (He : (fun l => if cond l then Some tt else None) EmptyString = None)
    by (cbv beta; rewrite Hc; reflexivity).
  destruct (while_match_run _ _ (fun _ _ => True) (fun _ _ _ _ _ _ => I) He
              tt u p q [] Hok I H1) as [ls [ms [Hs [Hf [_ [_ [Hstop Hok']]]]]]].
  exists ls. repeat split; try assumption.
  - clear Hs. induction Hf as [|l m ls ms Hl _ IH]; constructor; [|exact IH].
    destruct (cond l); [reflexivity | discriminate].
  - destruct (cond (curline q)); [discriminate | reflexivity].
Qed.

Lemma action_body_line (hh : HandHistory) (m : caps) (acts : list PlayerAction) :
  action_body hh m acts = (pa <- line_action hh m;; Returns (acts ++ [pa])).
Proof.
  unfold action_body, line_action.
  destruct (HandHistory_seat hh (KName (group_str m "name"))) as [[i s]| |]; simpl;
    try reflexivity.
  destruct (Action_of_string (group_str m "action")) as [a| |]; reflexivity.
Qed.

(** X7.  When [_parse_street] returns, it has consumed exactly the run of
    action lines that begins at the current line and is left on the first
    line that is no action line; the list it returns holds one action per
    consumed line, in the order of the lines, each built from its own
    line. *)
Theorem street_one_action_per_line
        (hh : HandHistory) (p : Parser) (acts : list PlayerAction) (p' : Parser) :
  lines_ok (unread (stream p)) ->
  _parse_street hh p = Returns (acts, p') ->
  exists ls,
    pending p = ls ++ pending p'
    /\ Forall2 (fun l pa => exists m, match_ action_re l = Some m
                                      /\ line_action hh m = Returns pa) ls acts
    /\ match_ action_re (curline p') = None.
Proof.
  intros Hok H. unfold _parse_street in H.
  assert (Hstep : forall ms m a a',
             Forall2 (fun m pa => line_action hh m = Returns pa) ms a ->
             action_body hh m a = Returns a' ->
             Forall2 (fun m pa => line_action hh m = Returns pa) (ms ++ [m]) a').
  { intros ms m a a' HR Hb. rewrite action_body_line in Hb.
    apply bind_returns in Hb as [pa [Hpa Hb]]. injection Hb as <-.
    apply Forall2_app; [exact HR | constructor; [exact Hpa | constructor]]. }
  destruct (while_match_run _ _ _ Hstep action_re_empty [] acts p p' []
              Hok (Forall2_nil _) H) as [ls [ms [Hs [Hf [_ [HR [Hstop _]]]]]]].
  exists ls. split; [exact Hs|]. split; [|exact Hstop].
  simpl in HR. clear Hs Hstop H. revert acts HR.
  induction Hf as [|l m ls ms Hl _ IH]; intros acts HR; inversion HR; subst;
    constructor; [exists m; split; assumption | apply IH; assumption].
Qed.

Lemma street_one_action_per_line_witness :
  let p := mkParser EmptyString
             [String.append "Bob: calls $4" NL; String.append "*** FLOP *** [Ah 7d 5d]" NL]
             (String.append "Alice: raises $4.00 to $6.00" NL) in
  lines_ok (unread (stream p))
  /\ exists acts p',
       _parse_street seated_pair p = Returns (acts, p')
       /\ length acts = 2
       /\ exists ls,
            pending p = ls ++ pending p'
            /\ Forall2 (fun l pa => exists m, match_ action_re l = Some m
                                              /\ line_action seated_pair m = Returns pa)
                       ls acts
            /\ match_ action_re (curline p') = None.
Proof.
  intros p.
  assert (Hok : lines_ok (unread (stream p))).
  { repeat (constructor; [discriminate|]). constructor. }
  split; [exact Hok|].
  eexists; eexists. split; [vm_compute; reflexivity|]. split; [reflexivity|].
  eapply (street_one_action_per_line seated_pair p); [exact Hok | vm_compute; reflexivity].
Defined.

(** ** Blinds and seats *)

Lemma seat_lookup_seats (hh hh' : HandHistory) (k : seat_key) :
  seats hh' = seats hh -> HandHistory_seat hh' k = HandHistory_seat hh k.
Proof. intros E. unfold HandHistory_seat. rewrite E. reflexivity. Qed.

Lemma Forall2_matched (pat : string -> option caps) (ls : list string) (ms : list caps) :
  Forall2 (fun l m => pat l = Some m) ls ms ->
  Forall (fun l => pat l <> None) ls.
Proof.
  induction 1 as [|l m ls ms Hl _ IH]; constructor; [|exact IH].
  rewrite Hl. discriminate.
Qed.

Lemma Forall2_compose {X Y Z : Type} (P : X -> Y -> Prop) (Q : Y -> Z -> Prop)
      (xs : list X) (ys : list Y) (zs : list Z) :
  Forall2 P xs ys -> Forall2 Q ys zs ->
  Forall2 (fun x z => exists y, P x y /\ Q y z) xs zs.
Proof.
  intros H. revert zs.
  induction H as [|x y xs ys Hp _ IH]; intros zs Hq; inversion Hq; subst;
    constructor; [exists y; split; assumption | apply IH; assumption].
Qed.

(** X8.  When [_parse_blinds] returns, it has consumed the run of blind
    lines that begins at the current line, at least one, and after them
    the lines that say that a player sits out.  The blinds of the record
    are replaced by one [BLIND] per consumed blind line, in the order of
    the lines, with the seat index of the name and the amount of the
    line; nothing else of the record changes. *)
Theorem blinds_one_blind_per_line (hh : HandHistory) (p : Parser)
        (hh' : HandHistory) (p' : Parser) :
  lines_ok (unread (stream p)) ->
  _parse_blinds hh p = Returns (hh', p') ->
  exists bl so,
    pending p = bl ++ so ++ pending p'
    /\ bl <> []
    /\ Forall2 (fun l pa => exists m, match_ blind_re l = Some m
                                      /\ line_blind hh m = Returns pa)
               bl (blinds hh')
    /\ Forall (fun l => contains "sits out" l = true) so
    /\ contains "sits out" (curline p') = false
    /\ hh' = set_blinds hh (blinds hh').
Proof.
  intros Hok H. unfold _parse_blinds in H.
  destruct (match_ blind_re (curline p)) as [m0|] eqn:E0; [|discriminate].
  apply bind_returns in H as [[h q] [H1 H]]; cbv beta iota in H.
  apply bind_returns in H as [q2 [H2 H]]. injection H as <- <-.
  set (R := fun (ms : list caps) (h : HandHistory) =>
              h = set_blinds hh (blinds h)
              /\ Forall2 (fun m pa => line_blind hh m = Returns pa) ms (blinds h)).
  assert (Hstep : forall ms m a a', R ms a -> blind_body m a = Returns a' -> R (ms ++ [m]) a').
  { intros ms m a a' [Ha Hf] Hb. unfold blind_body in Hb.
    apply bind_returns in Hb as [v [Hv Hb]]; cbv beta iota in Hb.
    apply bind_returns in Hb as [[i s] [Hs Hb]]; cbv beta iota in Hb.
    injection Hb as <-. split.
    - rewrite Ha at 1. reflexivity.
    - simpl. apply Forall2_app; [exact Hf|]. constructor; [|constructor].
      unfold line_blind. rewrite Hv. simpl.
      rewrite <- (seat_lookup_seats hh a); [rewrite Hs; reflexivity|].
      rewrite Ha. reflexivity. }
  assert (HR0 : R [] (set_blinds hh [])) by (split; [reflexivity | constructor]).
  destruct (while_match_run _ _ R Hstep blind_re_empty _ _ _ _ [] Hok HR0 H1)
    as [bl [ms [Hs [Hf [Hn [[Hh Hb] [_ Hokq]]]]]]].
  destruct (skip_while_run _ _ _ eq_refl Hokq H2) as [so [Hso [Hfso [Hstop _]]]].
  exists bl, so. repeat split; try assumption.
  - rewrite Hs, Hso. reflexivity.
  - apply Hn. rewrite E0. discriminate.
  - simpl in Hb. apply (Forall2_compose _ _ _ _ _ Hf Hb).
Qed.

Lemma blinds_one_blind_per_line_witness :
  let p := mkParser EmptyString
             [String.append "Bob: posts big blind $2" NL;
              String.append "Carol: sits out " NL;
              String.append "*** HOLE CARDS ***" NL]
             (String.append "Alice: posts small blind $1" NL) in
  lines_ok (unread (stream p))
  /\ exists hh' p',
       _parse_blinds seated_pair p = Returns (hh', p')
       /\ length (blinds hh') = 2
       /\ exists bl so,
            pending p = bl ++ so ++ pending p'
            /\ bl <> []
            /\ Forall2 (fun l pa => exists m, match_ blind_re l = Some m
                                              /\ line_blind seated_pair m = Returns pa)
                       bl (blinds hh')
            /\ Forall (fun l => contains "sits out" l = true) so
            /\ contains "sits out" (curline p') = false
            /\ hh' = set_blinds seated_pair (blinds hh').
Proof.
  intros p.
  assert (Hok : lines_ok (unread (stream p))).
  { repeat (constructor; [discriminate|]). constructor. }
  split; [exact Hok|].
  eexists; eexists. split; [vm_compute; reflexivity|]. split; [reflexivity|].
  eapply (blinds_one_blind_per_line seated_pair p); [exact Hok | vm_compute; reflexivity].
Defined.

Lemma update_nth_length {X : Type} (i : nat) (f : X -> X) (l : list X) :
  length (update_nth i f l) = length l.
Proof.
  revert i; induction l as [|x l IH]; intros [|i]; simpl; try reflexivity.
  rewrite IH. reflexivity.
Qed.

Lemma update_nth_same {X : Type} (i : nat) (f : X -> X) (l : list X) (x : X) :
  nth_error l i = Some x -> nth_error (update_nth i f l) i = Some (f x).
Proof.
  revert i; induction l as [|y l IH]; intros [|i]; simpl; intros H; try discriminate.
  - injection H as ->. reflexivity.
  - apply IH, H.
Qed.

Lemma update_nth_other {X : Type} (i j : nat) (f : X -> X) (l : list X) :
  i <> j -> nth_error (update_nth i f l) j = nth_error l j.
Proof.
  revert i j; induction l as [|y l IH]; intros [|i] [|j] H; simpl; try reflexivity.
  - contradiction H; reflexivity.
  - apply IH. intros E; apply H; rewrite E; reflexivity.
Qed.

Lemma seat_body_returns (m : caps) (hh hh' : HandHistory) :
  seat_body m hh = Returns hh' ->
  hh' = set_seats hh (seats hh') /\ length (seats hh') = length (seats hh).
Proof.
  unfold seat_body; intros H.
  apply bind_returns in H as [v [_ H]]; cbv beta iota in H.
  apply bind_returns in H as [i [_ H]]. injection H as <-. simpl.
  split; [reflexivity | apply update_nth_length].
Qed.

(** X9.  When [_parse_players] returns, it has consumed the run of seat
    lines that begins at the current line, at least one, and after them
    the notices that a player will be allowed to play; in the record
    only the seats have changed, and there are as many as before. *)
Theorem players_consume_seat_lines (hh : HandHistory) (p : Parser)
        (hh' : HandHistory) (p' : Parser) :
  lines_ok (unread (stream p)) ->
  _parse_players hh p = Returns (hh', p') ->
  exists sl nl,
    pending p = sl ++ nl ++ pending p'
    /\ sl <> []
    /\ Forall (fun l => match_ _seat_re l <> None) sl
    /\ Forall (fun l => contains "will be allowed to play" l = true) nl
    /\ contains "will be allowed to play" (curline p') = false
    /\ hh' = set_seats hh (seats hh')
    /\ length (seats hh') = length (seats hh).
Proof.
  intros Hok H. unfold _parse_players in H.
  destruct (match_ _seat_re (curline p)) as [m0|] eqn:E0; [|discriminate].
  apply bind_returns in H as [[h q] [H1 H]]; cbv beta iota in H.
  apply bind_returns in H as [q2 [H2 H]]. injection H as <- <-.
  set (R := fun (ms : list caps) (h : HandHistory) =>
              h = set_seats hh (seats h) /\ length (seats h) = length (seats hh)).
  assert (Hstep : forall ms m a a', R ms a -> seat_body m a = Returns a' -> R (ms ++ [m]) a').
  { intros ms m a a' [Ha Hl] Hb. apply seat_body_returns in Hb as [Hb1 Hb2]. split.
    - rewrite Hb1, Ha. reflexivity.
    - rewrite Hb2. exact Hl. }
  assert (HR0 : R [] hh) by (split; [destruct hh; reflexivity | reflexivity]).
  destruct (while_match_run _ _ R Hstep seat_re_empty _ _ _ _ [] Hok HR0 H1)
    as [sl [ms [Hs [Hf [Hn [[Hh Hl] [_ Hokq]]]]]]].
  destruct (skip_while_run _ _ _ eq_refl Hokq H2) as [nl [Hnl [Hfnl [Hstop _]]]].
  exists sl, nl. repeat split; try assumption.
  - rewrite Hs, Hnl. reflexivity.
  - apply Hn. rewrite E0. discriminate.
  - apply (Forall2_matched _ _ _ Hf).
Qed.

Lemma players_consume_seat_lines_witness :
  let p := mkParser EmptyString
             [String.append "Seat 2: Bob ($50.50 in chips)" NL;
              String.append "Carol will be allowed to play after the button" NL;
              String.append "Alice: posts small blind $1" NL]
             (String.append "Seat 1: Alice ($100 in chips)" NL) in
  lines_ok (unread (stream p))
  /\ exists hh' p',
       _parse_players seated_pair p = Returns (hh', p')
       /\ exists sl nl,
            pending p = sl ++ nl ++ pending p'
            /\ sl <> []
            /\ Forall (fun l => match_ _seat_re l <> None) sl
            /\ Forall (fun l => contains "will be allowed to play" l = true) nl
            /\ contains "will be allowed to play" (curline p') = false
            /\ hh' = set_seats seated_pair (seats hh')
            /\ length (seats hh') = length (seats seated_pair).
Proof.
  intros p.
  assert (Hok : lines_ok (unread (stream p))).
  { repeat (constructor; [discriminate|]). constructor. }
  split; [exact Hok|].
  eexists; eexists. split; [vm_compute; reflexivity|].
  eapply (players_consume_seat_lines seated_pair p); [exact Hok | vm_compute; reflexivity].
Defined.

(** ** The table of a record *)

Lemma same_table_refl (hh : HandHistory) : same_table hh hh.
Proof. split; reflexivity. Qed.

Lemma same_table_trans (a b c : HandHistory) :
  same_table a b -> same_table b c -> same_table a c.
Proof. intros [H1 H2] [H3 H4]. split; congruence. Qed.

Lemma players_same_table (hh hh' : HandHistory) (p p' : Parser) :
  _parse_players hh p = Returns (hh', p') -> same_table hh hh'.
Proof.
  unfold _parse_players; destruct (match_ _seat_re (curline p)); [|discriminate].
  intros H. apply bind_returns in H as [[h q] [H1 H]]; cbv beta iota in H.
  bind_inv H. injection H as <- _.
  apply (while_match_inv _ _ (same_table hh)) in H1; [exact H1| |apply same_table_refl].
  intros m a a' Ha Hb. apply (same_table_trans _ _ _ Ha).
  apply seat_body_returns in Hb as [Hb1 Hb2]. split; [rewrite Hb1; reflexivity | exact Hb2].
Qed.

Lemma blinds_same_table (hh hh' : HandHistory) (p p' : Parser) :
  _parse_blinds hh p = Returns (hh', p') -> same_table hh hh'.
Proof.
  unfold _parse_blinds; destruct (match_ blind_re (curline p)); [|discriminate].
  intros H. apply bind_returns in H as [[h q] [H1 H]]; cbv beta iota in H.
  bind_inv H. injection H as <- _.
  apply (while_match_inv _ _ (same_table hh)) in H1; [exact H1| |split; reflexivity].
  intros m a a' Ha Hb. apply (same_table_trans _ _ _ Ha).
  unfold blind_body in Hb. bind_inv Hb.
  apply bind_returns in Hb as [[i s] [_ Hb]]. injection Hb as <-. split; reflexivity.
Qed.

Lemma showdown_same_table (hh hh' : HandHistory) (p p' : Parser) :
  _parse_showdown hh p = Returns (hh', p') -> same_table hh hh'.
Proof.
  unfold _parse_showdown; destruct (contains "*** SHOW DOWN ***" (curline p)); intros H.
  - apply bind_returns in H as [[h q] [H1 H]]; cbv beta iota in H.
    bind_inv H. injection H as <- _.
    apply (while_match_inv _ _ (same_table hh)) in H1; [exact H1| |split; reflexivity].
    intros m a a' Ha Hb. apply (same_table_trans _ _ _ Ha).
    unfold shows_body in Hb.
    apply bind_returns in Hb as [[i s] [_ Hb]]; cbv beta iota in Hb.
    bind_inv Hb. bind_inv Hb. injection Hb as <-.
    split; [reflexivity | apply update_nth_length].
  - injection H as <- _. apply same_table_refl.
Qed.

(** X10.  The sections that follow the header write seats, blinds,
    actions, board and the showdown flag only: when they return, the
    header properties of the record are those it was created with, and it
    has as many seats as before. *)
Theorem sections_keep_the_table (hh : HandHistory) (p : Parser)
        (hh' : HandHistory) (p' : Parser) :
  parse_sections hh p = Returns (hh', p') ->
  properties hh' = properties hh /\ length (seats hh') = length (seats hh).
Proof.
  unfold parse_sections; intros H.
  apply bind_returns in H as [[h1 p1] [H1 H]]; cbv beta iota in H.
  apply bind_returns in H as [[h2 p2] [H2 H]]; cbv beta iota in H.
  apply bind_returns in H as [[h3 p3] [H3 H]]; cbv beta iota in H.
  apply bind_returns in H as [[h4 p4] [H4 H]]; cbv beta iota in H.
  apply bind_returns in H as [[h5 p5] [H5 H]]; cbv beta iota in H.
  apply bind_returns in H as [[h6 p6] [H6 H]]; cbv beta iota in H.
  apply bind_returns in H as [[h7 p7] [H7 H]]; cbv beta iota in H.
  apply players_same_table in H1. apply blinds_same_table in H2.
  apply hero_returns in H3 as [-> _].
  apply preflop_returns in H4 as [pre [-> _]].
  apply showdown_same_table in H.
  assert (S5 : same_table (set_preflopactions h2 pre) h5).
  { destruct (flop_returns _ _ _ _ H5) as [-> | [c1 [c2 [c3 [fa [-> _]]]]]];
      split; reflexivity. }
  assert (S6 : same_table h5 h6).
  { destruct (turn_returns _ _ _ _ H6) as [-> | [ct [ta [-> _]]]]; split; reflexivity. }
  assert (S7 : same_table h6 h7).
  { destruct (river_returns _ _ _ _ H7) as [-> | [cr [ra [-> _]]]]; split; reflexivity. }
  assert (S4 : same_table h2 (set_preflopactions h2 pre)) by (split; reflexivity).
  pose proof (same_table_trans _ _ _ H1
               (same_table_trans _ _ _ H2
                 (same_table_trans _ _ _ S4
                   (same_table_trans _ _ _ S5
                     (same_table_trans _ _ _ S6
                       (same_table_trans _ _ _ S7 H)))))) as [E1 E2].
  split; assumption.
Qed.

Lemma sections_keep_the_table_witness :
  let p := mkParser EmptyString
             (map (fun l => String.append l NL)
                  ["Seat 2: Bob ($50.50 in chips)"; "Alice: posts small blind $1";
                   "Bob: posts big blind $2"; "*** HOLE CARDS ***"; "Bob: folds "])
             (String.append "Seat 1: Alice ($100 in chips)" NL) in
  exists hh' p',
    parse_sections seated_pair p = Returns (hh', p')
    /\ properties hh' = properties seated_pair
    /\ length (seats hh') = length (seats seated_pair).
Proof.
  intros p. eexists; eexists. split; [vm_compute; reflexivity|].
  eapply (sections_keep_the_table seated_pair p). vm_compute; reflexivity.
Defined.

(** ** The number of a seat line *)

Lemma nth_error_in_range {X : Type} (l : list X) (i : nat) :
  i < length l -> exists x, nth_error l i = Some x.
Proof.
  intros H. destruct (nth_error l i) as [x|] eqn:E; [exists x; reflexivity|].
  apply nth_error_None in E. lia.
Qed.

(** X11.  A seat line numbered [k] writes name and stack into the seat of
    index [k - 1] and leaves the other seats as they are.  Number 0 gives
    the index -1, which a Python list reads from its end: the line writes
    the last seat.  A number above the count of seats raises
    [IndexError]. *)
Theorem seat_line_index (m : caps) (hh : HandHistory) (v : Q) :
  Fraction (group m "stack") = Returns v ->
  let k := N.to_nat (int_of_digits (group_str m "seat")) in
  let n := length (seats hh) in
  let target := if Nat.eqb k 0 then n - 1 else k - 1 in
  (k <= n /\ 0 < n ->
   exists s hh',
     nth_error (seats hh) target = Some s
     /\ seat_body m hh = Returns hh'
     /\ nth_error (seats hh') target = Some (seat_written m v s)
     /\ (forall j, j <> target -> nth_error (seats hh') j = nth_error (seats hh) j))
  /\ (n < k \/ n = 0 -> seat_body m hh = Raises IndexError).
Proof.
  intros HF k n target. unfold seat_body. rewrite HF. simpl.
  assert (Hk : Z.of_N (int_of_digits (group_str m "seat")) = Z.of_nat k).
  { unfold k. rewrite N_nat_Z. reflexivity. }
  rewrite Hk. fold n. split.
  - intros [Hle Hpos].
    assert (Ht : target < n).
    { unfold target. destruct (Nat.eqb_spec k 0); lia. }
    destruct (nth_error_in_range (seats hh) target Ht) as [s Hs].
    assert (Hi : py_index (Z.of_nat k - 1) n = Returns target).
    { unfold py_index, target. destruct (Nat.eqb_spec k 0) as [E|E].
      - rewrite E. simpl.
        replace (- Z.of_nat n <=? -1)%Z with true by (symmetry; apply Z.leb_le; lia).
        simpl. f_equal. lia.
      - replace (0 <=? Z.of_nat k - 1)%Z with true by (symmetry; apply Z.leb_le; lia).
        replace (Z.of_nat k - 1 <? Z.of_nat n)%Z with true by (symmetry; apply Z.ltb_lt; lia).
        simpl. f_equal. lia. }
    rewrite Hi. simpl.
    eexists s, _. split; [exact Hs|]. split; [reflexivity|]. simpl. split.
    + apply (update_nth_same _ _ _ _ Hs).
    + intros j Hj. apply update_nth_other. intros E; apply Hj; rewrite E; reflexivity.
  - intros Hout.
    assert (Hi : py_index (Z.of_nat k - 1) n = Raises IndexError).
    { unfold py_index.
      destruct (Z.leb_spec 0 (Z.of_nat k - 1)); destruct (Z.ltb_spec (Z.of_nat k - 1) (Z.of_nat n));
        simpl; try lia;
        destruct (Z.ltb_spec (Z.of_nat k - 1) 0);
        destruct (Z.leb_spec (- Z.of_nat n) (Z.of_nat k - 1)); simpl; try lia; reflexivity. }
    rewrite Hi. reflexivity.
Qed.

Lemma seat_line_index_witness :
  match match_ _seat_re (String.append "Seat 0: Carol ($7 in chips)" NL) with
  | None => False
  | Some m =>
      Fraction (group m "stack") = Returns (Qmake 7 1)
      /\ N.to_nat (int_of_digits (group_str m "seat")) = 0
      /\ exists s hh',
           nth_error (seats seated_pair) 1 = Some s
           /\ seat_body m seated_pair = Returns hh'
           /\ nth_error (seats hh') 1 = Some (seat_written m (Qmake 7 1) s)
           /\ (forall j, j <> 1 -> nth_error (seats hh') j = nth_error (seats seated_pair) j)
  end.
Proof.
  destruct (match_ _seat_re (String.append "Seat 0: Carol ($7 in chips)" NL)) as [m|] eqn:E;
    [|vm_compute in E; discriminate E].
  vm_compute in E. injection E as <-.
  split; [vm_compute; reflexivity|]. split; [vm_compute; reflexivity|].
  apply (seat_line_index
           [("stack", "7"); ("name", "Carol"); ("seat", "0")] seated_pair (Qmake 7 1)).
  - vm_compute; reflexivity.
  - split; [vm_compute; lia | vm_compute; lia].
Defined.

(** ** Streets and showdown need their marker line *)

Lemma players_shape (hh hh' : HandHistory) (p p' : Parser) :
  _parse_players hh p = Returns (hh', p') -> hh' = set_seats hh (seats hh').
Proof.
  unfold _parse_players; destruct (match_ _seat_re (curline p)); [|discriminate].
  intros H. apply bind_returns in H as [[h q] [H1 H]]; cbv beta iota in H.
  bind_inv H. injection H as <- _.
  apply (while_match_inv _ _ (fun h => h = set_seats hh (seats h))) in H1;
    [exact H1| |destruct hh; reflexivity].
  intros m a a' Ha Hb. apply seat_body_returns in Hb as [Hb _].
  rewrite Hb, Ha. reflexivity.
Qed.

Lemma blinds_shape (hh hh' : HandHistory) (p p' : Parser) :
  _parse_blinds hh p = Returns (hh', p') -> hh' = set_blinds hh (blinds hh').
Proof.
  unfold _parse_blinds; destruct (match_ blind_re (curline p)); [|discriminate].
  intros H. apply bind_returns in H as [[h q] [H1 H]]; cbv beta iota in H.
  bind_inv H. injection H as <- _.
  apply (while_match_inv _ _ (fun h => h = set_blinds hh (blinds h))) in H1;
    [exact H1| |reflexivity].
  intros m a a' Ha Hb. unfold blind_body in Hb. bind_inv Hb.
  apply bind_returns in Hb as [[i s] [_ Hb]]. injection Hb as <-.
  rewrite Ha at 1. reflexivity.
Qed.

Lemma flop_marker (hh hh' : HandHistory) (p p' : Parser) :
  _parse_flop hh p = Returns (hh', p') ->
  hh' = hh
  \/ (match_ flop_board_re (curline p) <> None
      /\ exists cards acts, hh' = set_flopactions (set_board hh cards) acts).
Proof.
  unfold _parse_flop; destruct (match_ flop_board_re (curline p)); intros H.
  - bind_inv H. bind_inv H. bind_inv H.
    apply bind_returns in H as [[acts q] [_ H]]; injection H as <- _.
    right. split; [discriminate|]. eexists; eexists; reflexivity.
  - injection H as <- _. left; reflexivity.
Qed.

Lemma turn_marker (hh hh' : HandHistory) (p p' : Parser) :
  _parse_turn hh p = Returns (hh', p') ->
  hh' = hh
  \/ (match_ turn_board_re (curline p) <> None
      /\ exists cards acts, hh' = set_turnactions (set_board hh cards) acts).
Proof.
  unfold _parse_turn; destruct (match_ turn_board_re (curline p)); intros H.
  - bind_inv H.
    apply bind_returns in H as [[acts q] [_ H]]; injection H as <- _.
    right. split; [discriminate|]. eexists; eexists; reflexivity.
  - injection H as <- _. left; reflexivity.
Qed.

Lemma river_marker (hh hh' : HandHistory) (p p' : Parser) :
  _parse_river hh p = Returns (hh', p') ->
  hh' = hh
  \/ (match_ river_board_re (curline p) <> None
      /\ exists cards acts, hh' = set_riveractions (set_board hh cards) acts).
Proof.
  unfold _parse_river; destruct (match_ river_board_re (curline p)); intros H.
  - bind_inv H.
    apply bind_returns in H as [[acts q] [_ H]]; injection H as <- _.
    right. split; [discriminate|]. eexists; eexists; reflexivity.
  - injection H as <- _. left; reflexivity.
Qed.

Lemma shows_body_flag (m : caps) (hh hh' : HandHistory) :
  shows_body m hh = Returns hh' -> showdown hh' = showdown hh.
Proof.
  unfold shows_body; intros H.
  apply bind_returns in H as [[i s] [_ H]]; cbv beta iota in H.
  bind_inv H. bind_inv H. injection H as <-. reflexivity.
Qed.

Lemma showdown_marker (hh hh' : HandHistory) (p p' : Parser) :
  _parse_showdown hh p = Returns (hh', p') ->
  (contains "*** SHOW DOWN ***" (curline p) = false /\ hh' = hh)
  \/ (contains "*** SHOW DOWN ***" (curline p) = true /\ showdown hh' = true).
Proof.
  unfold _parse_showdown;
    destruct (contains "*** SHOW DOWN ***" (curline p)); intros H.
  - right. split; [reflexivity|].
    apply bind_returns in H as [[h q] [H1 H]]; cbv beta iota in H.
    bind_inv H. injection H as <- _.
    apply (while_match_inv _ _ (fun h => showdown h = true)) in H1;
      [exact H1| |reflexivity].
    intros m a a' Ha Hb. rewrite (shows_body_flag _ _ _ Hb). exact Ha.
  - left. injection H as <- _. split; reflexivity.
Qed.

Lemma line_of_stream (L : list string) (q ps : Parser) (P : string -> Prop) :
  reads (__readline q) ps -> incl (unread (stream q)) L ->
  ~ P EmptyString -> P (curline ps) ->
  exists l, In l L /\ P l.
Proof.
  intros Hr Hincl Hne Hp.
  destruct (reads_after_readline _ _ Hr) as [E | Hin].
  - rewrite E in Hp. contradiction.
  - exists (curline ps). split; [apply Hincl, Hin | exact Hp].
Qed.

(** X12.  A record that [parse] returns has flop, turn or river actions
    only if a line of the stream has the shape of the flop, turn or river
    marker, and its showdown flag is set only if a line of the stream
    contains the show-down marker. *)
Theorem streets_need_their_marker (p : Parser) (hh : HandHistory) (p' : Parser) :
  parse p = Returns (hh, p') ->
  let has P := exists l, In l (unread (stream p)) /\ P l in
  (flopactions hh <> None -> has (fun l => match_ flop_board_re l <> None))
  /\ (turnactions hh <> None -> has (fun l => match_ turn_board_re l <> None))
  /\ (riveractions hh <> None -> has (fun l => match_ river_board_re l <> None))
  /\ (showdown hh = true -> has (fun l => contains "*** SHOW DOWN ***" l = true)).
Proof.
  intros H has. unfold parse in H.
  set (q := __seek_next_header p) in *.
  assert (Hincl : incl (unread (stream q)) (unread (stream p)))
    by apply (reads_unread_incl _ _ (seek_reads p)).
  apply bind_returns in H as [[props p0] [Hh H]]; cbv beta iota in H.
  apply header_reads_line in Hh as [_ R0].
  unfold parse_sections in H.
  apply bind_returns in H as [[h1 p1] [H1 H]]; cbv beta iota in H.
  apply bind_returns in H as [[h2 p2] [H2 H]]; cbv beta iota in H.
  apply bind_returns in H as [[h3 p3] [H3 H]]; cbv beta iota in H.
  apply bind_returns in H as [[h4 p4] [H4 H]]; cbv beta iota in H.
  apply bind_returns in H as [[h5 p5] [H5 H]]; cbv beta iota in H.
  apply bind_returns in H as [[h6 p6] [H6 H]]; cbv beta iota in H.
  apply bind_returns in H as [[h7 p7] [H7 H]]; cbv beta iota in H.
  pose proof (reads_trans _ _ _ R0 (players_reads _ _ _ _ H1)) as R1.
  pose proof (reads_trans _ _ _ R1 (blinds_reads _ _ _ _ H2)) as R2.
  pose proof (hero_returns _ _ _ _ H3) as [E3 [R3' _]].
  pose proof (reads_trans _ _ _ R2 R3') as R3.
  pose proof (reads_trans _ _ _ R3 (preflop_reads _ _ _ _ H4)) as R4.
  pose proof (reads_trans _ _ _ R4 (flop_reads _ _ _ _ H5)) as R5.
  pose proof (reads_trans _ _ _ R5 (turn_reads _ _ _ _ H6)) as R6.
  pose proof (reads_trans _ _ _ R6 (river_reads _ _ _ _ H7)) as R7.
  apply players_shape in H1. apply blinds_shape in H2.
  apply preflop_returns in H4 as [pre [E4 _]].
  pose proof (showdown_summary _ _ _ _ H) as Hsum.
  apply summary_inj in Hsum as [_ [_ [I3 [I4 [I5 _]]]]].
  apply flop_marker in H5. apply turn_marker in H6. apply river_marker in H7.
  apply showdown_marker in H.
  assert (F4 : flopactions h4 = None /\ turnactions h4 = None
               /\ riveractions h4 = None /\ showdown h4 = false).
  { rewrite E4, E3, H2, H1. auto. }
  destruct F4 as [F4f [F4t [F4r F4s]]].
  repeat split.
  - intros Hf. rewrite I3 in Hf.
    destruct H5 as [E5 | [M5 [c5 [a5 E5]]]].
    + exfalso. apply Hf.
      destruct H7 as [-> | [_ [c7 [a7 ->]]]];
        destruct H6 as [-> | [_ [c6 [a6 ->]]]]; simpl; rewrite E5; exact F4f.
    + apply (line_of_stream _ q p4 (fun l => match_ flop_board_re l <> None) R4 Hincl);
        [intros X; apply X; reflexivity | exact M5].
  - intros Hf. rewrite I4 in Hf.
    destruct H6 as [E6 | [M6 [c6 [a6 E6]]]].
    + exfalso. apply Hf.
      destruct H7 as [-> | [_ [c7 [a7 ->]]]]; simpl; rewrite E6;
        destruct H5 as [-> | [_ [c5 [a5 ->]]]]; simpl; exact F4t.
    + apply (line_of_stream _ q p5 (fun l => match_ turn_board_re l <> None) R5 Hincl);
        [intros X; apply X; reflexivity | exact M6].
  - intros Hf. rewrite I5 in Hf.
    destruct H7 as [E7 | [M7 [c7 [a7 E7]]]].
    + exfalso. apply Hf. rewrite E7.
      destruct H6 as [-> | [_ [c6 [a6 ->]]]]; simpl;
        destruct H5 as [-> | [_ [c5 [a5 ->]]]]; simpl; exact F4r.
    + apply (line_of_stream _ q p6 (fun l => match_ river_board_re l <> None) R6 Hincl);
        [intros X; apply X; reflexivity | exact M7].
  - intros Hs.
    destruct H as [[_ E8] | [M8 _]].
    + exfalso. rewrite E8 in Hs.
      destruct H7 as [-> | [_ [c7 [a7 ->]]]]; simpl in Hs;
        destruct H6 as [-> | [_ [c6 [a6 ->]]]]; simpl in Hs;
        destruct H5 as [-> | [_ [c5 [a5 ->]]]]; simpl in Hs;
        rewrite F4s in Hs; discriminate Hs.
    + apply (line_of_stream _ q p7 (fun l => contains "*** SHOW DOWN ***" l = true)
               R7 Hincl); [discriminate | exact M8].
Qed.

Lemma streets_need_their_marker_witness :
  exists hh p',
    parse (parser_of (unlines hand_a)) = Returns (hh, p')
    /\ flopactions hh <> None
    /\ ((flopactions hh <> None ->
         exists l, In l (unread (stream (parser_of (unlines hand_a))))
                   /\ match_ flop_board_re l <> None)
        /\ (turnactions hh <> None ->
            exists l, In l (unread (stream (parser_of (unlines hand_a))))
                      /\ match_ turn_board_re l <> None)
        /\ (riveractions hh <> None ->
            exists l, In l (unread (stream (parser_of (unlines hand_a))))
                      /\ match_ river_board_re l <> None)
        /\ (showdown hh = true ->
            exists l, In l (unread (stream (parser_of (unlines hand_a))))
                      /\ contains "*** SHOW DOWN ***" l = true)).
Proof.
  eexists; eexists. split; [vm_compute; reflexivity|]. split; [discriminate|].
  eapply (streets_need_their_marker (parser_of (unlines hand_a))).
  vm_compute; reflexivity.
Defined.

(** ** What a [ParseException] carries *)

Section RaiseFacts.
Context {M A : Type}.
Variable pat : string -> option M.
Variable body : M -> A -> outcome A.
Variable P : exn -> Prop.
Hypothesis body_raises : forall m a e, body m a = Raises e -> P e.

Lemma match_loop_raises (text : string) (rest : list string) :
  forall m a e, match_loop pat body text m a rest = Raises e -> P e.
Proof.
  induction rest as [|l rest IH]; intros m a e H; simpl in H;
    destruct (body m a) as [a1|e1|] eqn:Eb; try discriminate;
    try (injection H as <-; apply (body_raises _ _ _ Eb)).
  - destruct (pat EmptyString); discriminate.
  - destruct (pat l) as [m'|]; [apply (IH _ _ _ H) | discriminate].
Qed.

Lemma while_match_raises (a : A) (p : Parser) (e : exn) :
  while_match pat body a p = Raises e -> P e.
Proof.
  unfold while_match; destruct (pat (curline p)); [|discriminate].
  apply match_loop_raises.
Qed.
End RaiseFacts.

Lemma skip_while_never_raises (cond : string -> bool) (p : Parser) (e : exn) :
  skip_while cond p <> Raises e.
Proof.
  unfold skip_while; intros H.
  apply bind_raises in H as [H | [[u q] [_ H]]]; [|discriminate].
  apply (while_match_raises _ _ (fun _ => False)) in H; [exact H|].
  intros m a e' Hb. discriminate.
Qed.

Lemma Card_raises (s : string) (e : exn) :
  Card_of_string s = Raises e -> parse_failure e = false.
Proof.
  unfold Card_of_string.
  destruct s as [|r [|u [|? ?]]]; try (intros H; injection H as <-; reflexivity).
  destruct (_ && _); intros H; [discriminate | injection H as <-; reflexivity].
Qed.

Lemma seat_lookup_raises (hh : HandHistory) (k : seat_key) (e : exn) :
  HandHistory_seat hh k = Raises e -> parse_failure e = false.
Proof.
  unfold HandHistory_seat; destruct (find_seat k 0 (seats hh)); intros H;
    [discriminate | injection H as <-; reflexivity].
Qed.

Lemma Action_raises (s : string) (e : exn) :
  Action_of_string s = Raises e -> parse_failure e = false.
Proof.
  unfold Action_of_string.
  repeat (match goal with |- context [if ?b then _ else _] => destruct b end);
    intros H; try discriminate; injection H as <-; reflexivity.
Qed.

Lemma py_index_raises (i : Z) (n : nat) (e : exn) :
  py_index i n = Raises e -> parse_failure e = false.
Proof.
  unfold py_index.
  repeat (match goal with |- context [if ?b then _ else _] => destruct b end);
    intros H; try discriminate; injection H as <-; reflexivity.
Qed.

Ltac conversion_raises H :=
  first [ exact (Fraction_raises _ _ H) | exact (Card_raises _ _ H)
        | exact (seat_lookup_raises _ _ _ H) | exact (Action_raises _ _ H)
        | exact (py_index_raises _ _ _ H) ].

Lemma seat_body_raises (m : caps) (hh : HandHistory) (e : exn) :
  seat_body m hh = Raises e -> parse_failure e = false.
Proof.
  unfold seat_body; intros H.
  apply bind_raises in H as [H | [v [_ H]]]; [conversion_raises H|].
  apply bind_raises in H as [H | [i [_ H]]]; [conversion_raises H | discriminate].
Qed.

Lemma blind_body_raises (m : caps) (hh : HandHistory) (e : exn) :
  blind_body m hh = Raises e -> parse_failure e = false.
Proof.
  unfold blind_body; intros H.
  apply bind_raises in H as [H | [v [_ H]]]; [conversion_raises H|].
  apply bind_raises in H as [H | [[i s] [_ H]]]; [conversion_raises H | discriminate].
Qed.

Lemma action_body_raises (hh : HandHistory) (m : caps) (acts : list PlayerAction) (e : exn) :
  action_body hh m acts = Raises e -> parse_failure e = false.
Proof.
  unfold action_body; intros H.
  apply bind_raises in H as [H | [[i s] [_ H]]]; [conversion_raises H|].
  cbv beta iota in H.
  apply bind_raises in H as [H | [a [_ H]]]; [conversion_raises H|].
  apply bind_raises in H as [H | [pa [_ H]]]; [|discriminate].
  destruct (_ || _); [|discriminate].
  apply bind_raises in H as [H | [v [_ H]]]; [conversion_raises H | discriminate].
Qed.

Lemma shows_body_raises (m : caps) (hh : HandHistory) (e : exn) :
  shows_body m hh = Raises e -> parse_failure e = false.
Proof.
  unfold shows_body; intros H.
  apply bind_raises in H as [H | [[i s] [_ H]]]; [conversion_raises H|].
  cbv beta iota in H.
  apply bind_raises in H as [H | [c1 [_ H]]]; [conversion_raises H|].
  apply bind_raises in H as [H | [c2 [_ H]]]; [conversion_raises H | discriminate].
Qed.

Lemma street_raises (hh : HandHistory) (p : Parser) (e : exn) :
  _parse_street hh p = Raises e -> parse_failure e = false.
Proof.
  apply (while_match_raises _ _ (fun e => parse_failure e = false)).
  intros m a e'. apply action_body_raises.
Qed.

Lemma players_raises (hh : HandHistory) (p : Parser) (l : string) :
  _parse_players hh p = Raises (ParseException l) -> l = curline p.
Proof.
  unfold _parse_players; destruct (match_ _seat_re (curline p));
    [|intros H; injection H as <-; reflexivity].
  intros H. apply bind_raises in H as [H | [[h q] [_ H]]].
  - apply (while_match_raises _ _ (fun e => parse_failure e = false)) in H;
      [discriminate H | intros m a e'; apply seat_body_raises].
  - cbv beta iota in H. apply bind_raises in H as [H | [q2 [_ H]]];
      [exfalso; apply (skip_while_never_raises _ _ _ H) | discriminate].
Qed.

Lemma blinds_raises (hh : HandHistory) (p : Parser) (l : string) :
  _parse_blinds hh p = Raises (ParseException l) -> l = curline p.
Proof.
  unfold _parse_blinds; destruct (match_ blind_re (curline p));
    [|intros H; injection H as <-; reflexivity].
  intros H. apply bind_raises in H as [H | [[h q] [_ H]]].
  - apply (while_match_raises _ _ (fun e => parse_failure e = false)) in H;
      [discriminate H | intros m a e'; apply blind_body_raises].
  - cbv beta iota in H. apply bind_raises in H as [H | [q2 [_ H]]];
      [exfalso; apply (skip_while_never_raises _ _ _ H) | discriminate].
Qed.

Lemma hero_raises (hh : HandHistory) (p : Parser) (e : exn) :
  _parse_hero hh p = Raises e -> parse_failure e = false.
Proof.
  unfold _parse_hero. destruct (match_ _hero_re _); [|discriminate]. intros H.
  apply bind_raises in H as [H | [c1 [_ H]]]; [conversion_raises H|].
  apply bind_raises in H as [H | [c2 [_ H]]]; [conversion_raises H|].
  apply bind_raises in H as [H | [x [_ H]]]; [conversion_raises H|].
  injection H as <-. reflexivity.
Qed.

Lemma preflop_raises (hh : HandHistory) (p : Parser) (e : exn) :
  _parse_preflop hh p = Raises e -> parse_failure e = false.
Proof.
  unfold _parse_preflop; intros H.
  apply bind_raises in H as [H | [[a q] [_ H]]];
    [apply (street_raises _ _ _ H) | discriminate].
Qed.

Lemma flop_raises (hh : HandHistory) (p : Parser) (e : exn) :
  _parse_flop hh p = Raises e -> parse_failure e = false.
Proof.
  unfold _parse_flop; destruct (match_ flop_board_re (curline p)); [|discriminate].
  intros H.
  apply bind_raises in H as [H | [c1 [_ H]]]; [conversion_raises H|].
  apply bind_raises in H as [H | [c2 [_ H]]]; [conversion_raises H|].
  apply bind_raises in H as [H | [c3 [_ H]]]; [conversion_raises H|].
  apply bind_raises in H as [H | [[a q] [_ H]]];
    [apply (street_raises _ _ _ H) | discriminate].
Qed.

Lemma turn_raises (hh : HandHistory) (p : Parser) (e : exn) :
  _parse_turn hh p = Raises e -> parse_failure e = false.
Proof.
  unfold _parse_turn; destruct (match_ turn_board_re (curline p)); [|discriminate].
  intros H.
  apply bind_raises in H as [H | [c1 [_ H]]]; [conversion_raises H|].
  apply bind_raises in H as [H | [[a q] [_ H]]];
    [apply (street_raises _ _ _ H) | discriminate].
Qed.

Lemma river_raises (hh : HandHistory) (p : Parser) (e : exn) :
  _parse_river hh p = Raises e -> parse_failure e = false.
Proof.
  unfold _parse_river; destruct (match_ river_board_re (curline p)); [|discriminate].
  intros H.
  apply bind_raises in H as [H | [c1 [_ H]]]; [conversion_raises H|].
  apply bind_raises in H as [H | [[a q] [_ H]]];
    [apply (street_raises _ _ _ H) | discriminate].
Qed.

Lemma showdown_raises (hh : HandHistory) (p : Parser) (e : exn) :
  _parse_showdown hh p = Raises e -> parse_failure e = false.
Proof.
  unfold _parse_showdown; destruct (contains "*** SHOW DOWN ***" (curline p));
    [|discriminate].
  intros H. apply bind_raises in H as [H | [[h q] [_ H]]].
  - apply (while_match_raises _ _ (fun e => parse_failure e = false)) in H;
      [exact H | intros m a e'; apply shows_body_raises].
  - cbv beta iota in H. apply bind_raises in H as [H | [q2 [_ H]]];
      [exfalso; apply (skip_while_never_raises _ _ _ H) | discriminate].
Qed.

Lemma header_raises (p : Parser) (l : string) :
  _parse_header p = Raises (ParseException l) ->
  l = curline p \/ l = curline (__readline p).
Proof.
  unfold _parse_header; intros H.
  apply bind_raises in H as [H | [[mo tour] [_ H]]].
  - exfalso. destruct (contains "Tournament" (curline p)); [|discriminate].
    destruct (match_ _tournament_header_re (curline p)); [|discriminate].
    apply bind_raises in H as [H | [x1 [_ H]]]; [not_parse_failure H|].
    apply bind_raises in H as [H | [x2 [_ H]]]; [not_parse_failure H|].
    apply bind_raises in H as [H | [x3 [_ H]]]; [not_parse_failure H|].
    apply bind_raises in H as [H | [x4 [_ H]]]; [not_parse_failure H|].
    discriminate.
  - cbv beta iota in H. destruct mo as [m|].
    + right. apply (header_properties_failure _ _ _ _ H).
    + left. injection H as <-. reflexivity.
Qed.


(** ** What the header gives *)

Lemma star_match_some {X : Type} (c : cls) (s : string) (k : string -> option X) (r : X) :
  star_match c s k = Some r -> exists s', k s' = Some r.
Proof.
  induction s as [|a s IH]; simpl; intros H; [exists EmptyString; exact H|].
  destruct (cls_mem c a); [|exists (String a s); exact H].
  destruct (star_match c s k) as [r'|] eqn:E.
  - injection H as <-. apply IH. reflexivity.
  - exists (String a s). exact H.
Qed.

Lemma consumed_one (a : ascii) (s : string) :
  consumed (String a s) s = String a EmptyString.
Proof.
  unfold consumed. simpl String.length.
  replace (S (String.length s) - String.length s) with 1 by lia.
  simpl. destruct s; reflexivity.
Qed.

Lemma digit_val_le (d : ascii) : is_digit d = true -> (digit_val d <= 9)%N.
Proof.
  unfold is_digit. simpl. intros H.
  repeat (apply orb_true_iff in H as [H | H];
          [apply Ascii.eqb_eq in H; subst d; vm_compute; discriminate|]).
  discriminate H.
Qed.

(** The groups of a table line: a name and two single digits. *)
Lemma table_groups (l : string) (t : caps) :
  match_ _table_re l = Some t ->
  exists n d b,
    t = [("button", String b EmptyString); ("seats", String d EmptyString); ("name", n)]
    /\ is_digit d = true /\ is_digit b = true.
Proof.
  unfold match_, _table_re, cat. cbn [fold_right rmatch].
  destruct (strip_prefix "Table '" l) as [s1|]; [|discriminate].
  intros H. apply star_match_some in H as [s2 H].
  destruct (strip_prefix "' " s2) as [s3|]; [|discriminate].
  destruct s3 as [|d s4]; [discriminate|].
  destruct (cls_mem Digit d) eqn:Ed; [|discriminate].
  destruct (strip_prefix "-max Seat #" s4) as [s5|]; [|discriminate].
  destruct s5 as [|b s6]; [discriminate|].
  destruct (cls_mem Digit b) eqn:Eb; [|discriminate].
  destruct (strip_prefix " is the button" s6) as [s7|]; [|discriminate].
  destruct (String.eqb s7 EmptyString || String.eqb s7 NL); [|discriminate].
  injection H as <-. rewrite !consumed_one.
  exists (consumed s1 s2), d, b. split; [reflexivity|]. split; assumption.
Qed.

Lemma single_digit_group (d : ascii) :
  is_digit d = true -> N.to_nat (int_of_digits (String d EmptyString)) <= 9.
Proof.
  intros H. apply digit_val_le in H. unfold int_of_digits. simpl fold_left.
  replace (10 * 0 + digit_val d)%N with (digit_val d) by lia. lia.
Qed.

(** X14.  When [_parse_header] returns, it has read exactly two lines,
    the header line and the table line, and the cursor is on the line
    after them.  The seat count and the button of the properties are
    single digits, at most 9: a table line with a longer number is
    refused.  The six tournament fields are all present when the header
    line contains the word Tournament and all absent when it does not. *)
Theorem header_gives_table_and_fields (p : Parser) (props : Properties) (p' : Parser) :
  _parse_header p = Returns (props, p') ->
  p' = __readline (__readline p)
  /\ max_players props <= 9 /\ button props <= 9
  /\ (if contains "Tournament" (curline p)
      then buyin props <> None /\ rake props <> None
           /\ tournament_ident props <> None /\ tournament_level props <> None
           /\ game props <> None /\ limit props <> None
      else buyin props = None /\ rake props = None
           /\ tournament_ident props = None /\ tournament_level props = None
           /\ game props = None /\ limit props = None).
Proof.
  unfold _parse_header; intros H.
  apply bind_returns in H as [[mo tour] [H1 H2]]; cbv beta iota in H2.
  destruct mo as [m|]; [|discriminate]. unfold header_properties in H2.
  bind_inv H2. bind_inv H2. bind_inv H2.
  destruct (match_ _table_re (curline (__readline p))) as [t|] eqn:Et; [|discriminate].
  apply table_groups in Et as [n [d [b [-> [Hd Hb]]]]].
  injection H2 as <- <-. split; [reflexivity|]. simpl.
  split; [apply (single_digit_group d Hd)|]. split; [apply (single_digit_group b Hb)|].
  destruct (contains "Tournament" (curline p)).
  - destruct (match_ _tournament_header_re (curline p)); [|discriminate].
    bind_inv H1. bind_inv H1. bind_inv H1. bind_inv H1. injection H1 as _ <-.
    simpl. repeat split; discriminate.
  - injection H1 as _ <-. simpl. repeat split; reflexivity.
Qed.

Lemma header_gives_table_and_fields_witness :
  let p := mkParser EmptyString
             [String.append "Table 'Main' 9-max Seat #3 is the button" NL;
              String.append "Seat 1: Alice (1500 in chips)" NL]
             (String.append
                "PokerStars Hand #9: Tournament #77, $10.00+$1.00 USD Hold'em No Limit - Level I (10/20) - 2011/01/01 10:00:00 CET [2011/01/01 4:00:00 ET]"
                NL) in
  exists props p',
    _parse_header p = Returns (props, p')
    /\ max_players props = 9 /\ button props = 3
    /\ p' = __readline (__readline p)
    /\ max_players props <= 9 /\ button props <= 9
    /\ (if contains "Tournament" (curline p)
        then buyin props <> None /\ rake props <> None
             /\ tournament_ident props <> None /\ tournament_level props <> None
             /\ game props <> None /\ limit props <> None
        else buyin props = None /\ rake props = None
             /\ tournament_ident props = None /\ tournament_level props = None
             /\ game props = None /\ limit props = None).
Proof.
  intros p. eexists; eexists. split; [vm_compute; reflexivity|].
  split; [reflexivity|]. split; [reflexivity|].
  eapply (header_gives_table_and_fields p). vm_compute; reflexivity.
Defined.

(** A table for ten players has no line that the pattern takes. *)
Example ten_max_table_refused :
  match_ _table_re (String.append "Table 'Main' 10-max Seat #3 is the button" NL) = None.
Proof. reflexivity. Qed.

(** ** The showdown section *)

(** X15.  Without the show-down marker on the current line
    [_parse_showdown] reads nothing and leaves the record as it is.  With
    it, it sets the showdown flag, consumes the marker, then the run of
    lines where a player shows two cards, then the lines that tell of a
    collected pot, a mucked or unshown hand or a shown one; blinds,
    actions and board are not touched. *)
Theorem showdown_consumes_its_lines (hh : HandHistory) (p : Parser)
        (hh' : HandHistory) (p' : Parser) :
  lines_ok (unread (stream p)) ->
  _parse_showdown hh p = Returns (hh', p') ->
  (contains "*** SHOW DOWN ***" (curline p) = false /\ hh' = hh /\ p' = p)
  \/ (contains "*** SHOW DOWN ***" (curline p) = true
      /\ showdown hh' = true
      /\ summary hh' = summary hh
      /\ exists sh rs,
           unread (stream p) = sh ++ rs ++ pending p'
           /\ Forall (fun l => match_ showdown_re l <> None) sh
           /\ Forall (fun l => showdown_rest l = true) rs
           /\ showdown_rest (curline p') = false).
Proof.
  intros Hok H.
  pose proof (showdown_summary _ _ _ _ H) as Hsum.
  pose proof (showdown_marker _ _ _ _ H) as Hflag.
  unfold _parse_showdown in H.
  destruct (contains "*** SHOW DOWN ***" (curline p)) eqn:Em.
  - right. split; [reflexivity|].
    destruct Hflag as [[Hc _] | [_ Hf]]; [discriminate Hc|].
    split; [exact Hf|]. split; [exact Hsum|].
    apply bind_returns in H as [[h q] [H1 H]]; cbv beta iota in H.
    apply bind_returns in H as [q2 [H2 H]]. injection H as _ <-.
    destruct (pending_readline p Hok) as [Hp1 Hok1].
    destruct (while_match_run _ _ (fun _ _ => True) (fun _ _ _ _ _ _ => I)
                showdown_re_empty _ _ _ _ [] Hok1 I H1)
      as [sh [ms [Hs [Hf2 [_ [_ [_ Hokq]]]]]]].
    destruct (skip_while_run _ _ _ eq_refl Hokq H2) as [rs [Hrs [Hfrs [Hstop _]]]].
    exists sh, rs. repeat split; try assumption.
    + rewrite <- Hp1, Hs, Hrs. reflexivity.
    + apply (Forall2_matched _ _ _ Hf2).
  - left. injection H as <- <-. repeat split.
Qed.

Lemma showdown_consumes_its_lines_witness :
  let p := mkParser EmptyString
             (map (fun l => String.append l NL)
                  ["Bob: shows [Ah Kd] (a pair of Aces)"; "Alice: mucks hand";
                   "Bob collected $12 from pot"; "*** SUMMARY ***"])
             (String.append "*** SHOW DOWN ***" NL) in
  lines_ok (unread (stream p))
  /\ exists hh' p',
       _parse_showdown seated_pair p = Returns (hh', p')
       /\ curline p' = String.append "*** SUMMARY ***" NL
       /\ ((contains "*** SHOW DOWN ***" (curline p) = false /\ hh' = seated_pair /\ p' = p)
           \/ (contains "*** SHOW DOWN ***" (curline p) = true
               /\ showdown hh' = true
               /\ summary hh' = summary seated_pair
               /\ exists sh rs,
                    unread (stream p) = sh ++ rs ++ pending p'
                    /\ Forall (fun l => match_ showdown_re l <> None) sh
                    /\ Forall (fun l => showdown_rest l = true) rs
                    /\ showdown_rest (curline p') = false)).
Proof.
  intros p.
  assert (Hok : lines_ok (unread (stream p))).
  { repeat (constructor; [discriminate|]). constructor. }
  split; [exact Hok|].
  eexists; eexists. split; [vm_compute; reflexivity|]. split; [reflexivity|].
  eapply (showdown_consumes_its_lines seated_pair p); [exact Hok | vm_compute; reflexivity].
Defined.

(** ** After a full pass *)

Lemma parse_at_end (q : Parser) :
  curline q = EmptyString -> unread (stream q) = [] ->
  __seek_next_header q = q /\ parse q = Raises (ParseException EmptyString).
Proof.
  intros Hc Hu.
  assert (Hs : __seek_next_header q = q).
  { pose proof (parser_eta q) as E. rewrite Hc, Hu in E.
    unfold __seek_next_header. rewrite Hc, Hu. simpl. exact E. }
  split; [exact Hs|].
  unfold parse. rewrite Hs. unfold _parse_header. rewrite Hc. reflexivity.
Qed.

Lemma histories_loop_ends_at_end :
  forall fuel p hs q,
    lines_ok (unread (stream p)) ->
    (is_header (curline p) = true
     \/ (curline p = EmptyString /\ unread (stream p) = [])) ->
    histories_loop fuel p = (hs, Exhausted q) ->
    curline q = EmptyString /\ unread (stream q) = [].
Proof.
  induction fuel as [|fuel IH]; intros p hs q Hok Hstop H; simpl in H; [discriminate|].
  destruct (String.eqb_spec (curline p) EmptyString) as [E|Hne].
  - injection H as _ <-. destruct Hstop as [Hh | [_ Hu]]; [|split; assumption].
    rewrite E in Hh. discriminate Hh.
  - destruct Hstop as [Hh | [Hc _]]; [|contradiction].
    destruct (parse p) as [[hh p']| |] eqn:Ep; try discriminate.
    destruct (histories_loop fuel (__seek_next_header p')) as [hs' e] eqn:El.
    injection H as _ ->.
    apply parse_reads in Ep as [_ Hr]. rewrite (seek_at_header _ Hh) in Hr.
    destruct (pending_readline p Hok) as [_ Hok1].
    destruct (reads_pending _ _ Hr Hok1) as [Hokq _].
    destruct (reads_pending _ _ (seek_reads p') Hokq) as [Hok2 _].
    destruct (seek_spec p' Hokq) as [Hstop2 _].
    apply (IH _ _ _ Hok2 Hstop2 El).
Qed.

(** X16.  A pass of [histories] that ends without an exception has read
    the stream to its end: nothing is unread, the current line is the
    empty one, a further seek stays there, and [parse], asked for one
    more hand, raises [ParseException] with the empty line. *)
Theorem full_pass_ends_at_the_end (p : Parser) (hs : list HandHistory) (q : Parser) :
  histories p = (hs, Exhausted q) ->
  curline q = EmptyString /\ unread (stream q) = []
  /\ content (stream q) = content (stream p)
  /\ __seek_next_header q = q
  /\ parse q = Raises (ParseException EmptyString).
Proof.
  intros H. unfold histories in H.
  set (p0 := {| stream := seek0 (stream p); curline := curline p |}) in *.
  assert (Hok0 : lines_ok (unread (stream p0))) by apply readlines_nonempty.
  destruct (reads_pending _ _ (seek_reads p0) Hok0) as [Hok1 _].
  destruct (seek_spec p0 Hok0) as [Hstop _].
  destruct (histories_loop_ends_at_end _ _ _ _ Hok1 Hstop H) as [Hc Hu].
  destruct (histories_loop_exhausted _ _ _ _ H) as [_ Ht].
  rewrite seek_content in Ht. simpl in Ht.
  destruct (parse_at_end q Hc Hu) as [Hs Hp].
  repeat split; assumption.
Qed.

Lemma full_pass_ends_at_the_end_witness :
  let hs := fst (histories (parser_of two_hands)) in
  let q := mkParser two_hands [] EmptyString in
  histories (parser_of two_hands) = (hs, Exhausted q)
  /\ curline q = EmptyString /\ unread (stream q) = []
  /\ content (stream q) = content (stream (parser_of two_hands))
  /\ __seek_next_header q = q
  /\ parse q = Raises (ParseException EmptyString).
Proof.
  intros hs q. split; [vm_compute; reflexivity|].
  apply (full_pass_ends_at_the_end (parser_of two_hands) hs q). vm_compute; reflexivity.
Defined.

(** ** What every record holds *)

Section PostFacts.
Context {M A : Type}.
Variable pat : string -> option M.
Variable body : M -> A -> outcome A.
Variable I : A -> Prop.
Hypothesis body_post : forall m a a', body m a = Returns a' -> I a'.

Lemma match_loop_post (text : string) (rest : list string) :
  forall m a a' p', match_loop pat body text m a rest = Returns (a', p') -> I a'.
Proof.
  induction rest as [|l rest IH]; intros m a a' p' H; simpl in H;
    destruct (body m a) as [a1| |] eqn:Eb; try discriminate;
    pose proof (body_post _ _ _ Eb) as H1.
  - destruct (pat EmptyString); [discriminate|]. injection H as <- _. exact H1.
  - destruct (pat l) as [m'|]; [apply (IH _ _ _ _ H)|]. injection H as <- _. exact H1.
Qed.
End PostFacts.

Lemma py_index_range (i : Z) (n k : nat) : py_index i n = Returns k -> k < n.
Proof.
  unfold py_index.
  destruct (Z.leb_spec 0 i) as [L1|L1]; destruct (Z.ltb_spec i (Z.of_nat n)) as [L2|L2];
    destruct (Z.ltb_spec i 0) as [L3|L3];
    destruct (Z.leb_spec (- Z.of_nat n) i) as [L4|L4]; simpl;
    intros E; try discriminate E; injection E as <-; lia.
Qed.

Lemma update_nth_Exists {X : Type} (P : X -> Prop) (f : X -> X) :
  (forall x, P (f x)) ->
  forall (l : list X) (i : nat), i < length l -> Exists P (update_nth i f l).
Proof.
  intros Hf l; induction l as [|x l IH]; intros [|i] Hi; simpl in *; try lia.
  - apply Exists_cons_hd, Hf.
  - apply Exists_cons_tl, IH. lia.
Qed.

Lemma update_nth_Exists_mono {X : Type} (P : X -> Prop) (f : X -> X) :
  (forall x, P x -> P (f x)) ->
  forall (l : list X) (i : nat), Exists P l -> Exists P (update_nth i f l).
Proof.
  intros Hf l; induction l as [|x l IH]; intros i H; [inversion H|].
  destruct i as [|i]; simpl; inversion H; subst.
  - apply Exists_cons_hd, Hf. assumption.
  - apply Exists_cons_tl. assumption.
  - apply Exists_cons_hd. assumption.
  - apply Exists_cons_tl, IH. assumption.
Qed.

Lemma seat_body_seats (m : caps) (hh hh' : HandHistory) :
  seat_body m hh = Returns hh' -> Exists seated (seats hh').
Proof.
  unfold seat_body; intros H.
  apply bind_returns in H as [v [_ H]]; cbv beta iota in H.
  apply bind_returns in H as [i [Hi H]]. injection H as <-. simpl.
  apply update_nth_Exists; [|apply (py_index_range _ _ _ Hi)].
  intros x. split; discriminate.
Qed.

Lemma players_seat_someone (hh hh' : HandHistory) (p p' : Parser) :
  _parse_players hh p = Returns (hh', p') -> Exists seated (seats hh').
Proof.
  unfold _parse_players, while_match.
  destruct (match_ _seat_re (curline p)) as [m|]; [|discriminate].
  intros H. apply bind_returns in H as [[h q] [H1 H]]; cbv beta iota in H.
  bind_inv H. injection H as <- _.
  apply (match_loop_post _ _ (fun h => Exists seated (seats h))) in H1; [exact H1|].
  intros m' a a'. apply seat_body_seats.
Qed.

Lemma blinds_post_someone (hh hh' : HandHistory) (p p' : Parser) :
  _parse_blinds hh p = Returns (hh', p') -> blinds hh' <> [].
Proof.
  unfold _parse_blinds, while_match.
  destruct (match_ blind_re (curline p)) as [m|]; [|discriminate].
  intros H. apply bind_returns in H as [[h q] [H1 H]]; cbv beta iota in H.
  bind_inv H. injection H as <- _.
  apply (match_loop_post _ _ (fun h => blinds h <> [])) in H1; [exact H1|].
  intros m' a a' Hb. unfold blind_body in Hb. bind_inv Hb.
  apply bind_returns in Hb as [[i s] [_ Hb]]. injection Hb as <-. simpl.
  intros E. apply app_eq_nil in E as [_ E]. discriminate E.
Qed.

Lemma showdown_keeps_seated (hh hh' : HandHistory) (p p' : Parser) :
  _parse_showdown hh p = Returns (hh', p') ->
  Exists seated (seats hh) -> Exists seated (seats hh').
Proof.
  unfold _parse_showdown; destruct (contains "*** SHOW DOWN ***" (curline p)); intros H Hs.
  - apply bind_returns in H as [[h q] [H1 H]]; cbv beta iota in H.
    bind_inv H. injection H as <- _.
    apply (while_match_inv _ _ (fun h => Exists seated (seats h))) in H1;
      [exact H1| |exact Hs].
    intros m a a' Ha Hb. unfold shows_body in Hb.
    apply bind_returns in Hb as [[i s] [_ Hb]]; cbv beta iota in Hb.
    bind_inv Hb. bind_inv Hb. injection Hb as <-. simpl.
    apply update_nth_Exists_mono; [|exact Ha].
    intros y [Hn Hst]. split; assumption.
  - injection H as <- _. exact Hs.
Qed.

(** X17.  Every record that [parse] returns has at least one blind, and
    at least one seat that a seat line has filled with a name and a
    stack. *)
Theorem record_has_a_blind_and_a_player (p : Parser) (hh : HandHistory) (p' : Parser) :
  parse p = Returns (hh, p') ->
  blinds hh <> [] /\ Exists seated (seats hh).
Proof.
  unfold parse; intros H.
  apply bind_returns in H as [[props p0] [_ H]]; cbv beta iota in H.
  unfold parse_sections in H.
  apply bind_returns in H as [[h1 p1] [H1 H]]; cbv beta iota in H.
  apply bind_returns in H as [[h2 p2] [H2 H]]; cbv beta iota in H.
  apply bind_returns in H as [[h3 p3] [H3 H]]; cbv beta iota in H.
  apply bind_returns in H as [[h4 p4] [H4 H]]; cbv beta iota in H.
  apply bind_returns in H as [[h5 p5] [H5 H]]; cbv beta iota in H.
  apply bind_returns in H as [[h6 p6] [H6 H]]; cbv beta iota in H.
  apply bind_returns in H as [[h7 p7] [H7 H]]; cbv beta iota in H.
  apply players_seat_someone in H1.
  pose proof (blinds_post_someone _ _ _ _ H2) as Hb.
  apply blinds_shape in H2.
  apply hero_returns in H3 as [-> _].
  apply preflop_returns in H4 as [pre [-> _]].
  assert (S2 : Exists seated (seats h2)) by (rewrite H2; exact H1).
  assert (K7 : blinds h7 = blinds h2 /\ seats h7 = seats h2).
  { destruct (river_returns _ _ _ _ H7) as [-> | [cr [ra [-> _]]]];
      destruct (turn_returns _ _ _ _ H6) as [-> | [ct [ta [-> _]]]];
      destruct (flop_returns _ _ _ _ H5) as [-> | [c1 [c2 [c3 [fa [-> _]]]]]];
      split; reflexivity. }
  destruct K7 as [K7b K7s].
  split.
  - apply showdown_summary, summary_inj in H as [Eb _]. rewrite Eb, K7b. exact Hb.
  - apply (showdown_keeps_seated _ _ _ _ H). rewrite K7s. exact S2.
Qed.

Lemma record_has_a_blind_and_a_player_witness :
  exists hh p',
    parse (parser_of two_hands) = Returns (hh, p')
    /\ blinds hh <> [] /\ Exists seated (seats hh).
Proof.
  eexists; eexists. split; [vm_compute; reflexivity|].
  eapply (record_has_a_blind_and_a_player (parser_of two_hands)). vm_compute; reflexivity.
Defined.

(** ** The checks that raise a [ParseException] *)

Lemma header_properties_check (p : Parser) (m : caps)
      (tour : option (Q * Q * string * string * Game * Limit)) (l : string) :
  header_properties p m tour = Raises (ParseException l) ->
  l = curline (__readline p) /\ match_ _table_re l = None.
Proof.
  unfold header_properties; intros H.
  apply bind_raises in H as [H | [x1 [_ H]]]; [not_parse_failure H|].
  apply bind_raises in H as [H | [x2 [_ H]]]; [not_parse_failure H|].
  apply bind_raises in H as [H | [x3 [_ H]]]; [not_parse_failure H|].
  cbv zeta in H.
  destruct (match_ _table_re (curline (__readline p))) eqn:Et; [discriminate|].
  injection H as <-. split; [reflexivity | exact Et].
Qed.

Lemma header_raises_check (p : Parser) (l : string) :
  _parse_header p = Raises (ParseException l) ->
  (l = curline p /\ contains "Tournament" l = false /\ match_ _cash_header_re l = None)
  \/ (l = curline (__readline p) /\ match_ _table_re l = None).
Proof.
  unfold _parse_header; intros H.
  apply bind_raises in H as [H | [[mo tour] [Hmo H]]].
  - exfalso. destruct (contains "Tournament" (curline p)); [|discriminate].
    destruct (match_ _tournament_header_re (curline p)); [|discriminate].
    apply bind_raises in H as [H | [x1 [_ H]]]; [not_parse_failure H|].
    apply bind_raises in H as [H | [x2 [_ H]]]; [not_parse_failure H|].
    apply bind_raises in H as [H | [x3 [_ H]]]; [not_parse_failure H|].
    apply bind_raises in H as [H | [x4 [_ H]]]; [not_parse_failure H|].
    discriminate.
  - cbv beta iota in H. destruct mo as [m|].
    + right. apply (header_properties_check _ _ _ _ H).
    + left. injection H as <-.
      destruct (contains "Tournament" (curline p)) eqn:Ek.
      * exfalso. destruct (match_ _tournament_header_re (curline p)); [|discriminate].
        bind_inv Hmo. bind_inv Hmo. bind_inv Hmo. bind_inv Hmo. discriminate Hmo.
      * injection Hmo as Hc _. repeat split; assumption.
Qed.

Lemma players_raises_check (hh : HandHistory) (p : Parser) (l : string) :
  _parse_players hh p = Raises (ParseException l) ->
  l = curline p /\ match_ _seat_re l = None.
Proof.
  intros H. pose proof (players_raises _ _ _ H) as ->. split; [reflexivity|].
  unfold _parse_players in H.
  destruct (match_ _seat_re (curline p)) eqn:E; [|reflexivity]. exfalso.
  apply bind_raises in H as [H | [[h q] [_ H]]].
  - apply (while_match_raises _ _ (fun e => parse_failure e = false)) in H;
      [discriminate H | intros m a e'; apply seat_body_raises].
  - cbv beta iota in H. apply bind_raises in H as [H | [q2 [_ H]]];
      [apply (skip_while_never_raises _ _ _ H) | discriminate].
Qed.

Lemma blinds_raises_check (hh : HandHistory) (p : Parser) (l : string) :
  _parse_blinds hh p = Raises (ParseException l) ->
  l = curline p /\ match_ blind_re l = None.
Proof.
  intros H. pose proof (blinds_raises _ _ _ H) as ->. split; [reflexivity|].
  unfold _parse_blinds in H.
  destruct (match_ blind_re (curline p)) eqn:E; [|reflexivity]. exfalso.
  apply bind_raises in H as [H | [[h q] [_ H]]].
  - apply (while_match_raises _ _ (fun e => parse_failure e = false)) in H;
      [discriminate H | intros m a e'; apply blind_body_raises].
  - cbv beta iota in H. apply bind_raises in H as [H | [q2 [_ H]]];
      [apply (skip_while_never_raises _ _ _ H) | discriminate].
Qed.

(** The sections that follow the blinds raise no [ParseException]. *)
Lemma sections_after_blinds_raise (hh : HandHistory) (p : Parser) (e : exn) :
  ('(hh, p) <- _parse_hero hh p;;
   '(hh, p) <- _parse_preflop hh p;;
   '(hh, p) <- _parse_flop hh p;;
   '(hh, p) <- _parse_turn hh p;;
   '(hh, p) <- _parse_river hh p;;
   _parse_showdown hh p) = Raises e ->
  parse_failure e = false.
Proof.
  intros H.
  apply bind_raises in H as [H | [[h3 p3] [_ H]]]; [apply (hero_raises _ _ _ H)|].
  cbv beta iota in H.
  apply bind_raises in H as [H | [[h4 p4] [_ H]]]; [apply (preflop_raises _ _ _ H)|].
  cbv beta iota in H.
  apply bind_raises in H as [H | [[h5 p5] [_ H]]]; [apply (flop_raises _ _ _ H)|].
  cbv beta iota in H.
  apply bind_raises in H as [H | [[h6 p6] [_ H]]]; [apply (turn_raises _ _ _ H)|].
  cbv beta iota in H.
  apply bind_raises in H as [H | [[h7 p7] [_ H]]]; [apply (river_raises _ _ _ H)|].
  cbv beta iota in H. apply (showdown_raises _ _ _ H).
Qed.

Lemma parse_exception_check (p : Parser) (l : string) :
  parse p = Raises (ParseException l) -> raised_by_check p l.
Proof.
  unfold parse, raised_by_check; intros H. cbv zeta.
  set (q := __seek_next_header p) in *.
  apply bind_raises in H as [H | [[props p1] [Hh H]]].
  - apply header_raises_check in H as [H | H]; [left; exact H | right; left; exact H].
  - cbv beta iota in H. unfold parse_sections in H.
    apply bind_raises in H as [H | [[h1 p2] [H1 H]]].
    { apply players_raises_check in H as [-> Hs].
      right; right; left. exists props, p1. repeat split; assumption. }
    cbv beta iota in H.
    apply bind_raises in H as [H | [[h2 p3] [_ H]]].
    { apply blinds_raises_check in H as [-> Hb].
      right; right; right. exists props, p1, h1, p2. repeat split; assumption. }
    cbv beta iota in H. apply sections_after_blinds_raise in H. discriminate H.
Qed.

Lemma parse_exception_line (p : Parser) (l : string) :
  parse p = Raises (ParseException l) ->
  l = EmptyString \/ In l (curline p :: unread (stream p)).
Proof.
  intros H.
  assert (Hreach : forall ps, reads p ps ->
            curline ps = EmptyString \/ In (curline ps) (curline p :: unread (stream p))).
  { intros ps Hr.
    apply (reads_curline (curline p :: unread (stream p))) in Hr as [Hr _];
      [exact Hr | right; left; reflexivity | intros x Hx; right; exact Hx]. }
  pose proof (seek_reads p) as Rq.
  destruct (parse_exception_check p l H)
    as [[-> _] | [[-> _] | [[props [p1 [Hh [-> _]]]] | [props [p1 [h1 [p2 [Hh [H1 [-> _]]]]]]]]]].
  - apply Hreach, Rq.
  - apply Hreach. apply (reads_trans _ _ _ Rq), reads_one.
  - apply header_reads_line in Hh as [_ R0].
    apply Hreach. apply (reads_trans _ _ _ Rq). apply reads_step, R0.
  - apply header_reads_line in Hh as [_ R0]. apply players_reads in H1.
    apply Hreach. apply (reads_trans _ _ _ Rq). apply reads_step.
    apply (reads_trans _ _ _ R0 H1).
Qed.

(** X13.  A [ParseException] that leaves [parse] carries a line of the
    stream, the current one or one that was still unread, or the empty
    line read at the end.  It is raised by one of four checks and on the
    line that the check refuses: the cash-game shape of the header line,
    the shape of the table line, the seat shape of the first line after
    the header section, the blind shape of the first line after the seat
    section.  No section after the blinds raises it. *)
Theorem parse_exception_carries_a_line (p : Parser) (l : string) :
  parse p = Raises (ParseException l) ->
  (l = EmptyString \/ In l (curline p :: unread (stream p)))
  /\ raised_by_check p l
  /\ (forall hh ps,
        parse_sections hh ps
        = ('(h1, p1) <- _parse_players hh ps;;
           '(h2, p2) <- _parse_blinds h1 p1;;
           later_sections h2 p2)
        /\ forall e, later_sections hh ps = Raises e -> parse_failure e = false).
Proof.
  intros H. split; [apply (parse_exception_line p l H)|].
  split; [apply (parse_exception_check p l H)|].
  intros hh ps. split; [reflexivity|].
  intros e He. apply (sections_after_blinds_raise hh ps e He).
Qed.

Lemma parse_exception_carries_a_line_witness :
  let p := parser_of ante_hand in
  let l := String.append ante_line NL in
  parse p = Raises (ParseException l)
  /\ (l = EmptyString \/ In l (curline p :: unread (stream p)))
  /\ raised_by_check p l
  /\ (forall hh ps,
        parse_sections hh ps
        = ('(h1, p1) <- _parse_players hh ps;;
           '(h2, p2) <- _parse_blinds h1 p1;;
           later_sections h2 p2)
        /\ forall e, later_sections hh ps = Raises e -> parse_failure e = false).
Proof.
  intros p l. split; [vm_compute; reflexivity|].
  apply (parse_exception_carries_a_line p l). vm_compute; reflexivity.
Defined.

(** ** A stream that ends before the blinds *)

(** C3, as the code has it.  When no blind-posting line is left to read,
    as in a stream that ends in the header, at the table line or in the
    seat list, [parse] raises and returns no record.  A [ParseException]
    that it raises then carries a line and no section: a line of the
    stream, or the empty line read at its end, refused by the header, the
    table, the first-seat or the first-blind check. *)
Theorem parse_needs_blind_line (p : Parser) :
  Forall (fun l => match_ blind_re l = None) (unread (stream p)) ->
  (exists e, parse p = Raises e)
  /\ (forall hh p', parse p <> Returns (hh, p'))
  /\ (forall l, parse p = Raises (ParseException l) ->
                (l = EmptyString \/ In l (curline p :: unread (stream p)))
                /\ raised_by_check p l).
Proof.
  intros Hno.
  assert (Hr : exists e, parse p = Raises e).
  { unfold parse.
    apply bind_raises_or_returns; [apply header_total|].
    intros [props p1] Hh. cbv beta iota. unfold parse_sections.
    apply bind_raises_or_returns; [apply players_total|].
    intros [h1 p2] Hp. cbv beta iota.
    assert (Hb : match_ blind_re (curline p2) = None).
    { apply header_reads_line in Hh as [_ Hr1]. apply players_reads in Hp.
      pose proof (reads_trans _ _ _ Hr1 Hp) as Hr.
      destruct (reads_after_readline _ _ Hr) as [-> | Hin]; [apply blind_re_empty|].
      apply (reads_unread_incl _ _ (seek_reads p)) in Hin.
      rewrite Forall_forall in Hno. apply Hno, Hin. }
    unfold _parse_blinds. rewrite Hb. simpl. eexists; reflexivity. }
  split; [exact Hr|]. split.
  - intros hh p' E. destruct Hr as [e He]. rewrite He in E. discriminate E.
  - intros l Hl. split; [apply (parse_exception_line p l Hl) | apply (parse_exception_check p l Hl)].
Qed.

Lemma parse_needs_blind_line_witness :
  let p := parser_of header_table_seats in
  Forall (fun l => match_ blind_re l = None) (unread (stream p))
  /\ parse p = Raises (ParseException EmptyString)
  /\ (exists e, parse p = Raises e)
  /\ (forall hh p', parse p <> Returns (hh, p'))
  /\ (forall l, parse p = Raises (ParseException l) ->
                (l = EmptyString \/ In l (curline p :: unread (stream p)))
                /\ raised_by_check p l).
Proof.
  intros p.
  assert (H : Forall (fun l => match_ blind_re l = None) (unread (stream p))).
  { repeat (constructor; [vm_compute; reflexivity|]). constructor. }
  split; [exact H|]. split; [vm_compute; reflexivity|].
  apply (parse_needs_blind_line p H).
Defined.

(** ** The cards of the board *)

Lemma flop_stage (hh hh' : HandHistory) (p p' : Parser) :
  _parse_flop hh p = Returns (hh', p') ->
  board hh = [] -> flopactions hh = None ->
  exists f,
    board hh' = f
    /\ length f = ran (flopactions hh') 3
    /\ (flopactions hh' <> None -> flop_cards (curline p) = Some f)
    /\ turnactions hh' = turnactions hh
    /\ riveractions hh' = riveractions hh.
Proof.
  unfold _parse_flop, flop_cards; intros H Hb Hf.
  destruct (match_ flop_board_re (curline p)) as [m|].
  - apply bind_returns in H as [c1 [E1 H]]; cbv beta iota in H.
    apply bind_returns in H as [c2 [E2 H]]; cbv beta iota in H.
    apply bind_returns in H as [c3 [E3 H]]; cbv beta iota in H.
    apply bind_returns in H as [[acts q] [_ H]]; injection H as <- _.
    exists [c1; c2; c3]. rewrite E1, E2, E3. simpl. repeat split; reflexivity.
  - injection H as <- _. exists []. rewrite Hb, Hf. simpl.
    repeat split; try reflexivity. intros X. contradiction X. reflexivity.
Qed.

Lemma turn_stage (hh hh' : HandHistory) (p p' : Parser) :
  _parse_turn hh p = Returns (hh', p') ->
  turnactions hh = None ->
  exists t,
    board hh' = board hh ++ t
    /\ length t = ran (turnactions hh') 1
    /\ (turnactions hh' <> None -> marker_card turn_board_re (curline p) = Some t)
    /\ flopactions hh' = flopactions hh
    /\ riveractions hh' = riveractions hh.
Proof.
  unfold _parse_turn, marker_card; intros H Ht.
  destruct (match_ turn_board_re (curline p)) as [m|].
  - apply bind_returns in H as [c1 [E1 H]]; cbv beta iota in H.
    apply bind_returns in H as [[acts q] [_ H]]; injection H as <- _.
    exists [c1]. rewrite E1. simpl. repeat split; reflexivity.
  - injection H as <- _. exists []. rewrite Ht, app_nil_r. simpl.
    repeat split; try reflexivity. intros X. contradiction X. reflexivity.
Qed.

Lemma river_stage (hh hh' : HandHistory) (p p' : Parser) :
  _parse_river hh p = Returns (hh', p') ->
  riveractions hh = None ->
  exists r,
    board hh' = board hh ++ r
    /\ length r = ran (riveractions hh') 1
    /\ (riveractions hh' <> None -> marker_card river_board_re (curline p) = Some r)
    /\ flopactions hh' = flopactions hh
    /\ turnactions hh' = turnactions hh.
Proof.
  unfold _parse_river, marker_card; intros H Hr.
  destruct (match_ river_board_re (curline p)) as [m|].
  - apply bind_returns in H as [c1 [E1 H]]; cbv beta iota in H.
    apply bind_returns in H as [[acts q] [_ H]]; injection H as <- _.
    exists [c1]. rewrite E1. simpl. repeat split; reflexivity.
  - injection H as <- _. exists []. rewrite Hr, app_nil_r. simpl.
    repeat split; try reflexivity. intros X. contradiction X. reflexivity.
Qed.

(** C7, as the code has it.  After [parse] completes a hand the board is
    the three cards of the flop marker line, in the order of the line, if
    that marker was accepted, then the card of the turn marker line and
    the card of the river marker line, each if it was accepted.  The
    sections are those of the run of [parse] itself: the board is empty
    when the flop section begins, the flop, the turn and the river
    section each keep the cards that are there and add their own at the
    end, and the showdown leaves the board alone.  The marker line of a
    section is the current line when the section begins, a line of the
    stream.  The length is 3, 4 or 5 when the flop marker was accepted,
    and 0, 1 or 2 when it was not. *)
Theorem board_follows_markers (p : Parser) (hh : HandHistory) (p' : Parser) :
  parse p = Returns (hh, p') ->
  exists (f t r : list Card) (h0 h1 h2 h3 : HandHistory) (p0 p1 p2 p3 : Parser),
    (exists props q0,
        _parse_header (__seek_next_header p) = Returns (props, q0)
        /\ ('(h, q) <- _parse_players (HandHistory_new props) q0;;
            '(h, q) <- _parse_blinds h q;;
            '(h, q) <- _parse_hero h q;;
            _parse_preflop h q) = Returns (h0, p0))
    /\ _parse_flop h0 p0 = Returns (h1, p1)
    /\ _parse_turn h1 p1 = Returns (h2, p2)
    /\ _parse_river h2 p2 = Returns (h3, p3)
    /\ _parse_showdown h3 p3 = Returns (hh, p')
    /\ board h0 = []
    /\ board h1 = f
    /\ board h2 = f ++ t
    /\ board h3 = f ++ t ++ r
    /\ board hh = f ++ t ++ r
    /\ (flopactions hh <> None ->
        flop_cards (curline p0) = Some f /\ In (curline p0) (unread (stream p)))
    /\ (turnactions hh <> None ->
        marker_card turn_board_re (curline p1) = Some t
        /\ In (curline p1) (unread (stream p)))
    /\ (riveractions hh <> None ->
        marker_card river_board_re (curline p2) = Some r
        /\ In (curline p2) (unread (stream p)))
    /\ length f = ran (flopactions hh) 3
    /\ length t = ran (turnactions hh) 1
    /\ length r = ran (riveractions hh) 1
    /\ length (board hh) <= 5
    /\ (flopactions hh <> None -> In (length (board hh)) [3; 4; 5])
    /\ (flopactions hh = None -> length (board hh) <= 2).
Proof.
  intros H. unfold parse in H.
  set (q := __seek_next_header p) in *.
  assert (Hincl : incl (unread (stream q)) (unread (stream p)))
    by apply (reads_unread_incl _ _ (seek_reads p)).
  apply bind_returns in H as [[props p0] [Hh H]]; cbv beta iota in H.
  pose proof (header_reads_line _ _ _ Hh) as [_ R0].
  unfold parse_sections in H.
  apply bind_returns in H as [[h1 p1] [H1 H]]; cbv beta iota in H.
  apply bind_returns in H as [[h2 p2] [H2 H]]; cbv beta iota in H.
  apply bind_returns in H as [[h3 p3] [H3 H]]; cbv beta iota in H.
  apply bind_returns in H as [[h4 p4] [H4 H]]; cbv beta iota in H.
  apply bind_returns in H as [[h5 p5] [H5 H]]; cbv beta iota in H.
  apply bind_returns in H as [[h6 p6] [H6 H]]; cbv beta iota in H.
  apply bind_returns in H as [[h7 p7] [H7 H]]; cbv beta iota in H.
  pose proof (reads_trans _ _ _ R0 (players_reads _ _ _ _ H1)) as R1.
  pose proof (reads_trans _ _ _ R1 (blinds_reads _ _ _ _ H2)) as R2.
  pose proof (hero_returns _ _ _ _ H3) as [E3 [R3' _]].
  pose proof (reads_trans _ _ _ R2 R3') as R3.
  pose proof (reads_trans _ _ _ R3 (preflop_reads _ _ _ _ H4)) as R4.
  pose proof (reads_trans _ _ _ R4 (flop_reads _ _ _ _ H5)) as R5.
  pose proof (reads_trans _ _ _ R5 (turn_reads _ _ _ _ H6)) as R6.
  pose proof (players_shape _ _ _ _ H1) as S1.
  pose proof (blinds_shape _ _ _ _ H2) as S2.
  pose proof (preflop_returns _ _ _ _ H4) as [pre [E4 _]].
  pose proof (showdown_summary _ _ _ _ H) as Hsum.
  apply summary_inj in Hsum as [_ [_ [I3 [I4 [I5 I6]]]]].
  assert (F4 : board h4 = [] /\ flopactions h4 = None /\ turnactions h4 = None
               /\ riveractions h4 = None).
  { rewrite E4, E3, S2, S1. auto. }
  destruct F4 as [F4b [F4f [F4t F4r]]].
  destruct (flop_stage _ _ _ _ H5 F4b F4f) as [f [B5 [L5 [M5 [T5 V5]]]]].
  rewrite F4t in T5. rewrite F4r in V5.
  destruct (turn_stage _ _ _ _ H6 T5) as [t [B6 [L6 [M6 [G6 V6]]]]].
  rewrite V5 in V6. rewrite B5 in B6.
  destruct (river_stage _ _ _ _ H7 V6) as [r [B7 [L7 [M7 [G7 T7]]]]].
  rewrite B6 in B7. rewrite <- app_assoc in B7.
  assert (Kf : flopactions hh = flopactions h5) by (rewrite I3, G7, G6; reflexivity).
  assert (Kt : turnactions hh = turnactions h6) by (rewrite I4, T7; reflexivity).
  assert (Kr : riveractions hh = riveractions h7) by exact I5.
  assert (Kb : board hh = f ++ t ++ r) by (rewrite I6; exact B7).
  assert (Hline : forall (ps : Parser) (P : string -> Prop),
             reads (__readline q) ps -> ~ P EmptyString -> P (curline ps) ->
             In (curline ps) (unread (stream p))).
  { intros ps P Rs Hne Hp.
    destruct (reads_after_readline _ _ Rs) as [E | Hin];
      [rewrite E in Hp; contradiction | apply Hincl, Hin]. }
  exists f, t, r, h4, h5, h6, h7, p4, p5, p6, p7.
  rewrite Kf, Kt, Kr.
  assert (Hlen : length (board hh) = length f + (length t + length r))
    by (rewrite Kb, !length_app; reflexivity).
  split.
  { exists props, p0. split; [exact Hh|].
    rewrite H1; simpl. rewrite H2; simpl. rewrite H3; simpl. exact H4. }
  repeat (split; [assumption|]).
  split.
  { intros Hf. split; [apply M5, Hf|].
    apply (Hline p4 (fun l => flop_cards l = Some f) R4); [discriminate | apply M5, Hf]. }
  split.
  { intros Ht. split; [apply M6, Ht|].
    apply (Hline p5 (fun l => marker_card turn_board_re l = Some t) R5);
      [discriminate | apply M6, Ht]. }
  split.
  { intros Hr. split; [apply M7, Hr|].
    apply (Hline p6 (fun l => marker_card river_board_re l = Some r) R6);
      [discriminate | apply M7, Hr]. }
  repeat (split; [assumption|]).
  split; [|split].
  - rewrite Hlen, L5, L6, L7.
    destruct (flopactions h5), (turnactions h6), (riveractions h7); simpl; lia.
  - intros Hf. rewrite Hlen, L5, L6, L7.
    destruct (flopactions h5); [|contradiction Hf; reflexivity].
    destruct (turnactions h6), (riveractions h7); simpl; auto.
  - intros Hf. rewrite Hlen, L5, L6, L7, Hf.
    destruct (turnactions h6), (riveractions h7); simpl; lia.
Qed.

Lemma board_follows_markers_witness :
  exists hh p',
    parse (parser_of river_hand) = Returns (hh, p')
    /\ board hh = [ {| rank := "A"; suit := "h" |}; {| rank := "7"; suit := "d" |};
                    {| rank := "5"; suit := "d" |}; {| rank := "Q"; suit := "h" |};
                    {| rank := "2"; suit := "c" |} ]
    /\ exists (f t r : list Card) (h0 h1 h2 h3 : HandHistory) (p0 p1 p2 p3 : Parser),
        (exists props q0,
            _parse_header (__seek_next_header (parser_of river_hand)) = Returns (props, q0)
            /\ ('(h, q) <- _parse_players (HandHistory_new props) q0;;
                '(h, q) <- _parse_blinds h q;;
                '(h, q) <- _parse_hero h q;;
                _parse_preflop h q) = Returns (h0, p0))
        /\ _parse_flop h0 p0 = Returns (h1, p1)
        /\ _parse_turn h1 p1 = Returns (h2, p2)
        /\ _parse_river h2 p2 = Returns (h3, p3)
        /\ _parse_showdown h3 p3 = Returns (hh, p')
        /\ board h0 = []
        /\ board h1 = f
        /\ board h2 = f ++ t
        /\ board h3 = f ++ t ++ r
        /\ board hh = f ++ t ++ r
        /\ (flopactions hh <> None ->
            flop_cards (curline p0) = Some f /\ In (curline p0) (unread (stream (parser_of river_hand))))
        /\ (turnactions hh <> None ->
            marker_card turn_board_re (curline p1) = Some t
            /\ In (curline p1) (unread (stream (parser_of river_hand))))
        /\ (riveractions hh <> None ->
            marker_card river_board_re (curline p2) = Some r
            /\ In (curline p2) (unread (stream (parser_of river_hand))))
        /\ length f = ran (flopactions hh) 3
        /\ length t = ran (turnactions hh) 1
        /\ length r = ran (riveractions hh) 1
        /\ length (board hh) <= 5
        /\ (flopactions hh <> None -> In (length (board hh)) [3; 4; 5])
        /\ (flopactions hh = None -> length (board hh) <= 2).
Proof.
  eexists; eexists. split; [vm_compute; reflexivity|]. split; [reflexivity|].
  eapply (board_follows_markers (parser_of river_hand)). vm_compute; reflexivity.
Defined.

(** ** A pass over hands that the section parsers refuse *)

(** C1, on streams whose every header line begins a hand of the room's
    format.  One hand with the line that deals the hero's cards: the pass
    yields no record and ends with the exception of the hole-cards
    parser.  The same hand followed by a second one: still no record.
    One hand whose first action is a raise by a whole amount: no record
    either.  Without such lines the same hands are yielded, one record
    per header, and a stream without header gives the empty sequence. *)
Theorem histories_aborts_on_hero_line :
  (count_headers (readlines hero_hand) = 1
   /\ histories (parser_of hero_hand) = ([], Failed SeatNotFound))
  /\ (count_headers (readlines hero_hand_then_hand_b) = 2
      /\ histories (parser_of hero_hand_then_hand_b) = ([], Failed SeatNotFound))
  /\ (count_headers (readlines raise_hand) = 1
      /\ histories (parser_of raise_hand) = ([], Failed TypeError))
  /\ (count_headers (readlines hand_without_hero_line) = 1
      /\ length (fst (histories (parser_of hand_without_hero_line))) = 1
      /\ snd (histories (parser_of hand_without_hero_line))
         = Exhausted (mkParser hand_without_hero_line [] EmptyString))
  /\ histories (parser_of EmptyString)
     = ([], Exhausted (mkParser EmptyString [] EmptyString)).
Proof. vm_compute. repeat split. Qed.
